(** * unreleasedcommits: the crawl-and-normalize pipeline of main.go

    A shallow embedding of the crawl half of the program (runCrawl,
    listPublicRepos, checkLatestRelease, compareAllCommits, writeJSON) and
    the properties of it that the specification states.

    Conventions of the embedding.
    - A Go pointer field of the GitHub client library is an [option]; the
      library's generated accessors (GetName, GetLogin, GetDate, ...) return
      the zero value on a nil receiver or a nil field, and are modelled by
      the [Get...] functions below.  A plain field selection through a nil
      pointer (c.Commit.Author with c.Commit nil) is a run-time panic.
    - A remote call returning (value, response, err) is a [result].
    - The two pagination loops are [for { ... }] loops whose exit depends on
      the remote's answers; they are run with fuel, one unit per request.
    - The file system is a finite map from path to file content, the
      standard output a list of events, one per Printf of the source. *)

From stdpp Require Import base option list strings pretty sorting gmap.
From Stdlib Require Import ZArith Lia Ascii.

Open Scope string_scope.
Open Scope list_scope.
Open Scope Z_scope.

(** ** Errors, time, results *)

Definition error := string.

(** time.Time, as seconds from the Unix epoch; [zeroTime] is time.Time{}
    (January 1, year 1, 00:00:00 UTC). *)
Definition Time := Z.
Definition zeroTime : Time := -62135596800.

Inductive result (A : Type) : Type :=
| Ok (a : A)
| Err (e : error).
Arguments Ok {A} a.
Arguments Err {A} e.

(** ** The client library (package github) *)

Module github.

Record ListOptions := { Page : nat; PerPage : nat }.

Record RepositoryListByOrgOptions :=
  { Type_ : string; ListOptions_ : ListOptions }.

Record Response := { NextPage : nat }.

Record Repository :=
  { Name : option string;
    DefaultBranch : option string;
    HTMLURL : option string }.

Record RepositoryRelease :=
  { TagName : option string;
    PublishedAt : option Time }.

Record User := { Login : option string }.

Record CommitAuthor :=
  { AuthorName : option string;
    Date : option Time }.

Record Commit :=
  { CommitAuthor_ : option CommitAuthor;
    Message : option string }.

Record RepositoryCommit :=
  { SHA : option string;
    Author : option User;
    Commit_ : option Commit;
    CommitHTMLURL : option string }.

Record CommitsComparison := { Commits : list RepositoryCommit }.

(** The accessors: zero value on nil. *)
Definition GetName (r : Repository) : string := default "" (Name r).
Definition GetDefaultBranch (r : Repository) : string := default "" (DefaultBranch r).
Definition GetHTMLURL (r : Repository) : string := default "" (HTMLURL r).

Definition GetTagName (rel : option RepositoryRelease) : string :=
  default "" (rel ≫= TagName).
Definition GetPublishedAt (rel : option RepositoryRelease) : Time :=
  default zeroTime (rel ≫= PublishedAt).

Definition GetLogin (u : option User) : string := default "" (u ≫= Login).
Definition GetAuthorName (a : option CommitAuthor) : string :=
  default "" (a ≫= AuthorName).
Definition GetDate (a : option CommitAuthor) : Time :=
  default zeroTime (a ≫= Date).
Definition GetMessage (c : option Commit) : string := default "" (c ≫= Message).
Definition GetSHA (c : RepositoryCommit) : string := default "" (SHA c).
Definition GetCommitHTMLURL (c : RepositoryCommit) : string :=
  default "" (CommitHTMLURL c).

(** The remote, as the four calls of client.Repositories that main.go makes.
    GetLatestRelease keeps the release pointer and the error apart, since
    checkLatestRelease tests both. *)
Record Client :=
  { ListByOrg : string → RepositoryListByOrgOptions →
                result (list Repository * Response);
    GetLatestRelease : string → string →
                option RepositoryRelease * option error;
    Get : string → string → result Repository;
    CompareCommits : string → string → string → string → ListOptions →
                result (CommitsComparison * Response) }.

End github.
Import github.

(** ** Pagination *)

(** [len] of a slice, as a Go int. *)
Definition len {A} (l : list A) : Z := Z.of_nat (length l).

(** The body of the [for] loop of listPublicRepos; [allRepos] and [opt] are
    the two variables the loop updates.  [None]: the fuel ran out. *)
Fixpoint listPublicRepos_loop (fuel : nat) (client : Client) (owner : string)
    (limit : Z) (allRepos : list Repository) (opt : RepositoryListByOrgOptions)
    : option (result (list Repository)) :=
  match fuel with
  | O => None
  | S fuel' =>
    match ListByOrg client owner opt with
    | Err err => Some (Err err)
    | Ok (repos, resp) =>
      let allRepos := allRepos ++ repos in
      if bool_decide (limit > 0) && bool_decide (len allRepos >= limit)
      then Some (Ok (take (Z.to_nat limit) allRepos))
      else if bool_decide (NextPage resp = 0%nat)
      then Some (Ok allRepos)
      else listPublicRepos_loop fuel' client owner limit allRepos
             {| Type_ := Type_ opt;
                ListOptions_ := {| Page := NextPage resp;
                                   PerPage := PerPage (ListOptions_ opt) |} |}
    end
  end.

Definition listPublicRepos (fuel : nat) (client : Client) (owner : string)
    (limit : Z) : option (result (list Repository)) :=
  listPublicRepos_loop fuel client owner limit []
    {| Type_ := "public";
       ListOptions_ := {| Page := 0; PerPage := 100 |} |}.

(** The [for] loop of compareAllCommits; [all] and [page] are updated,
    [perPage] is fixed. *)
Fixpoint compareAllCommits_loop (fuel : nat) (client : Client)
    (owner repo base head : string) (perPage : nat)
    (all : list RepositoryCommit) (page : nat)
    : option (result (list RepositoryCommit)) :=
  match fuel with
  | O => None
  | S fuel' =>
    match CompareCommits client owner repo base head
            {| Page := page; PerPage := perPage |} with
    | Err err => Some (Err err)
    | Ok (comp, resp) =>
      let all := all ++ Commits comp in
      if bool_decide (NextPage resp = 0%nat)
         || bool_decide (length (Commits comp) < perPage)%nat
      then Some (Ok all)
      else compareAllCommits_loop fuel' client owner repo base head perPage
             all (NextPage resp)
    end
  end.

Definition compareAllCommits (fuel : nat) (client : Client)
    (owner repo base head : string)
    : option (result (list RepositoryCommit)) :=
  compareAllCommits_loop fuel client owner repo base head 100 [] 1.

(** checkLatestRelease returns the pair (hasRelease, release). *)
Definition checkLatestRelease (client : Client) (owner repo : string)
    : bool * option RepositoryRelease :=
  match GetLatestRelease client owner repo with
  | (rel, err) =>
    if bool_decide (err ≠ None) || bool_decide (rel = None)
       || bool_decide (GetTagName rel = "")
    then (false, None)
    else (true, rel)
  end.

(** ** A simulated paginated source

    The remote holds [items] and serves them in pages of [P] items, numbered
    from 1; a request without a page number (Page = 0) gets the first page.
    NextPage is the number of the following page, or 0 after the last. *)
Definition page_of {A} (P : nat) (items : list A) (page : nat)
    : list A * Response :=
  let p := Nat.max 1 page in
  (take P (drop ((p - 1) * P) items),
   {| NextPage := if bool_decide (p * P < length items)%nat then S p else 0 |}).

Arguments page_of : simpl never.

(** The remote honours the page size it is asked for. *)
Definition serves_repos (client : Client) (owner : string)
    (repos : list Repository) : Prop :=
  ∀ opt, ListByOrg client owner opt =
         Ok (page_of (PerPage (ListOptions_ opt)) repos (Page (ListOptions_ opt))).

Definition serves_commits (client : Client) (owner repo base head : string)
    (commits : list RepositoryCommit) : Prop :=
  ∀ opt, CompareCommits client owner repo base head opt =
         Ok ({| Commits := (page_of (PerPage opt) commits (Page opt)).1 |},
             (page_of (PerPage opt) commits (Page opt)).2).

(** A client that serves [repos] and, for every repository and range, the
    same [commits]; no repository has a release. *)
Definition simulated (repos : list Repository) (commits : list RepositoryCommit)
    : Client :=
  {| ListByOrg := λ _ opt,
       Ok (page_of (PerPage (ListOptions_ opt)) repos (Page (ListOptions_ opt)));
     GetLatestRelease := λ _ _, (None, Some "404 Not Found");
     Get := λ _ _, Err "404 Not Found";
     CompareCommits := λ _ _ _ _ opt,
       Ok ({| Commits := (page_of (PerPage opt) commits (Page opt)).1 |},
           (page_of (PerPage opt) commits (Page opt)).2) |}.

Definition repo_named (n : nat) : Repository :=
  {| Name := Some (pretty n); DefaultBranch := Some "main"; HTMLURL := None |}.

Definition commit_numbered (n : nat) : RepositoryCommit :=
  {| SHA := Some (pretty n); Author := None; Commit_ := None;
     CommitHTMLURL := None |}.

(** ** The records the crawl writes (package main) *)

Record CommitInfo :=
  { SHA : string;
    Author : string;
    Message : string;
    Timestamp : Time;
    URL : string }.

Record RepositoryData :=
  { Owner : string;
    Name : string;
    DefaultBranch : string;
    LatestReleaseTag : string;
    LatestReleaseTime : Time;
    UnreleasedCommits : list CommitInfo;
    RepositoryURL : string }.

Record TimestampData := { LastCrawled : Time }.

(** ** Normalization of the collected commits (runCrawl, the inner loop) *)

(** The [author] variable after the if / else if of the loop body. *)
Definition author (c : RepositoryCommit) : string :=
  if bool_decide (github.Author c ≠ None)
     && bool_decide (GetLogin (github.Author c) ≠ "")
  then GetLogin (github.Author c)
  else
    match Commit_ c with
    | Some cm =>
      if bool_decide (CommitAuthor_ cm ≠ None)
         && bool_decide (GetAuthorName (CommitAuthor_ cm) ≠ "")
      then GetAuthorName (CommitAuthor_ cm)
      else "unknown"
    | None => "unknown"
    end.

(** The CommitInfo literal appended for one commit.  c.Commit.GetMessage()
    is a nil-safe accessor call; c.Commit.Author selects a field through
    c.Commit and panics when that pointer is nil ([None]); GetDate is
    nil-safe on the selected pointer. *)
Definition commitInfo (c : RepositoryCommit) : option CommitInfo :=
  let author := author c in
  match Commit_ c with
  | None => None
  | Some cm =>
    Some {| SHA := GetSHA c;
            Author := author;
            Message := GetMessage (Commit_ c);
            Timestamp := GetDate (CommitAuthor_ cm);
            URL := GetCommitHTMLURL c |}
  end.

(** [for _, c := range commits { ... append ... }]; [None] on a panic. *)
Fixpoint commitInfos_loop (commits : list RepositoryCommit)
    (commitInfos : list CommitInfo) : option (list CommitInfo) :=
  match commits with
  | [] => Some commitInfos
  | c :: commits' =>
    match commitInfo c with
    | None => None
    | Some ci => commitInfos_loop commits' (commitInfos ++ [ci])
    end
  end.

(** [s[i], s[j] = s[j], s[i]]; an index out of range leaves [s] alone (the
    loop below never produces one). *)
Definition swap {A} (i j : Z) (s : list A) : list A :=
  match s !! Z.to_nat i, s !! Z.to_nat j with
  | Some a, Some b => <[Z.to_nat j := a]> (<[Z.to_nat i := b]> s)
  | _, _ => s
  end.

(** [for i, j := 0, len(s)-1; i < j; i, j = i+1, j-1 { swap }], with one
    unit of fuel per iteration. *)
Fixpoint reverse_loop {A} (fuel : nat) (i j : Z) (s : list A) : list A :=
  match fuel with
  | O => s
  | S fuel' =>
    if bool_decide (i < j) then reverse_loop fuel' (i + 1) (j - 1) (swap i j s)
    else s
  end.

Definition reverse_in_place {A} (s : list A) : list A :=
  reverse_loop (length s) 0 (len s - 1) s.

(** ** The process: files, output, ways to stop *)

(** What writeJSON is given to encode. *)
Inductive Data :=
| DataRepository (d : RepositoryData)
| DataTimestamp (t : TimestampData).

(** The content of a file: the JSON encoding of a value, or what os.Create
    left when the encoding failed after it. *)
Inductive File :=
| Encoded (d : Data)
| Truncated.

(** One constructor per Printf / Printf-like call of runCrawl, with the
    arguments of the format. *)
Inductive Event :=
| FetchingRepositories (owner : string)
| FoundRepositories (n : Z)
| Processing (i n : Z) (repoName : string)
| Skipping (repoName : string)
| ErrorRepoDetails (err : error)
| LatestRelease (tagName : string) (releaseTime : Time)
| ErrorComparing (err : error)
| ErrorWritingJSON (err : error)
| Saved (n : Z) (filename : string)
| WarnTimestamp (err : error)  (* the log.Printf warning *)
| RecordedTimestamp (crawlTime : Time)
| CrawlComplete (processedCount : Z).

Record State :=
  { files : gmap string File;
    output : list Event }.

(** The environment of the process.  [GITHUB_TOKEN] is the variable after
    strings.TrimSpace; [Create] and [Encode] say whether os.Create and
    encoder.Encode fail for a path. *)
Record OS :=
  { GITHUB_TOKEN : string;
    MkdirAll : string → option error;
    Create : string → option error;
    Encode : string → Data → option error;
    Now : Time }.

Inductive Halt :=
| Panic
| Fatal (msg : string)
| OutOfFuel.

Inductive Run (A : Type) :=
| Done (a : A) (st : State)
| Stop (h : Halt) (st : State).
Arguments Done {A} a st.
Arguments Stop {A} h st.

Definition M (A : Type) := State → Run A.

#[global] Instance M_ret : MRet M := λ A a st, Done a st.

#[global] Instance M_bind : MBind M := λ A B k m st,
  match m st with
  | Done a st' => k a st'
  | Stop h st' => Stop h st'
  end.

Definition print (e : Event) : M unit :=
  λ st, Done () {| files := files st; output := output st ++ [e] |}.

Definition halt {A} (h : Halt) : M A := λ st, Stop h st.

(** filepath.Join(dir, name) for a [name] without separators or dot
    segments, as the repository names and "timestamp.json" are. *)
Definition Join (dir name : string) : string := dir +:+ "/" +:+ name.

Definition writeJSON (os : OS) (filename : string) (data : Data)
    : M (option error) :=
  λ st,
    match Create os filename with
    | Some err => Done (Some err) st
    | None =>
      match Encode os filename data with
      | Some err =>
        Done (Some err)
          {| files := <[filename := Truncated]> (files st); output := output st |}
      | None =>
        Done None
          {| files := <[filename := Encoded data]> (files st);
             output := output st |}
      end
    end.

Definition outputDir : string := "data".

(** The body of [for i, repo := range repos]; every [continue] returns the
    count unchanged. *)
Definition runCrawl_body (fuel : nat) (os : OS) (client : Client)
    (owner : string) (n : Z) (i : Z) (repo : Repository)
    (processedCount : Z) : M Z :=
  let repoName := GetName repo in
  print (Processing (i + 1) n repoName) ;;
  let '(hasRelease, releaseData) := checkLatestRelease client owner repoName in
  if negb hasRelease then
    print (Skipping repoName) ;; mret processedCount
  else
    match Get client owner repoName with
    | Err err => print (ErrorRepoDetails err) ;; mret processedCount
    | Ok repoDetail =>
      let defaultBranch := GetDefaultBranch repoDetail in
      let tagName := GetTagName releaseData in
      let releaseTime := GetPublishedAt releaseData in
      print (LatestRelease tagName releaseTime) ;;
      match compareAllCommits fuel client owner repoName tagName defaultBranch with
      | None => halt OutOfFuel
      | Some (Err err) => print (ErrorComparing err) ;; mret processedCount
      | Some (Ok commits) =>
        match commitInfos_loop commits [] with
        | None => halt Panic
        | Some commitInfos =>
          let commitInfos := reverse_in_place commitInfos in
          let repoData :=
            {| Owner := owner;
               Name := repoName;
               DefaultBranch := defaultBranch;
               LatestReleaseTag := tagName;
               LatestReleaseTime := releaseTime;
               UnreleasedCommits := commitInfos;
               RepositoryURL := GetHTMLURL repoDetail |} in
          let filename := Join outputDir (repoName +:+ ".json") in
          err ← writeJSON os filename (DataRepository repoData);
          match err with
          | Some err => print (ErrorWritingJSON err) ;; mret processedCount
          | None =>
            print (Saved (len commitInfos) filename) ;;
            mret (processedCount + 1)
          end
        end
      end
    end.

Fixpoint runCrawl_loop (fuel : nat) (os : OS) (client : Client)
    (owner : string) (n : Z) (i : Z) (repos : list Repository)
    (processedCount : Z) : M Z :=
  match repos with
  | [] => mret processedCount
  | repo :: repos' =>
    processedCount ← runCrawl_body fuel os client owner n i repo processedCount;
    runCrawl_loop fuel os client owner n (i + 1) repos' processedCount
  end.

Definition timestampFile : string := Join outputDir "timestamp.json".

Definition runCrawl (fuel : nat) (os : OS) (client : Client)
    (owner : string) (limit : Z) : M unit :=
  if bool_decide (GITHUB_TOKEN os = "") then
    halt (Fatal "GITHUB_TOKEN environment variable is required")
  else
    print (FetchingRepositories owner) ;;
    match MkdirAll os outputDir with
    | Some err => halt (Fatal ("Failed to create output directory: " +:+ err))
    | None =>
      match listPublicRepos fuel client owner limit with
      | None => halt OutOfFuel
      | Some (Err err) => halt (Fatal ("Failed to list repositories: " +:+ err))
      | Some (Ok repos) =>
        print (FoundRepositories (len repos)) ;;
        processedCount ← runCrawl_loop fuel os client owner (len repos) 0 repos 0;
        let crawlTime := Now os in
        err ← writeJSON os timestampFile (DataTimestamp {| LastCrawled := crawlTime |});
        match err with
        | Some err => print (WarnTimestamp err)
        | None => print (RecordedTimestamp crawlTime)
        end ;;
        print (CrawlComplete processedCount)
      end
    end.

(** ** The per-repository state machine of the orchestrator

    The terminal state one repository reaches, read off the calls the loop
    body makes for it; the body is shown below to act as this state says. *)
Inductive Outcome :=
| Skipped
| FailedDetails (err : error)
| FailedCompare (err : error)
| FailedWrite (err : error) (created : bool)
| Persisted (d : RepositoryData)
| Halted (h : Halt).

Definition snapshotFile (repo : Repository) : string :=
  Join outputDir (GetName repo +:+ ".json").

Definition outcome (fuel : nat) (os : OS) (client : Client) (owner : string)
    (repo : Repository) : Outcome :=
  let repoName := GetName repo in
  match checkLatestRelease client owner repoName with
  | (false, _) => Skipped
  | (true, releaseData) =>
    match Get client owner repoName with
    | Err err => FailedDetails err
    | Ok repoDetail =>
      match compareAllCommits fuel client owner repoName
              (GetTagName releaseData) (GetDefaultBranch repoDetail) with
      | None => Halted OutOfFuel
      | Some (Err err) => FailedCompare err
      | Some (Ok commits) =>
        match commitInfos_loop commits [] with
        | None => Halted Panic
        | Some commitInfos =>
          let d := {| Owner := owner;
                      Name := repoName;
                      DefaultBranch := GetDefaultBranch repoDetail;
                      LatestReleaseTag := GetTagName releaseData;
                      LatestReleaseTime := GetPublishedAt releaseData;
                      UnreleasedCommits := reverse commitInfos;
                      RepositoryURL := GetHTMLURL repoDetail |} in
          match Create os (snapshotFile repo) with
          | Some err => FailedWrite err false
          | None =>
            match Encode os (snapshotFile repo) (DataRepository d) with
            | Some err => FailedWrite err true
            | None => Persisted d
            end
          end
        end
      end
    end
  end.

(** What a terminal state does to the files, to the count of processed
    repositories, and what is printed on the way to it. *)
Definition file_effect (o : Outcome) (filename : string)
    (fs : gmap string File) : gmap string File :=
  match o with
  | Persisted d => <[filename := Encoded (DataRepository d)]> fs
  | FailedWrite _ true => <[filename := Truncated]> fs
  | _ => fs
  end.

Definition counted (o : Outcome) : Z :=
  match o with Persisted _ => 1 | _ => 0 end.

Definition halts (o : Outcome) : Prop :=
  match o with Halted _ => True | _ => False end.

Definition body_events (fuel : nat) (os : OS) (client : Client)
    (owner : string) (n i : Z) (repo : Repository) : list Event :=
  let repoName := GetName repo in
  let releaseData := (checkLatestRelease client owner repoName).2 in
  let latest :=
    LatestRelease (GetTagName releaseData) (GetPublishedAt releaseData) in
  Processing (i + 1) n repoName ::
  match outcome fuel os client owner repo with
  | Skipped => [Skipping repoName]
  | FailedDetails err => [ErrorRepoDetails err]
  | FailedCompare err => [latest; ErrorComparing err]
  | FailedWrite err _ => [latest; ErrorWritingJSON err]
  | Persisted d => [latest; Saved (len (UnreleasedCommits d)) (snapshotFile repo)]
  | Halted _ => [latest]
  end.

Definition failed (o : Outcome) : Prop :=
  match o with
  | FailedDetails _ | FailedCompare _ | FailedWrite _ _ => True
  | _ => False
  end.

Definition is_skipped (o : Outcome) : bool :=
  match o with Skipped => true | _ => false end.

Definition is_persisted (o : Outcome) : bool :=
  match o with Persisted _ => true | _ => false end.

(** The run of the loop body that a terminal state stands for. *)
Definition run_outcome (o : Outcome) (filename : string) (evs : list Event)
    (processedCount : Z) (st : State) : Run Z :=
  let st' := {| files := file_effect o filename (files st);
                output := output st ++ evs |} in
  match o with
  | Halted h => Stop h st'
  | _ => Done (processedCount + counted o) st'
  end.

(** The same for the whole loop over [repos]. *)
Fixpoint loop_files (fuel : nat) (os : OS) (client : Client) (owner : string)
    (repos : list Repository) (fs : gmap string File) : gmap string File :=
  match repos with
  | [] => fs
  | repo :: repos' =>
    loop_files fuel os client owner repos'
      (file_effect (outcome fuel os client owner repo) (snapshotFile repo) fs)
  end.

Fixpoint loop_events (fuel : nat) (os : OS) (client : Client) (owner : string)
    (n i : Z) (repos : list Repository) : list Event :=
  match repos with
  | [] => []
  | repo :: repos' =>
    body_events fuel os client owner n i repo
    ++ loop_events fuel os client owner n (i + 1) repos'
  end.

Definition loop_count (fuel : nat) (os : OS) (client : Client)
    (owner : string) (repos : list Repository) : Z :=
  foldr (λ repo k, counted (outcome fuel os client owner repo) + k) 0 repos.

(** The write of the crawl timestamp after the loop: the files it leaves
    and the line it prints. *)
Definition timestamp_files (os : OS) (fs : gmap string File)
    : gmap string File :=
  match Create os timestampFile with
  | Some _ => fs
  | None =>
    match Encode os timestampFile (DataTimestamp {| LastCrawled := Now os |}) with
    | Some _ => <[timestampFile := Truncated]> fs
    | None =>
      <[timestampFile := Encoded (DataTimestamp {| LastCrawled := Now os |})]> fs
    end
  end.

Definition timestamp_event (os : OS) : Event :=
  match Create os timestampFile with
  | Some err => WarnTimestamp err
  | None =>
    match Encode os timestampFile (DataTimestamp {| LastCrawled := Now os |}) with
    | Some err => WarnTimestamp err
    | None => RecordedTimestamp (Now os)
    end
  end.

(** What the output tells the user. *)
Definition is_Skipping (e : Event) : bool :=
  match e with Skipping _ => true | _ => false end.

Definition is_Saved (e : Event) : bool :=
  match e with Saved _ _ => true | _ => false end.

Definition is_failure (e : Event) : bool :=
  match e with
  | ErrorRepoDetails _ | ErrorComparing _ | ErrorWritingJSON _ => true
  | _ => false
  end.

Definition skipped_count (out : list Event) : nat :=
  length (filter (λ e, is_Skipping e = true) out).

Definition saved_count (out : list Event) : nat :=
  length (filter (λ e, is_Saved e = true) out).

(** The summary: the last line printed. *)
Definition summary (st : State) : option Event := last (output st).

(** ** Author resolution as the specification words it

    First match wins: (a) the platform-linked author's login if present and
    non-empty; (b) the raw commit metadata's author display name if present
    and non-empty; (c) the literal "unknown". *)
Definition platform_login (c : RepositoryCommit) : option string :=
  github.Author c ≫= Login.

Definition metadata_name (c : RepositoryCommit) : option string :=
  (Commit_ c ≫= CommitAuthor_) ≫= AuthorName.

Definition present_nonempty (o : option string) : option string :=
  match o with
  | Some s => if bool_decide (s = "") then None else Some s
  | None => None
  end.

Definition resolved_author (c : RepositoryCommit) : string :=
  match present_nonempty (platform_login c) with
  | Some login => login
  | None =>
    match present_nonempty (metadata_name c) with
    | Some name => name
    | None => "unknown"
    end
  end.

(** The authored timestamp the record of a commit carries. *)
Definition authored (c : RepositoryCommit) : Time :=
  GetDate (Commit_ c ≫= CommitAuthor_).

(** ** Sample commits *)

Definition commit_by (sha : string) (login name : option string) (t : Time)
    : RepositoryCommit :=
  {| github.SHA := Some sha;
     github.Author := (λ l, {| Login := Some l |}) <$> login;
     Commit_ := Some {| CommitAuthor_ := Some {| AuthorName := name; Date := Some t |};
                        github.Message := Some "message" |};
     CommitHTMLURL := Some ("https://example.org/" +:+ sha) |}.

Definition alice_commit : RepositoryCommit :=
  commit_by "a1" (Some "alice") (Some "Alice Smith") 1000.
Definition bob_commit : RepositoryCommit :=
  commit_by "b2" None (Some "Bob") 2000.
Definition anonymous_commit : RepositoryCommit :=
  commit_by "c3" None None 3000.

(** A commit with a platform-linked author and no embedded metadata. *)
Definition bare_commit : RepositoryCommit :=
  {| github.SHA := Some "d4";
     github.Author := Some {| Login := Some "carol" |};
     Commit_ := None;
     CommitHTMLURL := None |}.

(** A commit whose embedded metadata has no author object. *)
Definition unauthored_commit : RepositoryCommit :=
  {| github.SHA := Some "e5";
     github.Author := Some {| Login := Some "dave" |};
     Commit_ := Some {| CommitAuthor_ := None; github.Message := Some "message" |};
     CommitHTMLURL := None |}.

(** ** A sample organization

    Three repositories: "alpha" has release v1 and three unreleased commits,
    the release lookup of "beta" fails, "gamma" has release v1 and no
    unreleased commit. *)
Definition sample_repos : list Repository :=
  (λ name, {| github.Name := Some name; github.DefaultBranch := Some "main";
              HTMLURL := Some ("https://example.org/" +:+ name) |})
  <$> ["alpha"; "beta"; "gamma"].

Definition sample_client : Client :=
  {| ListByOrg := λ _ opt,
       Ok (page_of (PerPage (ListOptions_ opt)) sample_repos
             (Page (ListOptions_ opt)));
     GetLatestRelease := λ _ repo,
       if bool_decide (repo = "beta") then (None, Some "500 Server Error")
       else (Some {| TagName := Some "v1"; PublishedAt := Some 500 |}, None);
     Get := λ _ repo,
       Ok {| github.Name := Some repo; github.DefaultBranch := Some "main";
             HTMLURL := Some ("https://example.org/" +:+ repo) |};
     CompareCommits := λ _ repo _ _ opt,
       let commits :=
         if bool_decide (repo = "alpha")
         then [alice_commit; bob_commit; anonymous_commit] else [] in
       Ok ({| Commits := (page_of (PerPage opt) commits (Page opt)).1 |},
           (page_of (PerPage opt) commits (Page opt)).2) |}.

Definition sample_os : OS :=
  {| GITHUB_TOKEN := "token";
     MkdirAll := λ _, None;
     Create := λ _, None;
     Encode := λ _ _, None;
     Now := 9000 |}.

Definition initial : State := {| files := ∅; output := [] |}.

Definition alpha : Repository :=
  {| github.Name := Some "alpha"; github.DefaultBranch := Some "main";
     HTMLURL := Some "https://example.org/alpha" |}.

(** ** A faulty organization

    "alpha" is fine; the detail lookup of "beta" fails; the comparison of
    "gamma" fails; the file of "delta" cannot be created; neither can the
    timestamp file. *)
Definition faulty_repos : list Repository :=
  (λ name, {| github.Name := Some name; github.DefaultBranch := Some "main";
              HTMLURL := None |})
  <$> ["alpha"; "beta"; "gamma"; "delta"].

Definition faulty_client : Client :=
  {| ListByOrg := λ _ opt,
       Ok (page_of (PerPage (ListOptions_ opt)) faulty_repos
             (Page (ListOptions_ opt)));
     GetLatestRelease := λ _ _,
       (Some {| TagName := Some "v1"; PublishedAt := Some 500 |}, None);
     Get := λ _ repo,
       if bool_decide (repo = "beta") then Err "502 Bad Gateway"
       else Ok {| github.Name := Some repo; github.DefaultBranch := Some "main";
                  HTMLURL := None |};
     CompareCommits := λ _ repo _ _ opt,
       if bool_decide (repo = "gamma") then Err "404 Not Found"
       else
         let commits :=
           if bool_decide (repo = "alpha")
           then [alice_commit; bob_commit; anonymous_commit] else [] in
         Ok ({| Commits := (page_of (PerPage opt) commits (Page opt)).1 |},
             (page_of (PerPage opt) commits (Page opt)).2) |}.

Definition faulty_os : OS :=
  {| GITHUB_TOKEN := "token";
     MkdirAll := λ _, None;
     Create := λ filename,
       if bool_decide (filename = "data/delta.json")
          || bool_decide (filename = "data/timestamp.json")
       then Some "permission denied" else None;
     Encode := λ _ _, None;
     Now := 9000 |}.

(** The summary would report the count of skipped repositories if that
    count could be read off it. *)
Definition summary_reports_skips : Prop :=
  ∃ f : option Event → nat,
    ∀ fuel os client owner limit st',
      runCrawl fuel os client owner limit initial = Done () st' →
      f (summary st') = skipped_count (output st').

(** ** Remotes that misbehave

    [endless] answers every request with a full page (of one item when no
    size is asked for) and a next page.
    [failing_at j err] serves what [simulated] serves, except that the
    comparison request for page [j] fails. *)
Definition endless : Client :=
  {| ListByOrg := λ _ opt,
       Ok (repo_named <$> seq 0 (Nat.max 1 (PerPage (ListOptions_ opt))),
           {| NextPage := S (Page (ListOptions_ opt)) |});
     GetLatestRelease := λ _ _, (None, Some "404 Not Found");
     Get := λ _ _, Err "404 Not Found";
     CompareCommits := λ _ _ _ _ opt,
       Ok ({| Commits := commit_numbered <$> seq 0 (Nat.max 1 (PerPage opt)) |},
           {| NextPage := S (Page opt) |}) |}.

Definition failing_at (j : nat) (err : error) (commits : list RepositoryCommit)
    : Client :=
  {| ListByOrg := ListByOrg (simulated [] commits);
     GetLatestRelease := GetLatestRelease (simulated [] commits);
     Get := Get (simulated [] commits);
     CompareCommits := λ owner repo base head opt,
       if bool_decide (Page opt = j) then Err err
       else CompareCommits (simulated [] commits) owner repo base head opt |}.

(** ** Reading a run *)

(** The state a run ends in, however it ends. *)
Definition final {A} (r : Run A) : State :=
  match r with Done _ st | Stop _ st => st end.

Definition failure_count (out : list Event) : nat :=
  length (filter (λ e, is_failure e = true) out).

(** The lines that report what became of a repository: saved, skipped or
    one of the three error lines. *)
Definition is_report (e : Event) : bool :=
  is_Saved e || is_Skipping e || is_failure e.

Definition reports (out : list Event) : list Event :=
  filter (λ e, is_report e = true) out.

(** The "[i/n] Processing name..." lines of an output, in order. *)
Definition processing_lines (out : list Event) : list (Z * Z * string) :=
  omap (λ e, match e with
             | Processing i n repoName => Some (i, n, repoName)
             | _ => None
             end) out.

(** An organization whose second repository has a commit without embedded
    metadata. *)
Definition panicking_repos : list Repository :=
  (λ name, {| github.Name := Some name; github.DefaultBranch := Some "main";
              HTMLURL := None |})
  <$> ["alpha"; "broken"; "gamma"].

Definition panicking_client : Client :=
  {| ListByOrg := λ _ opt,
       Ok (page_of (PerPage (ListOptions_ opt)) panicking_repos
             (Page (ListOptions_ opt)));
     GetLatestRelease := GetLatestRelease faulty_client;
     Get := Get sample_client;
     CompareCommits := λ _ repo _ _ opt,
       let commits :=
         if bool_decide (repo = "broken") then [alice_commit; bare_commit]
         else [bob_commit] in
       Ok ({| Commits := (page_of (PerPage opt) commits (Page opt)).1 |},
           (page_of (PerPage opt) commits (Page opt)).2) |}.

(** What a terminal state leaves in the file of its repository, if it
    writes it, and the last such write to a path in a run of the loop. *)
Definition written (o : Outcome) : option File :=
  match o with
  | Persisted d => Some (Encoded (DataRepository d))
  | FailedWrite _ true => Some Truncated
  | _ => None
  end.

Fixpoint last_write (fuel : nat) (os : OS) (client : Client) (owner : string)
    (repos : list Repository) (f : string) : option File :=
  match repos with
  | [] => None
  | repo :: repos' =>
    match last_write fuel os client owner repos' f with
    | Some file => Some file
    | None =>
      if bool_decide (snapshotFile repo = f)
      then written (outcome fuel os client owner repo)
      else None
    end
  end.

(** ** An organization with a repository named "timestamp"

    Both repositories have a release; "timestamp" has one unreleased
    commit.  [full_disk_os] is a disk that fills up after the Snapshots are
    written: os.Create succeeds, the encoding of the crawl timestamp
    fails. *)
Definition timestamp_repo : Repository :=
  {| github.Name := Some "timestamp"; github.DefaultBranch := Some "main";
     HTMLURL := None |}.

Definition colliding_repos : list Repository := [alpha; timestamp_repo].

Definition colliding_client : Client :=
  {| ListByOrg := λ _ opt,
       Ok (page_of (PerPage (ListOptions_ opt)) colliding_repos
             (Page (ListOptions_ opt)));
     GetLatestRelease := λ _ _,
       (Some {| TagName := Some "v1"; PublishedAt := Some 500 |}, None);
     Get := λ _ repo,
       Ok {| github.Name := Some repo; github.DefaultBranch := Some "main";
             HTMLURL := None |};
     CompareCommits := λ _ repo _ _ opt,
       let commits :=
         if bool_decide (repo = "timestamp") then [alice_commit] else [] in
       Ok ({| Commits := (page_of (PerPage opt) commits (Page opt)).1 |},
           (page_of (PerPage opt) commits (Page opt)).2) |}.

Definition full_disk_os : OS :=
  {| GITHUB_TOKEN := "token";
     MkdirAll := λ _, None;
     Create := λ _, None;
     Encode := λ _ data,
       match data with
       | DataTimestamp _ => Some "no space left on device"
       | DataRepository _ => None
       end;
     Now := 9000 |}.

(** ** The generate half: what runGenerate reads and decides

    The rendering itself (html/template, the embedded style sheet) is
    outside the model: the three page generators are calls whose outcome is
    given, and each call is recorded with its arguments. *)

Definition chars (s : string) : list Ascii.ascii := String.list_ascii_of_string s.

(** filepath.Base on a slash-separated path. *)
Fixpoint drop_slashes (l : list Ascii.ascii) : list Ascii.ascii :=
  match l with
  | c :: l' => if bool_decide (c = "/"%char) then drop_slashes l' else l
  | [] => []
  end.

Fixpoint until_slash (l : list Ascii.ascii) : list Ascii.ascii :=
  match l with
  | c :: l' => if bool_decide (c = "/"%char) then [] else c :: until_slash l'
  | [] => []
  end.

Definition Base (path : string) : string :=
  if bool_decide (path = "") then "."
  else
    let element := reverse (until_slash (drop_slashes (reverse (chars path)))) in
    if bool_decide (element = []) then "/"
    else String.string_of_list_ascii element.

(** filepath.Glob(filepath.Join(dataDir, "*.json")): the entries of the
    data directory whose name ends in ".json", sorted by name.  The files of
    the model are plain files; a path below a sub-directory of the data
    directory is not an entry of it. *)
Definition is_json_entry (dir path : string) : bool :=
  bool_decide (chars (dir +:+ "/") `prefix_of` chars path)
  && negb (bool_decide ("/"%char ∈ drop (length (chars (dir +:+ "/"))) (chars path)))
  && bool_decide (chars ".json" `suffix_of`
                    drop (length (chars (dir +:+ "/"))) (chars path)).

Definition Glob_json (fs : gmap string File) (dir : string) : list string :=
  merge_sort (≤)%string
    (filter (λ path, is_json_entry dir path = true) (elements (dom fs))).

(** Errors of reading. *)
Definition ErrNotExist : error := "no such file or directory".
Definition IsNotExist (err : error) : bool := bool_decide (err = ErrNotExist).

(** What the generator is given besides the data files: [ReadError] makes
    os.ReadFile fail on an existing file, [Format] is
    t.UTC().Format("January 2, 2006 15:04 UTC"), the last three fields are
    the errors of the page generators. *)
Record Templates :=
  { ReadError : string → option error;
    Format : Time → string;
    generateIndexPage : string → list RepositoryData → string → option error;
    generateRepoPage : string → RepositoryData → string → option error;
    generateCSS : string → option error }.

Definition ReadFile (tpl : Templates) (fs : gmap string File) (filename : string)
    : result File :=
  match fs !! filename with
  | None => Err ErrNotExist
  | Some file =>
    match ReadError tpl filename with
    | Some err => Err err
    | None => Ok file
    end
  end.

(** json.Unmarshal into each of the two records.  The file of the other
    record is a JSON object without any of the wanted keys: it decodes to
    the zero value.  A truncated file is not JSON. *)
Definition zeroRepositoryData : RepositoryData :=
  {| Owner := ""; Name := ""; DefaultBranch := ""; LatestReleaseTag := "";
     LatestReleaseTime := zeroTime; UnreleasedCommits := [];
     RepositoryURL := "" |}.

Definition UnmarshalRepositoryData (file : File) : result RepositoryData :=
  match file with
  | Encoded (DataRepository d) => Ok d
  | Encoded (DataTimestamp _) => Ok zeroRepositoryData
  | Truncated => Err "unexpected end of JSON input"
  end.

Definition UnmarshalTimestampData (file : File) : result TimestampData :=
  match file with
  | Encoded (DataTimestamp t) => Ok t
  | Encoded (DataRepository _) => Ok {| LastCrawled := zeroTime |}
  | Truncated => Err "unexpected end of JSON input"
  end.

Definition loadLastCrawlTimestamp (tpl : Templates) (fs : gmap string File)
    (filename : string) : result Time :=
  match ReadFile tpl fs filename with
  | Err err => Err err
  | Ok data =>
    match UnmarshalTimestampData data with
    | Err err => Err err
    | Ok ts => Ok (LastCrawled ts)
    end
  end.

Definition IsZero (t : Time) : bool := bool_decide (t = zeroTime).

Definition formatTimestampForFooter (tpl : Templates) (t : Time) : string :=
  if IsZero t then "" else Format tpl t.

(** The lines runGenerate prints and the calls it makes to the page
    generators. *)
Inductive GenEvent :=
| Generating
| WarnLoadTimestamp (err : error)
| ErrorReading (file : string) (err : error)
| ErrorParsing (file : string) (err : error)
| IndexPage (outputDir : string) (repos : list RepositoryData) (lastUpdated : string)
| RepoPage (outputDir : string) (repo : RepositoryData) (lastUpdated : string)
| ErrorGeneratingPage (name : string) (err : error)
| CSS (outputDir : string)
| Generated (outputDir : string).

Inductive GenExit :=
| GenDone
| GenFatal (msg : string).

(** [for _, file := range files] of runGenerate. *)
Fixpoint runGenerate_load (tpl : Templates) (fs : gmap string File)
    (files : list string) (allRepos : list RepositoryData)
    (events : list GenEvent) : list RepositoryData * list GenEvent :=
  match files with
  | [] => (allRepos, events)
  | file :: files' =>
    if bool_decide (Base file = "timestamp.json")
    then runGenerate_load tpl fs files' allRepos events
    else
      match ReadFile tpl fs file with
      | Err err =>
        runGenerate_load tpl fs files' allRepos (events ++ [ErrorReading file err])
      | Ok data =>
        match UnmarshalRepositoryData data with
        | Err err =>
          runGenerate_load tpl fs files' allRepos
            (events ++ [ErrorParsing file err])
        | Ok repo => runGenerate_load tpl fs files' (allRepos ++ [repo]) events
        end
      end
  end.

(** [for _, repo := range allRepos] of runGenerate. *)
Fixpoint runGenerate_pages (tpl : Templates) (outputDir lastUpdated : string)
    (allRepos : list RepositoryData) : list GenEvent :=
  match allRepos with
  | [] => []
  | repo :: allRepos' =>
    RepoPage outputDir repo lastUpdated ::
    match generateRepoPage tpl outputDir repo lastUpdated with
    | Some err => [ErrorGeneratingPage (Name repo) err]
    | None => []
    end
    ++ runGenerate_pages tpl outputDir lastUpdated allRepos'
  end.

(** sort.Slice(allRepos, by Name).  sort.Slice is not stable; the model
    sorts with a merge sort, and what is proved of it (sorted, a permutation)
    holds of any sort. *)
Definition by_name (a b : RepositoryData) : Prop := (Name a ≤ Name b)%string.

#[global] Instance by_name_dec : RelDecision by_name.
Proof. intros a b. unfold by_name. apply _. Defined.

#[global] Instance by_name_total : Total by_name.
Proof. intros a b. unfold by_name. apply total, _. Qed.

#[global] Instance by_name_trans : Transitive by_name.
Proof. intros a b c. unfold by_name. apply transitivity. Qed.

Definition runGenerate (os : OS) (tpl : Templates) (fs : gmap string File)
    : GenExit * list GenEvent :=
  let dataDir := "data" in
  let outputDir := "output" in
  match MkdirAll os outputDir with
  | Some err =>
    (GenFatal ("Failed to create output directory: " +:+ err), [Generating])
  | None =>
    let files := Glob_json fs dataDir in
    let timestampPath := Join dataDir "timestamp.json" in
    let '(lastUpdated, warning) :=
      match loadLastCrawlTimestamp tpl fs timestampPath with
      | Err err =>
        ("", if negb (IsNotExist err) then [WarnLoadTimestamp err] else [])
      | Ok ts => (formatTimestampForFooter tpl ts, [])
      end in
    let '(allRepos, events) :=
      runGenerate_load tpl fs files [] ([Generating] ++ warning) in
    if bool_decide (len allRepos = 0) then
      (GenFatal "No repository JSON files found in data directory. Run with -crawl first.",
       events)
    else
      let allRepos := merge_sort by_name allRepos in
      let events := events ++ [IndexPage outputDir allRepos lastUpdated] in
      match generateIndexPage tpl outputDir allRepos lastUpdated with
      | Some err =>
        (GenFatal ("Failed to generate index page: " +:+ err), events)
      | None =>
        let events :=
          events ++ runGenerate_pages tpl outputDir lastUpdated allRepos
                 ++ [CSS outputDir] in
        match generateCSS tpl outputDir with
        | Some err => (GenFatal ("Failed to generate CSS: " +:+ err), events)
        | None => (GenDone, events ++ [Generated outputDir])
        end
      end
  end.

(** What one pass of the loading loop adds for one file, and the
    repositories whose pages a run requests. *)
Definition load_one (tpl : Templates) (fs : gmap string File) (file : string)
    : option RepositoryData :=
  if bool_decide (Base file = "timestamp.json") then None
  else
    match ReadFile tpl fs file with
    | Err _ => None
    | Ok data =>
      match UnmarshalRepositoryData data with
      | Err _ => None
      | Ok repo => Some repo
      end
    end.

Definition repo_pages (events : list GenEvent) : list RepositoryData :=
  omap (λ e, match e with RepoPage _ repo _ => Some repo | _ => None end) events.

Definition index_pages (events : list GenEvent)
    : list (list RepositoryData * string) :=
  omap (λ e, match e with
             | IndexPage _ repos lastUpdated => Some (repos, lastUpdated)
             | _ => None
             end) events.

(** The calls of the three page generators, in the order they are made. *)
Definition is_call (e : GenEvent) : bool :=
  match e with IndexPage _ _ _ | RepoPage _ _ _ | CSS _ => true | _ => false end.

Definition calls (events : list GenEvent) : list GenEvent :=
  filter (λ e, is_call e = true) events.

(** The repositories a run loads, and the footer text it passes on. *)
Definition loaded (tpl : Templates) (fs : gmap string File)
    : list RepositoryData :=
  omap (load_one tpl fs) (Glob_json fs "data").

Definition footer (tpl : Templates) (fs : gmap string File) : string :=
  match loadLastCrawlTimestamp tpl fs (Join "data" "timestamp.json") with
  | Err _ => ""
  | Ok ts => formatTimestampForFooter tpl ts
  end.

(** The "Error reading" and "Error parsing" lines of a run, and the line
    one pass of the loading loop prints for one file. *)
Definition is_load_error (e : GenEvent) : bool :=
  match e with ErrorReading _ _ | ErrorParsing _ _ => true | _ => false end.

Definition load_errors (events : list GenEvent) : list GenEvent :=
  filter (λ e, is_load_error e = true) events.

Definition load_error (tpl : Templates) (fs : gmap string File) (file : string)
    : option GenEvent :=
  if bool_decide (Base file = "timestamp.json") then None
  else
    match ReadFile tpl fs file with
    | Err err => Some (ErrorReading file err)
    | Ok data =>
      match UnmarshalRepositoryData data with
      | Err err => Some (ErrorParsing file err)
      | Ok _ => None
      end
    end.

(** A name without a path separator, as the names of repositories are. *)
Definition no_slash (name : string) : Prop := "/"%char ∉ chars name.

(** Templates that always render. *)
Definition plain_templates : Templates :=
  {| ReadError := λ _, None;
     Format := λ t, "at " +:+ pretty t;
     generateIndexPage := λ _ _ _, None;
     generateRepoPage := λ _ _ _, None;
     generateCSS := λ _, None |}.

(** ** The index page: the figures generateIndexPage hands to its template

    The loop over the repositories and the struct built after it.  The
    counters are Go ints; the sums are sums of slice lengths and stay far
    below 2^63.  Two parts are outside the model: the conversion of a
    duration to whole days, int(d.Hours() / 24), which goes through
    float64 and is given by [Clock], and the colours of the cells, computed
    in float64 from the figures modelled here.  [DaysBetween t u] is
    int(t.Sub(u).Hours() / 24) and [DaysSince u] is
    int(time.Since(u).Hours() / 24); time.Since reads the clock at every
    call, and the model takes the readings of one page as one instant. *)
Record Clock :=
  { DaysBetween : Time → Time → Z;
    DaysSince : Time → Z }.

Module index.

Record SummaryData :=
  { Name : string;
    CommitCount : Z;
    DaysBehind : Z;
    DaysSinceRelease : Z;
    LatestRelease : string;
    URL : string;
    RepositoryURL : string;
    DefaultBranch : string }.

(** The variables of the loop. *)
Record Vars :=
  { summaries : list SummaryData;
    totalCommits : Z;
    reposWithCommits : Z;
    minCommits : Z;
    maxCommits : Z;
    minDaysBehind : Z;
    maxDaysBehind : Z;
    minDaysSinceRelease : Z;
    maxDaysSinceRelease : Z }.

(** The struct passed to the template. *)
Record PageData :=
  { Owner : string;
    TotalRepos : Z;
    TotalCommits : Z;
    ReposWithCommits : Z;
    Repos : list SummaryData;
    MinCommits : Z;
    MaxCommits : Z;
    MinDaysBehind : Z;
    MaxDaysBehind : Z;
    MinDaysSinceRelease : Z;
    MaxDaysSinceRelease : Z;
    LastUpdated : string }.

End index.

Definition commitCount (repo : RepositoryData) : Z :=
  len (UnreleasedCommits repo).

Definition daysBehind (clock : Clock) (repo : RepositoryData) : Z :=
  if bool_decide (commitCount repo > 0)
     && bool_decide (len (UnreleasedCommits repo) > 0)
     && negb (IsZero (LatestReleaseTime repo))
  then
    match UnreleasedCommits repo with
    | latest :: _ =>
      DaysBetween clock (Timestamp latest) (LatestReleaseTime repo)
    | [] => 0
    end
  else 0.

Definition daysSinceRelease (clock : Clock) (repo : RepositoryData) : Z :=
  if negb (IsZero (LatestReleaseTime repo))
  then DaysSince clock (LatestReleaseTime repo)
  else 0.

(** [if min == -1 || v < min { min = v }] and [if v > max { max = v }]. *)
Definition min_update (min v : Z) : Z :=
  if bool_decide (min = -1) || bool_decide (v < min) then v else min.

Definition max_update (max v : Z) : Z :=
  if bool_decide (v > max) then v else max.

(** [if min == -1 { min = 0 }] after the loop. *)
Definition min_default (min : Z) : Z :=
  if bool_decide (min = -1) then 0 else min.

Definition summaryData (clock : Clock) (repo : RepositoryData)
    : index.SummaryData :=
  {| index.Name := Name repo;
     index.CommitCount := commitCount repo;
     index.DaysBehind := daysBehind clock repo;
     index.DaysSinceRelease := daysSinceRelease clock repo;
     index.LatestRelease := LatestReleaseTag repo;
     index.URL := Name repo +:+ ".html";
     index.RepositoryURL := RepositoryURL repo;
     index.DefaultBranch := DefaultBranch repo |}.

Definition generateIndexPage_init : index.Vars :=
  {| index.summaries := [];
     index.totalCommits := 0;
     index.reposWithCommits := 0;
     index.minCommits := -1;
     index.maxCommits := 0;
     index.minDaysBehind := -1;
     index.maxDaysBehind := 0;
     index.minDaysSinceRelease := -1;
     index.maxDaysSinceRelease := 0 |}.

(** One pass of [for _, repo := range repos]. *)
Definition generateIndexPage_body (clock : Clock) (vars : index.Vars)
    (repo : RepositoryData) : index.Vars :=
  {| index.summaries := index.summaries vars ++ [summaryData clock repo];
     index.totalCommits := index.totalCommits vars + commitCount repo;
     index.reposWithCommits :=
       if bool_decide (commitCount repo > 0)
       then index.reposWithCommits vars + 1
       else index.reposWithCommits vars;
     index.minCommits := min_update (index.minCommits vars) (commitCount repo);
     index.maxCommits := max_update (index.maxCommits vars) (commitCount repo);
     index.minDaysBehind :=
       min_update (index.minDaysBehind vars) (daysBehind clock repo);
     index.maxDaysBehind :=
       max_update (index.maxDaysBehind vars) (daysBehind clock repo);
     index.minDaysSinceRelease :=
       min_update (index.minDaysSinceRelease vars) (daysSinceRelease clock repo);
     index.maxDaysSinceRelease :=
       max_update (index.maxDaysSinceRelease vars) (daysSinceRelease clock repo) |}.

Definition generateIndexPage_loop (clock : Clock) (repos : list RepositoryData)
    : index.Vars :=
  foldl (generateIndexPage_body clock) generateIndexPage_init repos.

Definition generateIndexPage_data (clock : Clock) (repos : list RepositoryData)
    (lastUpdated : string) : index.PageData :=
  let vars := generateIndexPage_loop clock repos in
  {| index.Owner := match repos with repo :: _ => Owner repo | [] => "" end;
     index.TotalRepos := len repos;
     index.TotalCommits := index.totalCommits vars;
     index.ReposWithCommits := index.reposWithCommits vars;
     index.Repos := index.summaries vars;
     index.MinCommits := min_default (index.minCommits vars);
     index.MaxCommits := index.maxCommits vars;
     index.MinDaysBehind := min_default (index.minDaysBehind vars);
     index.MaxDaysBehind := index.maxDaysBehind vars;
     index.MinDaysSinceRelease := min_default (index.minDaysSinceRelease vars);
     index.MaxDaysSinceRelease := index.maxDaysSinceRelease vars;
     index.LastUpdated := lastUpdated |}.

(** The sum of a column. *)
Definition total (values : list Z) : Z := foldr Z.add 0 values.

(** Sample data for the index page.  [whole_days] is a sample clock, with
    times in seconds and the clock reading 9000000: the number of whole
    days by exact division, which is what Go computes for two instants
    less than the largest Duration (about 292 years) apart; beyond that
    t.Sub(u) saturates and the two differ. *)

Definition whole_days : Clock :=
  {| DaysBetween := λ t u, (t - u) `quot` 86400;
     DaysSince := λ u, (9000000 - u) `quot` 86400 |}.

Definition snapshot_of (name : string) (release : Time) (commits : list Time)
    : RepositoryData :=
  {| Owner := "org"; Name := name; DefaultBranch := "main";
     LatestReleaseTag := "v1"; LatestReleaseTime := release;
     UnreleasedCommits :=
       (λ t, {| SHA := "sha"; Author := "alice"; Message := "change";
                Timestamp := t; URL := "" |}) <$> commits;
     RepositoryURL := "" |}.

(** ** Pagination: the loops against the simulated source *)

Section Pagination.
Context (client : Client) (owner : string).

Lemma page_of_fst {A} (P : nat) (items : list A) (p : nat) :
  (1 ≤ p)%nat →
  (page_of P items p).1 = take P (drop ((p - 1) * P) items).
Proof. intros Hp. unfold page_of. by rewrite Nat.max_r. Qed.

Lemma page_of_last {A} (P : nat) (items : list A) (p : nat) :
  (1 ≤ p)%nat → (length (drop ((p - 1) * P) items) ≤ P)%nat →
  page_of P items p = (drop ((p - 1) * P) items, {| NextPage := 0 |}).
Proof.
  intros Hp Hlen. unfold page_of. rewrite Nat.max_r by done.
  rewrite length_drop in Hlen.
  rewrite bool_decide_eq_false_2 by nia.
  rewrite take_ge; [done | rewrite length_drop; lia].
Qed.

Lemma page_of_more {A} (P : nat) (items : list A) (p : nat) :
  (1 ≤ p)%nat → (P < length (drop ((p - 1) * P) items))%nat →
  page_of P items p =
    (take P (drop ((p - 1) * P) items), {| NextPage := S p |}) ∧
  drop ((S p - 1) * P) items = drop P (drop ((p - 1) * P) items) ∧
  length (take P (drop ((p - 1) * P) items)) = P.
Proof.
  intros Hp Hlen. unfold page_of. rewrite Nat.max_r by done.
  pose proof Hlen as Hlen'. rewrite length_drop in Hlen'.
  rewrite bool_decide_eq_true_2 by nia.
  split; [done | split].
  - rewrite drop_drop. f_equal. nia.
  - rewrite length_take. lia.
Qed.

Lemma listPublicRepos_loop_paged repos limit :
  serves_repos client owner repos → limit ≤ 0 →
  ∀ fuel acc ty p P,
    (1 ≤ p)%nat → (0 < P)%nat →
    (length (drop ((p - 1) * P) repos) < fuel * P)%nat →
    listPublicRepos_loop fuel client owner limit acc
      {| Type_ := ty; ListOptions_ := {| Page := p; PerPage := P |} |}
    = Some (Ok (acc ++ drop ((p - 1) * P) repos)).
Proof.
  intros Hsrc Hlim. induction fuel as [|fuel IH]; intros acc ty p P Hp HP Hfuel.
  { simpl in Hfuel. lia. }
  cbn [listPublicRepos_loop]. rewrite Hsrc. cbn [ListOptions_ Page PerPage Type_].
  rewrite (bool_decide_eq_false_2 (limit > 0)) by lia.
  destruct (decide (length (drop ((p - 1) * P) repos) ≤ P)%nat) as [Hlast|Hmore].
  - rewrite page_of_last by done. simpl. done.
  - destruct (page_of_more P repos p) as (-> & Hdrop & Hlen); [done | lia |].
    cbn [andb NextPage]. rewrite bool_decide_eq_false_2 by done.
    rewrite IH; [| lia | done | rewrite Hdrop, length_drop; simpl in Hfuel; lia].
    by rewrite Hdrop, <- app_assoc, take_drop.
Qed.

Lemma compareAllCommits_loop_paged repo base head commits :
  serves_commits client owner repo base head commits →
  ∀ fuel acc p P,
    (1 ≤ p)%nat → (0 < P)%nat →
    (length (drop ((p - 1) * P) commits) < fuel * P)%nat →
    compareAllCommits_loop fuel client owner repo base head P acc p
    = Some (Ok (acc ++ drop ((p - 1) * P) commits)).
Proof.
  intros Hsrc. induction fuel as [|fuel IH]; intros acc p P Hp HP Hfuel.
  { simpl in Hfuel. lia. }
  cbn [compareAllCommits_loop]. rewrite Hsrc. cbn [Page PerPage].
  destruct (decide (length (drop ((p - 1) * P) commits) ≤ P)%nat) as [Hlast|Hmore].
  - rewrite page_of_last by done. simpl. done.
  - destruct (page_of_more P commits p) as (-> & Hdrop & Hlen); [done | lia |].
    cbn [fst snd Commits NextPage]. rewrite Hlen.
    rewrite (bool_decide_eq_false_2 (S p = 0)%nat) by done.
    rewrite (bool_decide_eq_false_2 (P < P)%nat) by lia. cbn [orb].
    rewrite IH; [| lia | done | rewrite Hdrop, length_drop; simpl in Hfuel; lia].
    by rewrite Hdrop, <- app_assoc, take_drop.
Qed.

(** Fuel: one request more than there are full pages is enough. *)
Lemma pages_fuel (n P fuel : nat) :
  (0 < P)%nat → (n / P < fuel)%nat → (n < fuel * P)%nat.
Proof.
  intros HP Hf.
  pose proof (Nat.mul_succ_div_gt n P ltac:(lia)). nia.
Qed.

(** A request without a page number is served like a request for page 1. *)
Lemma listPublicRepos_loop_first_page repos limit fuel acc ty P :
  serves_repos client owner repos →
  listPublicRepos_loop fuel client owner limit acc
    {| Type_ := ty; ListOptions_ := {| Page := 0; PerPage := P |} |}
  = listPublicRepos_loop fuel client owner limit acc
    {| Type_ := ty; ListOptions_ := {| Page := 1; PerPage := P |} |}.
Proof.
  intros Hsrc. destruct fuel as [|fuel]; [done|].
  cbn [listPublicRepos_loop]. by rewrite !Hsrc.
Qed.

(** *** Any remote: the unlimited run only appends to what it has *)
Lemma listPublicRepos_loop_extends :
  ∀ fuel acc opt all,
    listPublicRepos_loop fuel client owner 0 acc opt = Some (Ok all) →
    acc `prefix_of` all.
Proof.
  induction fuel as [|fuel IH]; intros acc opt all; [done|].
  cbn [listPublicRepos_loop].
  destruct (ListByOrg client owner opt) as [[repos resp]|err]; [|done].
  rewrite (bool_decide_eq_false_2 (0 > 0)) by lia. cbn [andb].
  case_bool_decide.
  - intros [= <-]. by apply prefix_app_r.
  - intros Hrec. apply IH in Hrec.
    etrans; [|exact Hrec]. by apply prefix_app_r.
Qed.

(** *** Any remote: a positive limit cuts the unlimited result *)
Lemma listPublicRepos_loop_limit (k : Z) :
  0 < k →
  ∀ fuel acc opt all,
    len acc < k →
    listPublicRepos_loop fuel client owner 0 acc opt = Some (Ok all) →
    listPublicRepos_loop fuel client owner k acc opt
    = Some (Ok (take (Z.to_nat k) all)).
Proof.
  intros Hk. induction fuel as [|fuel IH]; intros acc opt all Hacc; [done|].
  cbn [listPublicRepos_loop].
  destruct (ListByOrg client owner opt) as [[repos resp]|err] eqn:Hpage; [|done].
  rewrite (bool_decide_eq_false_2 (0 > 0)) by lia.
  rewrite (bool_decide_eq_true_2 (k > 0)) by lia. cbn [andb].
  intros Hall.
  assert ((acc ++ repos) `prefix_of` all) as [rest ->].
  { destruct (bool_decide (NextPage resp = 0%nat)).
    - by injection Hall as <-.
    - by eapply listPublicRepos_loop_extends. }
  destruct (decide (len (acc ++ repos) >= k)) as [Hreach|Hreach].
  - rewrite bool_decide_eq_true_2 by done.
    unfold len in Hreach. by rewrite (take_app_le (acc ++ repos)) by lia.
  - rewrite bool_decide_eq_false_2 by done.
    destruct (bool_decide (NextPage resp = 0%nat)).
    + injection Hall as Hall.
      assert (rest = []) as ->.
      { apply (app_inv_head (acc ++ repos)). by rewrite app_nil_r. }
      rewrite app_nil_r. unfold len in Hreach. by rewrite take_ge by lia.
    + apply IH; [lia | done].
Qed.

End Pagination.

(** ** Pagination completeness and limit truncation *)

(** C1. Against a paginated source that holds [repos] (resp. [commits]) and
    serves them in pages of the requested size, listPublicRepos without a
    limit and compareAllCommits return exactly the items held, in order,
    once the fuel exceeds the number of full pages; this covers the case
    where the last page is exactly full.  The same holds for the two loops
    at every page size [P] > 0.  Both loops return at the first page whose
    response has no next page, and the collector also at the first page
    shorter than the page size, whatever the remote is. *)
Theorem pagination_complete client owner repo base head
    (repos : list Repository) (commits : list RepositoryCommit) :
  serves_repos client owner repos →
  serves_commits client owner repo base head commits →
  (∀ fuel, (length repos / 100 < fuel)%nat →
     listPublicRepos fuel client owner 0 = Some (Ok repos)) ∧
  (∀ fuel, (length commits / 100 < fuel)%nat →
     compareAllCommits fuel client owner repo base head = Some (Ok commits)) ∧
  (∀ P fuel ty, (0 < P)%nat → (length repos / P < fuel)%nat →
     listPublicRepos_loop fuel client owner 0 []
       {| Type_ := ty; ListOptions_ := {| Page := 0; PerPage := P |} |}
     = Some (Ok repos)) ∧
  (∀ P fuel, (0 < P)%nat → (length commits / P < fuel)%nat →
     compareAllCommits_loop fuel client owner repo base head P [] 1
     = Some (Ok commits)) ∧
  (∀ client' fuel acc opt page resp,
     ListByOrg client' owner opt = Ok (page, resp) →
     NextPage resp = 0%nat →
     listPublicRepos_loop (S fuel) client' owner 0 acc opt
     = Some (Ok (acc ++ page))) ∧
  (∀ client' fuel acc p P comp resp,
     CompareCommits client' owner repo base head {| Page := p; PerPage := P |}
     = Ok (comp, resp) →
     NextPage resp = 0%nat ∨ (length (Commits comp) < P)%nat →
     compareAllCommits_loop (S fuel) client' owner repo base head P acc p
     = Some (Ok (acc ++ Commits comp))).
Proof.
  intros Hrepos Hcommits.
  assert (∀ P fuel ty, (0 < P)%nat → (length repos / P < fuel)%nat →
     listPublicRepos_loop fuel client owner 0 []
       {| Type_ := ty; ListOptions_ := {| Page := 0; PerPage := P |} |}
     = Some (Ok repos)) as Hlist.
  { intros P fuel ty HP Hfuel.
    rewrite (listPublicRepos_loop_first_page _ _ repos) by done.
    rewrite (listPublicRepos_loop_paged _ _ repos); [done.. | lia | done |].
    simpl. by apply pages_fuel. }
  assert (∀ P fuel, (0 < P)%nat → (length commits / P < fuel)%nat →
     compareAllCommits_loop fuel client owner repo base head P [] 1
     = Some (Ok commits)) as Hcmp.
  { intros P fuel HP Hfuel.
    rewrite (compareAllCommits_loop_paged _ _ _ _ _ commits); [done.. | |].
    - lia.
    - simpl. by apply pages_fuel. }
  repeat split.
  - intros fuel Hfuel. by apply Hlist; [lia|].
  - intros fuel Hfuel. by apply Hcmp; [lia|].
  - done.
  - done.
  - intros client' fuel acc opt page resp Hpage Hnext.
    cbn [listPublicRepos_loop]. rewrite Hpage.
    rewrite (bool_decide_eq_false_2 (0 > 0)) by lia.
    by rewrite (bool_decide_eq_true_2 _ Hnext).
  - intros client' fuel acc p P comp resp Hpage Hstop.
    cbn [compareAllCommits_loop]. rewrite Hpage.
    destruct Hstop as [Hnext|Hshort].
    + by rewrite (bool_decide_eq_true_2 _ Hnext).
    + rewrite (bool_decide_eq_true_2 _ Hshort). by rewrite orb_true_r.
Qed.

(** Two full pages of 100 and nothing after them: the second page reports
    no next page, and the result is the 200 items. *)
Lemma pagination_complete_witness :
  listPublicRepos 3 (simulated (repo_named <$> seq 0 200) []) "org" 0
  = Some (Ok (repo_named <$> seq 0 200)) ∧
  compareAllCommits 3
    (simulated (repo_named <$> seq 0 200) (commit_numbered <$> seq 0 200))
    "org" "repo" "v1" "main"
  = Some (Ok (commit_numbered <$> seq 0 200)).
Proof.
  destruct (pagination_complete
              (simulated (repo_named <$> seq 0 200) (commit_numbered <$> seq 0 200))
              "org" "repo" "v1" "main"
              (repo_named <$> seq 0 200) (commit_numbered <$> seq 0 200))
    as (Hlist & Hcmp & _).
  - intros opt. reflexivity.
  - intros opt. reflexivity.
  - split.
    + rewrite <- (Hlist 3%nat); [reflexivity | vm_compute; lia].
    + apply Hcmp. vm_compute; lia.
Defined.

(** C2. Against a paginated source holding [repos], whatever their number
    (none and one included), the run with limit 0 returns all of [repos],
    and for every limit k with 0 < k smaller than their number the run with
    limit k returns exactly k repositories, the first k of [repos].  The
    truncation does not depend on the source: for every remote, when the
    run with limit 0 returns [all] and 0 < k is smaller than the length of
    [all], the run with limit k returns exactly the first k of [all]. *)
Theorem limit_truncation client owner (repos : list Repository) :
  serves_repos client owner repos →
  (∀ fuel, (length repos / 100 < fuel)%nat →
     listPublicRepos fuel client owner 0 = Some (Ok repos)) ∧
  (∀ fuel k, (length repos / 100 < fuel)%nat → 0 < k → k < len repos →
     ∃ res, listPublicRepos fuel client owner k = Some (Ok res) ∧
            len res = k ∧ res `prefix_of` repos ∧
            res = take (Z.to_nat k) repos) ∧
  (∀ client' fuel all k,
     listPublicRepos fuel client' owner 0 = Some (Ok all) →
     0 < k → k < len all →
     ∃ res, listPublicRepos fuel client' owner k = Some (Ok res) ∧
            len res = k ∧ res `prefix_of` all ∧
            res = take (Z.to_nat k) all).
Proof.
  intros Hsrc.
  assert (∀ fuel, (length repos / 100 < fuel)%nat →
            listPublicRepos fuel client owner 0 = Some (Ok repos)) as Hall.
  { intros fuel Hfuel. unfold listPublicRepos.
    rewrite (listPublicRepos_loop_first_page _ _ repos) by done.
    rewrite (listPublicRepos_loop_paged _ _ repos); [done.. | lia | lia |].
    simpl. apply pages_fuel; [lia | done]. }
  assert (∀ client' fuel all k,
            listPublicRepos fuel client' owner 0 = Some (Ok all) →
            0 < k → k < len all →
            ∃ res, listPublicRepos fuel client' owner k = Some (Ok res) ∧
                   len res = k ∧ res `prefix_of` all ∧
                   res = take (Z.to_nat k) all) as Hcut.
  { intros client' fuel all k Hrun Hk Hlt.
    exists (take (Z.to_nat k) all). repeat split.
    - unfold listPublicRepos in *.
      apply listPublicRepos_loop_limit; [done | unfold len; simpl; lia | done].
    - unfold len in *. rewrite length_take. lia.
    - apply prefix_take. }
  split; [done|]. split; [|done].
  intros fuel k Hfuel Hk Hlt. by apply Hcut; [apply Hall|..].
Qed.

(** An organization with one repository: limit 0 returns it.  250
    repositories in three pages, limit 150: the run stops in the second page
    with the first 150. *)
Lemma limit_truncation_witness :
  listPublicRepos 1 (simulated [repo_named 0] []) "org" 0
  = Some (Ok [repo_named 0]) ∧
  ∃ res, listPublicRepos 3 (simulated (repo_named <$> seq 0 250) []) "org" 150
         = Some (Ok res) ∧
         len res = 150 ∧ res `prefix_of` (repo_named <$> seq 0 250) ∧
         res = take 150 (repo_named <$> seq 0 250).
Proof.
  split.
  - destruct (limit_truncation (simulated [repo_named 0] []) "org"
                [repo_named 0]) as (Hall & _).
    + intros opt. reflexivity.
    + apply Hall. vm_compute. lia.
  - destruct (limit_truncation (simulated (repo_named <$> seq 0 250) []) "org"
                (repo_named <$> seq 0 250)) as (_ & Hcut & _).
    + intros opt. reflexivity.
    + apply (Hcut 3%nat 150).
      * vm_compute. lia.
      * lia.
      * vm_compute. reflexivity.
Defined.

(** ** Normalization: the in-place reversal *)

Section Reversal.
Context {A : Type}.
Implicit Types (s pre mid post : list A).

Lemma swap_ends pre mid post (a b : A) :
  swap (len pre) (len pre + len (a :: mid ++ [b]) - 1)
       (pre ++ (a :: mid ++ [b]) ++ post)
  = (pre ++ [b]) ++ mid ++ (a :: post).
Proof.
  unfold swap, len.
  replace (Z.to_nat (Z.of_nat (length pre))) with (length pre) by lia.
  replace (Z.to_nat (Z.of_nat (length pre)
             + Z.of_nat (length (a :: mid ++ [b])) - 1))
    with (length (pre ++ a :: mid) + 0)%nat
    by (rewrite !length_app; simpl; rewrite length_app; simpl; lia).
  assert (pre ++ (a :: mid ++ [b]) ++ post = (pre ++ a :: mid) ++ b :: post)
    as -> by (by simpl; rewrite <- !app_assoc).
  rewrite (list_lookup_middle (pre ++ a :: mid) post b
             (length (pre ++ a :: mid) + 0)) by lia.
  rewrite <- (app_assoc pre (a :: mid)). simpl.
  rewrite (list_lookup_middle pre _ a (length pre)) by done.
  replace (<[length pre:=b]> (pre ++ a :: mid ++ b :: post))
    with (pre ++ <[0%nat:=b]> (a :: mid ++ b :: post))
    by (by rewrite <- insert_app_r, Nat.add_0_r).
  simpl.
  replace (pre ++ b :: mid ++ b :: post)
    with ((pre ++ b :: mid) ++ b :: post) by (by rewrite <- app_assoc).
  replace (length (pre ++ a :: mid)) with (length (pre ++ b :: mid))
    by (by rewrite !length_app).
  rewrite insert_app_r. simpl.
  by rewrite <- !app_assoc.
Qed.

Lemma reverse_loop_middle :
  ∀ fuel pre mid post,
    (length mid ≤ fuel)%nat →
    reverse_loop fuel (len pre) (len pre + len mid - 1) (pre ++ mid ++ post)
    = pre ++ reverse mid ++ post.
Proof.
  induction fuel as [|fuel IH]; intros pre mid post Hfuel.
  { destruct mid; [done | simpl in Hfuel; lia]. }
  cbn [reverse_loop].
  destruct mid as [|a mid]; [by rewrite bool_decide_eq_false_2 by (unfold len; simpl; lia)|].
  destruct mid as [|b mid _] using rev_ind.
  { by rewrite bool_decide_eq_false_2 by (unfold len; simpl; lia). }
  rewrite bool_decide_eq_true_2
    by (unfold len; simpl; rewrite length_app; simpl; lia).
  rewrite swap_ends.
  replace (len pre + 1) with (len (pre ++ [b]))
    by (unfold len; rewrite length_app; simpl; lia).
  replace (len pre + len (a :: mid ++ [b]) - 1 - 1)
    with (len (pre ++ [b]) + len mid - 1)
    by (unfold len; simpl; rewrite !length_app; simpl; lia).
  rewrite IH by (simpl in Hfuel; rewrite length_app in Hfuel; simpl in Hfuel; lia).
  rewrite reverse_cons, reverse_snoc. simpl.
  by rewrite <- !app_assoc.
Qed.

(** The swap loop is list reversal. *)
Lemma reverse_in_place_reverse s : reverse_in_place s = reverse s.
Proof.
  unfold reverse_in_place.
  pose proof (reverse_loop_middle (length s) [] s []) as H.
  rewrite !app_nil_r in H. simpl in H. by apply H.
Qed.

End Reversal.

(** ** Normalization: records, order, authors *)

Lemma commitInfos_loop_mapM (commits : list RepositoryCommit) :
  ∀ acc, commitInfos_loop commits acc = (acc ++.) <$> mapM commitInfo commits.
Proof.
  induction commits as [|c commits IH]; intros acc; simpl.
  - by rewrite app_nil_r.
  - destruct (commitInfo c) as [ci|]; simpl; [|done].
    rewrite IH. destruct (mapM commitInfo commits); simpl; [|done].
    by rewrite <- app_assoc.
Qed.

Lemma commitInfos_loop_Some (commits : list RepositoryCommit) infos :
  commitInfos_loop commits [] = Some infos ↔
  Forall2 (λ c ci, commitInfo c = Some ci) commits infos.
Proof.
  rewrite commitInfos_loop_mapM. rewrite <- mapM_Some.
  destruct (mapM commitInfo commits); simpl; naive_solver.
Qed.

Lemma commitInfo_Timestamp c ci :
  commitInfo c = Some ci → Timestamp ci = authored c.
Proof.
  unfold commitInfo, authored. destruct (Commit_ c); [|done].
  by intros [= <-].
Qed.

Lemma commitInfos_loop_timestamps (commits : list RepositoryCommit) infos :
  commitInfos_loop commits [] = Some infos →
  Timestamp <$> infos = authored <$> commits.
Proof.
  rewrite commitInfos_loop_Some.
  induction 1 as [|c ci commits infos Hci _ IH]; [done|].
  rewrite !fmap_cons. by rewrite IH, (commitInfo_Timestamp c ci).
Qed.

(** ** The orchestrator: the loop body acts as the state machine says *)

Lemma runCrawl_body_outcome fuel os client owner n i repo processedCount st :
  runCrawl_body fuel os client owner n i repo processedCount st
  = run_outcome (outcome fuel os client owner repo) (snapshotFile repo)
      (body_events fuel os client owner n i repo) processedCount st.
Proof.
  unfold runCrawl_body, body_events, outcome, run_outcome.
  unfold mbind, M_bind, mret, M_ret, print, halt, writeJSON.
  fold (snapshotFile repo).
  destruct (checkLatestRelease client owner (GetName repo)) as [[|] releaseData];
    cbn [negb snd files output file_effect counted];
    [| by rewrite Z.add_0_r, <- app_assoc].
  destruct (Get client owner (GetName repo)) as [repoDetail|err];
    cbn [files output file_effect counted];
    [| by rewrite Z.add_0_r, <- app_assoc].
  destruct (compareAllCommits fuel client owner (GetName repo) _ _)
    as [[commits|err]|]; cbn [files output file_effect counted];
    [| by rewrite Z.add_0_r, <- !app_assoc | by rewrite <- !app_assoc].
  destruct (commitInfos_loop commits []) as [commitInfos|];
    cbn [files output file_effect counted]; [| by rewrite <- !app_assoc].
  rewrite reverse_in_place_reverse.
  destruct (Create os (snapshotFile repo)) as [err|];
    cbn [files output file_effect counted];
    [by rewrite Z.add_0_r, <- !app_assoc|].
  destruct (Encode os (snapshotFile repo) _) as [err|];
    cbn [files output file_effect counted UnreleasedCommits];
    [by rewrite Z.add_0_r, <- !app_assoc | by rewrite <- !app_assoc].
Qed.

(** What the loop body does on the path that reaches the write. *)
Lemma runCrawl_body_persists fuel os client owner n i repo processedCount st
    rel detail commits infos :
  checkLatestRelease client owner (GetName repo) = (true, rel) →
  Get client owner (GetName repo) = Ok detail →
  compareAllCommits fuel client owner (GetName repo)
    (GetTagName rel) (GetDefaultBranch detail) = Some (Ok commits) →
  commitInfos_loop commits [] = Some infos →
  Create os (snapshotFile repo) = None →
  (∀ d, Encode os (snapshotFile repo) d = None) →
  ∃ st' d,
    runCrawl_body fuel os client owner n i repo processedCount st
    = Done (processedCount + 1) st' ∧
    outcome fuel os client owner repo = Persisted d ∧
    files st' = <[snapshotFile repo := Encoded (DataRepository d)]> (files st) ∧
    Name d = GetName repo ∧
    UnreleasedCommits d = reverse infos.
Proof.
  intros Hrel Hget Hcmp Hinfos Hcreate Hencode.
  rewrite runCrawl_body_outcome.
  unfold outcome. rewrite Hrel, Hget, Hcmp, Hinfos, Hcreate, Hencode.
  eexists _, _. unfold run_outcome. cbn [counted file_effect].
  repeat split; reflexivity.
Qed.

(** C3. On the path that persists a Snapshot, the commit sequence written
    is the reversal of the records in the order the comparison delivered
    them: its first entry is the last commit delivered, its timestamps are
    those of the commits in reverse, and they are non-increasing whenever
    the delivered timestamps were non-decreasing. *)
Theorem newest_first fuel os client owner n i repo processedCount st
    rel detail commits infos :
  checkLatestRelease client owner (GetName repo) = (true, rel) →
  Get client owner (GetName repo) = Ok detail →
  compareAllCommits fuel client owner (GetName repo)
    (GetTagName rel) (GetDefaultBranch detail) = Some (Ok commits) →
  commitInfos_loop commits [] = Some infos →
  Create os (snapshotFile repo) = None →
  (∀ d, Encode os (snapshotFile repo) d = None) →
  ∃ st' d,
    runCrawl_body fuel os client owner n i repo processedCount st
    = Done (processedCount + 1) st' ∧
    files st' !! snapshotFile repo = Some (Encoded (DataRepository d)) ∧
    UnreleasedCommits d = reverse_in_place infos ∧
    UnreleasedCommits d = reverse infos ∧
    head (UnreleasedCommits d) = last infos ∧
    Timestamp <$> UnreleasedCommits d = reverse (authored <$> commits) ∧
    (Sorted Z.le (authored <$> commits) →
     Sorted (flip Z.le) (Timestamp <$> UnreleasedCommits d)).
Proof.
  intros Hrel Hget Hcmp Hinfos Hcreate Hencode.
  destruct (runCrawl_body_persists fuel os client owner n i repo
              processedCount st rel detail commits infos)
    as (st' & d & Hrun & _ & Hfiles & _ & Hd); [done..|].
  exists st', d. rewrite Hd.
  assert (Timestamp <$> reverse infos = reverse (authored <$> commits)) as Hts.
  { by rewrite fmap_reverse, (commitInfos_loop_timestamps commits). }
  repeat split.
  - done.
  - rewrite Hfiles. by rewrite lookup_insert_eq.
  - by rewrite reverse_in_place_reverse.
  - apply head_reverse.
  - done.
  - intros Hsorted. rewrite Hts. by apply Sorted_reverse.
Qed.

(** Timestamps 1000 < 2000 < 3000 delivered oldest first are written as
    3000, 2000, 1000. *)
Lemma newest_first_witness :
  ∃ st' d,
    runCrawl_body 5 sample_os sample_client "org" 3 0 alpha 0 initial
    = Done 1 st' ∧
    files st' !! snapshotFile alpha = Some (Encoded (DataRepository d)) ∧
    Timestamp <$> UnreleasedCommits d = [3000; 2000; 1000].
Proof.
  destruct (newest_first 5 sample_os sample_client "org" 3 0 alpha 0 initial
              (Some {| TagName := Some "v1"; PublishedAt := Some 500 |})
              alpha
              [alice_commit; bob_commit; anonymous_commit]
              (default [] (commitInfos_loop
                             [alice_commit; bob_commit; anonymous_commit] [])))
    as (st' & d & Hrun & Hfile & _ & _ & _ & Hts & _);
    [reflexivity.. | intros d; reflexivity |].
  exists st', d. repeat split; [exact Hrun | exact Hfile | exact Hts].
Defined.

(** C4. The author the loop body resolves is the first match of: the
    platform-linked author's login if present and non-empty, the raw commit
    metadata's author name if present and non-empty, the literal "unknown".
    A commit with login "alice" and metadata name "Alice Smith" resolves to
    "alice", one with only the metadata name "Bob" to "Bob", one with
    neither to "unknown". *)
Theorem author_precedence :
  (∀ c, author c = resolved_author c) ∧
  (∀ c login, platform_login c = Some login → login ≠ "" → author c = login) ∧
  (∀ c name, present_nonempty (platform_login c) = None →
     metadata_name c = Some name → name ≠ "" → author c = name) ∧
  (∀ c, present_nonempty (platform_login c) = None →
     present_nonempty (metadata_name c) = None → author c = "unknown") ∧
  author alice_commit = "alice" ∧
  author bob_commit = "Bob" ∧
  author anonymous_commit = "unknown".
Proof.
  assert (∀ c, author c = resolved_author c) as Heq.
  { intros [sha [[[login|]]|] [[[[[name|] date]|] msg]|] url];
      unfold author, resolved_author, platform_login, metadata_name,
        present_nonempty, GetLogin, GetAuthorName; simpl;
      repeat case_bool_decide; simpl; congruence. }
  split; [exact Heq|].
  repeat split.
  - intros c login Hlogin Hne. rewrite Heq. unfold resolved_author.
    rewrite Hlogin. simpl. by rewrite bool_decide_eq_false_2.
  - intros c name Hlogin Hname Hne. rewrite Heq. unfold resolved_author.
    rewrite Hlogin, Hname. simpl. by rewrite bool_decide_eq_false_2.
  - intros c Hlogin Hname. rewrite Heq. unfold resolved_author.
    by rewrite Hlogin, Hname.
Qed.

(** C6. checkLatestRelease reports no release when the call fails (as it
    does for a repository without releases), when it yields no release
    object, and when the tag name is empty; it reports the release exactly
    when the call succeeds with a release whose tag name is non-empty.  It
    has no error result. *)
Theorem checkLatestRelease_none_or_some client owner repo
    (rel : option RepositoryRelease) (err : option error) :
  GetLatestRelease client owner repo = (rel, err) →
  (err ≠ None → checkLatestRelease client owner repo = (false, None)) ∧
  (rel = None → checkLatestRelease client owner repo = (false, None)) ∧
  (GetTagName rel = "" → checkLatestRelease client owner repo = (false, None)) ∧
  (∀ r, checkLatestRelease client owner repo = (true, Some r) ↔
        err = None ∧ rel = Some r ∧ GetTagName (Some r) ≠ "") ∧
  (checkLatestRelease client owner repo = (false, None) ∨
   ∃ r, checkLatestRelease client owner repo = (true, Some r)).
Proof.
  intros Hcall. unfold checkLatestRelease. rewrite Hcall.
  destruct err as [e|].
  { rewrite (bool_decide_eq_true_2 (Some e ≠ None)) by done. cbn [orb].
    repeat split; intros; destruct_and?; simplify_eq; eauto. }
  rewrite (bool_decide_eq_false_2 (None ≠ None)) by (by intros []).
  destruct rel as [r|].
  2:{ rewrite (bool_decide_eq_true_2 (None = None)) by done. cbn [orb].
      repeat split; intros; destruct_and?; simplify_eq; eauto. }
  rewrite (bool_decide_eq_false_2 (Some r = None)) by done. cbn [orb].
  destruct (decide (GetTagName (Some r) = "")) as [Htag|Htag].
  - rewrite (bool_decide_eq_true_2 _ Htag).
    repeat split; intros; destruct_and?; simplify_eq; eauto.
  - rewrite (bool_decide_eq_false_2 _ Htag).
    repeat split; intros; destruct_and?; simplify_eq; eauto.
Qed.

Lemma checkLatestRelease_none_or_some_witness :
  checkLatestRelease sample_client "org" "beta" = (false, None) ∧
  checkLatestRelease sample_client "org" "alpha"
  = (true, Some {| TagName := Some "v1"; PublishedAt := Some 500 |}).
Proof.
  split.
  - apply (checkLatestRelease_none_or_some sample_client "org" "beta"
             None (Some "500 Server Error")); [reflexivity | done].
  - apply (checkLatestRelease_none_or_some sample_client "org" "alpha"
             (Some {| TagName := Some "v1"; PublishedAt := Some 500 |}) None);
      [reflexivity | done].
Defined.

(** ** The orchestrator: the loop and the whole crawl *)

Section Orchestrator.
Context (fuel : nat) (os : OS) (client : Client) (owner : string).

(** When no repository halts the process, the loop runs to its end and
    leaves what the terminal states say. *)
Lemma runCrawl_loop_outcomes n :
  ∀ repos i processedCount st,
    Forall (λ repo, ¬ halts (outcome fuel os client owner repo)) repos →
    runCrawl_loop fuel os client owner n i repos processedCount st
    = Done (processedCount + loop_count fuel os client owner repos)
        {| files := loop_files fuel os client owner repos (files st);
           output := output st ++ loop_events fuel os client owner n i repos |}.
Proof.
  induction repos as [|repo repos IH]; intros i processedCount st Hok.
  - simpl. unfold mret, M_ret. rewrite Z.add_0_r, app_nil_r. by destruct st.
  - apply Forall_cons in Hok as [Hrepo Hok].
    cbn [runCrawl_loop loop_files loop_events]. unfold mbind, M_bind.
    rewrite runCrawl_body_outcome. unfold run_outcome.
    destruct (outcome fuel os client owner repo) eqn:Ho; try (by destruct Hrepo);
      rewrite IH by done; cbn [files output];
      unfold loop_count; cbn [foldr]; rewrite Ho;
      by rewrite <- app_assoc, Z.add_assoc.
Qed.

(** A repository that halts the process stops the loop there, with the
    files as the repositories before it left them. *)
Lemma runCrawl_loop_halts n :
  ∀ before i processedCount st repo after h,
    Forall (λ repo, ¬ halts (outcome fuel os client owner repo)) before →
    outcome fuel os client owner repo = Halted h →
    ∃ st', runCrawl_loop fuel os client owner n i (before ++ repo :: after)
             processedCount st = Stop h st' ∧
           files st' = loop_files fuel os client owner before (files st).
Proof.
  induction before as [|r before IH]; intros i processedCount st repo after h Hok Hh.
  - cbn [app runCrawl_loop]. unfold mbind, M_bind.
    rewrite runCrawl_body_outcome. unfold run_outcome. rewrite Hh.
    by eexists.
  - apply Forall_cons in Hok as [Hr Hok].
    cbn [app runCrawl_loop loop_files]. unfold mbind, M_bind.
    rewrite runCrawl_body_outcome. unfold run_outcome.
    destruct (outcome fuel os client owner r) eqn:Ho; try (by destruct Hr);
      by apply IH.
Qed.

(** The crawl after a successful start and enumeration. *)
Lemma runCrawl_completes limit repos st :
  GITHUB_TOKEN os ≠ "" →
  MkdirAll os outputDir = None →
  listPublicRepos fuel client owner limit = Some (Ok repos) →
  Forall (λ repo, ¬ halts (outcome fuel os client owner repo)) repos →
  runCrawl fuel os client owner limit st
  = Done ()
      {| files := timestamp_files os
                    (loop_files fuel os client owner repos (files st));
         output := output st
           ++ [FetchingRepositories owner; FoundRepositories (len repos)]
           ++ loop_events fuel os client owner (len repos) 0 repos
           ++ [timestamp_event os;
               CrawlComplete (loop_count fuel os client owner repos)] |}.
Proof.
  intros Htoken Hmkdir Hlist Hok. unfold runCrawl.
  rewrite bool_decide_eq_false_2 by done.
  unfold mbind, M_bind, print at 1. rewrite Hmkdir, Hlist.
  unfold print at 1. rewrite runCrawl_loop_outcomes by done.
  unfold writeJSON, timestamp_files, timestamp_event, print.
  cbn [files output]. rewrite Z.add_0_l.
  destruct (Create os timestampFile) as [err|]; cbn [files output].
  { by rewrite <- !app_assoc. }
  destruct (Encode os timestampFile _) as [err|]; cbn [files output];
    by rewrite <- !app_assoc.
Qed.

End Orchestrator.

(** ** Files: one path per repository name *)

Lemma list_ascii_of_string_app (s1 s2 : string) :
  String.list_ascii_of_string (s1 +:+ s2)
  = String.list_ascii_of_string s1 ++ String.list_ascii_of_string s2.
Proof. induction s1 as [|a s1 IH]; simpl; [done | by rewrite IH]. Qed.

Lemma string_app_inv_tail (s1 s2 t : string) :
  s1 +:+ t = s2 +:+ t → s1 = s2.
Proof.
  intros H. apply (f_equal String.list_ascii_of_string) in H.
  rewrite !list_ascii_of_string_app in H. apply app_inv_tail in H.
  rewrite <- (String.string_of_list_ascii_of_string s1).
  rewrite <- (String.string_of_list_ascii_of_string s2). by rewrite H.
Qed.

Lemma snapshotFile_inj (r1 r2 : Repository) :
  snapshotFile r1 = snapshotFile r2 → GetName r1 = GetName r2.
Proof.
  unfold snapshotFile, Join. intros H.
  do 2 apply (inj (String.app _)) in H.
  by apply string_app_inv_tail in H.
Qed.

Lemma snapshotFile_timestampFile (r : Repository) :
  GetName r ≠ "timestamp" → snapshotFile r ≠ timestampFile.
Proof.
  unfold snapshotFile, timestampFile, Join. intros Hne H.
  do 2 apply (inj (String.app _)) in H.
  by apply (string_app_inv_tail _ "timestamp") in H.
Qed.

Lemma file_effect_other (o : Outcome) (filename f : string)
    (fs : gmap string File) :
  f ≠ filename → file_effect o filename fs !! f = fs !! f.
Proof.
  intros Hne. destruct o as [| | |err [|]| |]; simpl; try done;
    by rewrite lookup_insert_ne.
Qed.

Lemma timestamp_files_other (os : OS) (fs : gmap string File) (f : string) :
  f ≠ timestampFile → timestamp_files os fs !! f = fs !! f.
Proof.
  intros Hne. unfold timestamp_files.
  destruct (Create os timestampFile); [done|].
  destruct (Encode os timestampFile _); by rewrite lookup_insert_ne.
Qed.

Lemma loop_files_other fuel os client owner (f : string) :
  ∀ repos fs,
    Forall (λ repo, snapshotFile repo ≠ f) repos →
    loop_files fuel os client owner repos fs !! f = fs !! f.
Proof.
  induction repos as [|repo repos IH]; intros fs Hne; [done|].
  apply Forall_cons in Hne as [Hrepo Hne]. cbn [loop_files].
  rewrite IH by done. by apply file_effect_other.
Qed.

(** With distinct names, the file of a repository is what its own terminal
    state left, whatever happened to the others. *)
Lemma loop_files_own fuel os client owner :
  ∀ repos fs repo,
    NoDup (GetName <$> repos) → repo ∈ repos →
    loop_files fuel os client owner repos fs !! snapshotFile repo
    = file_effect (outcome fuel os client owner repo) (snapshotFile repo) fs
      !! snapshotFile repo.
Proof.
  induction repos as [|r repos IH]; intros fs repo Hnodup Hin.
  { by apply elem_of_nil in Hin. }
  rewrite fmap_cons in Hnodup. apply NoDup_cons in Hnodup as [Hfresh Hnodup].
  cbn [loop_files]. apply elem_of_cons in Hin as [->|Hin].
  - apply loop_files_other. apply Forall_forall. intros r' Hr' Heq.
    apply Hfresh. apply snapshotFile_inj in Heq. rewrite <- Heq.
    by apply list_elem_of_fmap_2.
  - rewrite IH by done.
    assert (snapshotFile repo ≠ snapshotFile r) as Hne.
    { intros Heq. apply Hfresh. apply snapshotFile_inj in Heq. rewrite <- Heq.
      by apply list_elem_of_fmap_2. }
    destruct (outcome fuel os client owner repo) as [| | |err [|]|d|h];
      cbn [file_effect]; rewrite ?lookup_insert_eq; try done;
      by apply file_effect_other.
Qed.

(** ** What the output counts *)

Lemma skipped_count_app (out1 out2 : list Event) :
  skipped_count (out1 ++ out2) = (skipped_count out1 + skipped_count out2)%nat.
Proof. unfold skipped_count. by rewrite filter_app, length_app. Qed.

Lemma saved_count_app (out1 out2 : list Event) :
  saved_count (out1 ++ out2) = (saved_count out1 + saved_count out2)%nat.
Proof. unfold saved_count. by rewrite filter_app, length_app. Qed.

Lemma body_events_counts fuel os client owner n i repo :
  skipped_count (body_events fuel os client owner n i repo)
  = (if is_skipped (outcome fuel os client owner repo) then 1 else 0)%nat ∧
  saved_count (body_events fuel os client owner n i repo)
  = (if is_persisted (outcome fuel os client owner repo) then 1 else 0)%nat.
Proof.
  unfold body_events.
  by destruct (outcome fuel os client owner repo).
Qed.

Lemma loop_events_counts fuel os client owner n :
  ∀ repos i,
    skipped_count (loop_events fuel os client owner n i repos)
    = length (filter (λ repo, is_skipped (outcome fuel os client owner repo) = true)
                repos) ∧
    saved_count (loop_events fuel os client owner n i repos)
    = length (filter (λ repo, is_persisted (outcome fuel os client owner repo) = true)
                repos) ∧
    loop_count fuel os client owner repos
    = Z.of_nat (saved_count (loop_events fuel os client owner n i repos)).
Proof.
  induction repos as [|repo repos IH]; intros i; [done|].
  destruct (IH (i + 1)) as (IHskip & IHsave & IHcount).
  destruct (body_events_counts fuel os client owner n i repo) as [Hskip Hsave].
  cbn [loop_events]. rewrite skipped_count_app, saved_count_app.
  rewrite Hskip, Hsave, IHskip, IHsave. rewrite !filter_cons.
  unfold loop_count in *. cbn [foldr]. rewrite IHcount, IHsave.
  destruct (outcome fuel os client owner repo); simpl;
    repeat split; try done; lia.
Qed.

(** C5. A repository for which the release lookup fails, yields no release
    object or yields an empty tag is skipped: the loop body changes no file,
    leaves the processed count as it was, and prints its skip line and no
    error line; the loop goes on to the next repository. *)
Theorem skip_on_no_release fuel os client owner n i repo processedCount st
    (rel : option RepositoryRelease) (err : option error) :
  GetLatestRelease client owner (GetName repo) = (rel, err) →
  err ≠ None ∨ rel = None ∨ GetTagName rel = "" →
  outcome fuel os client owner repo = Skipped ∧
  runCrawl_body fuel os client owner n i repo processedCount st
  = Done processedCount
      {| files := files st;
         output := output st ++ [Processing (i + 1) n (GetName repo);
                                 Skipping (GetName repo)] |} ∧
  (∀ st', runCrawl_body fuel os client owner n i repo processedCount st
          = Done processedCount st' →
     files st' = files st ∧
     skipped_count (output st') = S (skipped_count (output st)) ∧
     saved_count (output st') = saved_count (output st) ∧
     filter (λ e, is_failure e = true) (output st')
     = filter (λ e, is_failure e = true) (output st)) ∧
  (∀ repos, runCrawl_loop fuel os client owner n i (repo :: repos)
              processedCount st
            = runCrawl_loop fuel os client owner n (i + 1) repos processedCount
                {| files := files st;
                   output := output st ++ [Processing (i + 1) n (GetName repo);
                                           Skipping (GetName repo)] |}).
Proof.
  intros Hcall Hnone.
  assert (checkLatestRelease client owner (GetName repo) = (false, None)) as Hcheck.
  { unfold checkLatestRelease. rewrite Hcall.
    destruct Hnone as [Herr|[Hrel|Htag]].
    - by rewrite (bool_decide_eq_true_2 _ Herr).
    - rewrite (bool_decide_eq_true_2 _ Hrel). by rewrite orb_true_r.
    - rewrite (bool_decide_eq_true_2 _ Htag). by rewrite orb_true_r. }
  assert (outcome fuel os client owner repo = Skipped) as Ho.
  { unfold outcome. by rewrite Hcheck. }
  assert (runCrawl_body fuel os client owner n i repo processedCount st
          = Done processedCount
              {| files := files st;
                 output := output st ++ [Processing (i + 1) n (GetName repo);
                                         Skipping (GetName repo)] |}) as Hrun.
  { rewrite runCrawl_body_outcome. unfold run_outcome, body_events.
    rewrite Ho. cbn [counted file_effect]. by rewrite Z.add_0_r. }
  split; [exact Ho | split; [exact Hrun | split]].
  - intros st' Hst'. rewrite Hrun in Hst'. injection Hst' as <-.
    cbn [files output]. rewrite skipped_count_app, saved_count_app, filter_app.
    split; [done | split; [| split]].
    + unfold skipped_count at 2. simpl. lia.
    + unfold saved_count at 2. simpl. lia.
    + by rewrite app_nil_r.
  - intros repos. cbn [runCrawl_loop]. unfold mbind, M_bind. by rewrite Hrun.
Qed.

(** "beta", whose release lookup fails, is skipped. *)
Lemma skip_on_no_release_witness :
  runCrawl_body 5 sample_os sample_client "org" 3 1
    {| github.Name := Some "beta"; github.DefaultBranch := None; HTMLURL := None |}
    1 initial
  = Done 1 {| files := ∅; output := [Processing 2 3 "beta"; Skipping "beta"] |}.
Proof.
  apply (skip_on_no_release 5 sample_os sample_client "org" 3 1
           {| github.Name := Some "beta"; github.DefaultBranch := None;
              HTMLURL := None |}
           1 initial None (Some "500 Server Error")).
  - reflexivity.
  - left. done.
Defined.



(** The two ways a repository halts the process: its comparison never
    ends, or one of its commits has no embedded metadata. *)
Lemma outcome_halts fuel os client owner repo :
  halts (outcome fuel os client owner repo) ↔
  ∃ rel detail,
    checkLatestRelease client owner (GetName repo) = (true, rel) ∧
    Get client owner (GetName repo) = Ok detail ∧
    (compareAllCommits fuel client owner (GetName repo)
       (GetTagName rel) (GetDefaultBranch detail) = None ∨
     ∃ commits,
       compareAllCommits fuel client owner (GetName repo)
         (GetTagName rel) (GetDefaultBranch detail) = Some (Ok commits) ∧
       commitInfos_loop commits [] = None).
Proof.
  unfold outcome.
  destruct (checkLatestRelease client owner (GetName repo)) as [[|] rel].
  2:{ split; [done | by intros (? & ? & [=] & _)]. }
  destruct (Get client owner (GetName repo)) as [detail|err].
  2:{ split; [done | by intros (? & ? & _ & [=] & _)]. }
  destruct (compareAllCommits fuel client owner (GetName repo) _ _)
    as [[commits|err]|] eqn:Hcmp.
  - destruct (commitInfos_loop commits []) as [infos|] eqn:Hinfos.
    + split.
      * destruct (Create os (snapshotFile repo)); [done|].
        by destruct (Encode os (snapshotFile repo) _).
      * intros (rel' & detail' & [= <-] & [= <-] & [Hnone|(cs & Hcs & Hpanic)]);
          rewrite Hcmp in *; [done|]. injection Hcs as <-. congruence.
    + split; [|done]. intros _. exists rel, detail. repeat split; try done.
      right. by exists commits.
  - split; [done|].
    intros (rel' & detail' & [= <-] & [= <-] & [Hnone|(cs & Hcs & _)]);
      rewrite Hcmp in *; done.
  - split; [|done]. intros _. exists rel, detail. repeat split; try done.
    by left.
Qed.

Lemma commitInfos_loop_panics (commits : list RepositoryCommit) :
  Exists (λ c, Commit_ c = None) commits → commitInfos_loop commits [] = None.
Proof.
  intros Hnil.
  destruct (commitInfos_loop commits []) as [infos|] eqn:Hinfos; [|done].
  apply commitInfos_loop_Some in Hinfos. exfalso.
  induction Hinfos as [|c ci commits infos Hci _ IH].
  - by apply Exists_nil in Hnil.
  - apply Exists_cons in Hnil as [Hc|Hnil]; [|by apply IH].
    unfold commitInfo in Hci. by rewrite Hc in Hci.
Qed.

Lemma runCrawl_body_panics fuel os client owner n i repo processedCount st
    rel detail commits :
  checkLatestRelease client owner (GetName repo) = (true, rel) →
  Get client owner (GetName repo) = Ok detail →
  compareAllCommits fuel client owner (GetName repo)
    (GetTagName rel) (GetDefaultBranch detail) = Some (Ok commits) →
  Exists (λ c, Commit_ c = None) commits →
  ∃ st', runCrawl_body fuel os client owner n i repo processedCount st
         = Stop Panic st' ∧ files st' = files st.
Proof.
  intros Hrel Hget Hcmp Hnil.
  pose proof (commitInfos_loop_panics commits Hnil) as Hpanic.
  rewrite runCrawl_body_outcome. unfold run_outcome, outcome.
  rewrite Hrel, Hget, Hcmp, Hpanic. by eexists.
Qed.

(** C10. Building the record of a commit panics exactly when the commit's
    embedded metadata object is nil, whatever its platform-linked author is;
    a nil author inside non-nil metadata gives a record with the zero
    timestamp.  When every commit has its metadata object, every commit
    yields exactly one record.  A panic stops the crawl in the loop body of
    that repository, before anything is written for it. *)
Theorem commitInfo_total_iff :
  (∀ c, commitInfo c = None ↔ Commit_ c = None) ∧
  (∀ c, Commit_ c ≠ None →
     ∃ ci, commitInfo c = Some ci ∧ Author ci = author c ∧
           Timestamp ci = authored c) ∧
  (∀ commits, is_Some (commitInfos_loop commits []) ↔
              Forall (λ c, Commit_ c ≠ None) commits) ∧
  (∀ commits infos, commitInfos_loop commits [] = Some infos →
     length infos = length commits) ∧
  (github.Author bare_commit ≠ None ∧ author bare_commit = "carol" ∧
   commitInfo bare_commit = None) ∧
  (∃ ci, commitInfo unauthored_commit = Some ci ∧ Author ci = "dave" ∧
         Timestamp ci = zeroTime) ∧
  (∀ fuel os client owner n i repo processedCount st rel detail commits,
     checkLatestRelease client owner (GetName repo) = (true, rel) →
     Get client owner (GetName repo) = Ok detail →
     compareAllCommits fuel client owner (GetName repo)
       (GetTagName rel) (GetDefaultBranch detail) = Some (Ok commits) →
     Exists (λ c, Commit_ c = None) commits →
     ∃ st', runCrawl_body fuel os client owner n i repo processedCount st
            = Stop Panic st' ∧ files st' = files st).
Proof.
  assert (∀ c, commitInfo c = None ↔ Commit_ c = None) as Hnone.
  { intros c. unfold commitInfo. by destruct (Commit_ c). }
  repeat split; try done; try apply Hnone.
  - intros c Hc. unfold commitInfo, authored.
    destruct (Commit_ c) as [cm|]; [|done]. by eexists.
  - intros [infos Hinfos]. apply commitInfos_loop_Some in Hinfos.
    induction Hinfos as [|c ci commits infos Hci _ IH]; constructor; [|done].
    intros Hc. apply Hnone in Hc. congruence.
  - intros Hall.
    cut (∃ infos, Forall2 (λ c ci, commitInfo c = Some ci) commits infos).
    { intros [infos Hinfos]. exists infos. by apply commitInfos_loop_Some. }
    induction Hall as [|c commits Hc _ [infos IH]]; [by exists []|].
    destruct (commitInfo c) as [ci|] eqn:Hci; [|by apply Hnone in Hci].
    exists (ci :: infos). by constructor.
  - intros commits infos Hinfos. apply commitInfos_loop_Some in Hinfos.
    symmetry. by eapply Forall2_length.
  - by eexists.
  - intros. by eapply runCrawl_body_panics.
Qed.

(** The same statement with the author object also required fails: the
    record of [unauthored_commit] is built although its metadata has no
    author object. *)
Lemma commitInfo_without_metadata_author :
  ¬ (∀ c, is_Some (commitInfo c) →
          Commit_ c ≠ None ∧ (Commit_ c ≫= CommitAuthor_) ≠ None).
Proof.
  intros H. destruct (H unauthored_commit) as [_ Hauthor]; [by eexists|].
  by apply Hauthor.
Qed.

(** The three per-repository failures, call by call. *)
Lemma runCrawl_body_failures fuel os client owner n i repo processedCount st rel :
  checkLatestRelease client owner (GetName repo) = (true, rel) →
  (∀ err,
     Get client owner (GetName repo) = Err err →
     runCrawl_body fuel os client owner n i repo processedCount st
     = Done processedCount
         {| files := files st;
            output := output st ++ [Processing (i + 1) n (GetName repo);
                                    ErrorRepoDetails err] |}) ∧
  (∀ detail err,
     Get client owner (GetName repo) = Ok detail →
     compareAllCommits fuel client owner (GetName repo)
       (GetTagName rel) (GetDefaultBranch detail) = Some (Err err) →
     runCrawl_body fuel os client owner n i repo processedCount st
     = Done processedCount
         {| files := files st;
            output := output st ++ [Processing (i + 1) n (GetName repo);
                                    LatestRelease (GetTagName rel) (GetPublishedAt rel);
                                    ErrorComparing err] |}) ∧
  (∀ detail commits infos err,
     Get client owner (GetName repo) = Ok detail →
     compareAllCommits fuel client owner (GetName repo)
       (GetTagName rel) (GetDefaultBranch detail) = Some (Ok commits) →
     commitInfos_loop commits [] = Some infos →
     Create os (snapshotFile repo) = Some err →
     runCrawl_body fuel os client owner n i repo processedCount st
     = Done processedCount
         {| files := files st;
            output := output st ++ [Processing (i + 1) n (GetName repo);
                                    LatestRelease (GetTagName rel) (GetPublishedAt rel);
                                    ErrorWritingJSON err] |}) ∧
  (∀ detail commits infos err,
     Get client owner (GetName repo) = Ok detail →
     compareAllCommits fuel client owner (GetName repo)
       (GetTagName rel) (GetDefaultBranch detail) = Some (Ok commits) →
     commitInfos_loop commits [] = Some infos →
     Create os (snapshotFile repo) = None →
     (∀ d, Encode os (snapshotFile repo) d = Some err) →
     runCrawl_body fuel os client owner n i repo processedCount st
     = Done processedCount
         {| files := <[snapshotFile repo := Truncated]> (files st);
            output := output st ++ [Processing (i + 1) n (GetName repo);
                                    LatestRelease (GetTagName rel) (GetPublishedAt rel);
                                    ErrorWritingJSON err] |}).
Proof.
  intros Hrel.
  split; [| split; [| split]]; intros; rewrite runCrawl_body_outcome;
    unfold run_outcome, body_events, outcome;
    repeat match goal with
           | H : _ = _ |- _ => rewrite H
           | H : ∀ _, _ = _ |- _ => rewrite H
           end;
    cbn [counted file_effect snd]; by rewrite Z.add_0_r.
Qed.

(** X23. A repository whose detail lookup, commit collection or Snapshot
    write fails does not stop the loop: the body returns with the count
    unchanged, touches no file but (when the write failed after os.Create)
    its own, and the loop goes on with the next repository.  When the crawl
    starts, enumerates [repos] (with distinct names) and no repository halts
    the process, the crawl completes; every Snapshot persisted under a name
    other than "timestamp" is in the final files, whatever happened to the
    other repositories; the timestamp write comes after the loop and leaves
    every other path as the loop left it; when it fails the crawl prints a
    warning and still completes with its summary line. *)
Theorem failure_isolation fuel os client owner limit repos st :
  GITHUB_TOKEN os ≠ "" →
  MkdirAll os outputDir = None →
  listPublicRepos fuel client owner limit = Some (Ok repos) →
  Forall (λ repo, ¬ halts (outcome fuel os client owner repo)) repos →
  NoDup (GetName <$> repos) →
  (∀ n i repo processedCount st0 rel,
     checkLatestRelease client owner (GetName repo) = (true, rel) →
     (∀ err,
        Get client owner (GetName repo) = Err err →
        runCrawl_body fuel os client owner n i repo processedCount st0
        = Done processedCount
            {| files := files st0;
               output := output st0 ++ [Processing (i + 1) n (GetName repo);
                                       ErrorRepoDetails err] |}) ∧
     (∀ detail err,
        Get client owner (GetName repo) = Ok detail →
        compareAllCommits fuel client owner (GetName repo)
          (GetTagName rel) (GetDefaultBranch detail) = Some (Err err) →
        runCrawl_body fuel os client owner n i repo processedCount st0
        = Done processedCount
            {| files := files st0;
               output := output st0 ++ [Processing (i + 1) n (GetName repo);
                                       LatestRelease (GetTagName rel) (GetPublishedAt rel);
                                       ErrorComparing err] |}) ∧
     (∀ detail commits infos err,
        Get client owner (GetName repo) = Ok detail →
        compareAllCommits fuel client owner (GetName repo)
          (GetTagName rel) (GetDefaultBranch detail) = Some (Ok commits) →
        commitInfos_loop commits [] = Some infos →
        Create os (snapshotFile repo) = Some err →
        runCrawl_body fuel os client owner n i repo processedCount st0
        = Done processedCount
            {| files := files st0;
               output := output st0 ++ [Processing (i + 1) n (GetName repo);
                                       LatestRelease (GetTagName rel) (GetPublishedAt rel);
                                       ErrorWritingJSON err] |}) ∧
     (∀ detail commits infos err,
        Get client owner (GetName repo) = Ok detail →
        compareAllCommits fuel client owner (GetName repo)
          (GetTagName rel) (GetDefaultBranch detail) = Some (Ok commits) →
        commitInfos_loop commits [] = Some infos →
        Create os (snapshotFile repo) = None →
        (∀ d, Encode os (snapshotFile repo) d = Some err) →
        runCrawl_body fuel os client owner n i repo processedCount st0
        = Done processedCount
            {| files := <[snapshotFile repo := Truncated]> (files st0);
               output := output st0 ++ [Processing (i + 1) n (GetName repo);
                                       LatestRelease (GetTagName rel) (GetPublishedAt rel);
                                       ErrorWritingJSON err] |})) ∧
  (∀ n i repo processedCount st0,
     failed (outcome fuel os client owner repo) →
     ∃ st1,
       runCrawl_body fuel os client owner n i repo processedCount st0
       = Done processedCount st1 ∧
       (∀ f, f ≠ snapshotFile repo → files st1 !! f = files st0 !! f) ∧
       ((∀ err, outcome fuel os client owner repo ≠ FailedWrite err true) →
        files st1 = files st0) ∧
       (∀ rest,
          runCrawl_loop fuel os client owner n i (repo :: rest) processedCount st0
          = runCrawl_loop fuel os client owner n (i + 1) rest processedCount st1)) ∧
  ∃ st',
    runCrawl fuel os client owner limit st = Done () st' ∧
    (∃ out, output st' =
            out ++ [timestamp_event os;
                    CrawlComplete (loop_count fuel os client owner repos)]) ∧
    (∀ repo d, repo ∈ repos → GetName repo ≠ "timestamp" →
       outcome fuel os client owner repo = Persisted d →
       files st' !! snapshotFile repo = Some (Encoded (DataRepository d))) ∧
    (∀ f, f ≠ timestampFile →
       files st' !! f = loop_files fuel os client owner repos (files st) !! f) ∧
    (∀ err, Create os timestampFile = Some err →
       files st' = loop_files fuel os client owner repos (files st) ∧
       timestamp_event os = WarnTimestamp err) ∧
    (∀ err, Create os timestampFile = None →
       Encode os timestampFile (DataTimestamp {| LastCrawled := Now os |})
       = Some err →
       timestamp_event os = WarnTimestamp err) ∧
    (Create os timestampFile = None →
     Encode os timestampFile (DataTimestamp {| LastCrawled := Now os |}) = None →
     files st' !! timestampFile
     = Some (Encoded (DataTimestamp {| LastCrawled := Now os |})) ∧
     timestamp_event os = RecordedTimestamp (Now os)).
Proof.
  intros Htoken Hmkdir Hlist Hok Hnodup. split; [| split].
  - intros n i repo processedCount st0 rel Hrel.
    by apply runCrawl_body_failures.
  - intros n i repo processedCount st0 Hfailed.
    pose proof (runCrawl_body_outcome fuel os client owner n i repo
                  processedCount st0) as Hbody.
    unfold run_outcome in Hbody.
    destruct (outcome fuel os client owner repo) as [| | |err [|]| |] eqn:Ho;
      try (by destruct Hfailed); cbn [counted file_effect] in Hbody;
      rewrite Z.add_0_r in Hbody;
      (eexists; split; [exact Hbody|]); cbn [files]; repeat split; try done;
      try (by intros rest; cbn [runCrawl_loop]; unfold mbind, M_bind;
              rewrite Hbody).
    + intros f Hf. by rewrite lookup_insert_ne.
    + intros Hnot. by destruct (Hnot err).
  - eexists. rewrite (runCrawl_completes _ _ _ _ _ repos) by done.
    split; [reflexivity|]. cbn [files output].
    split; [| split; [| split; [| split; [| split]]]].
    + exists (output st
              ++ [FetchingRepositories owner; FoundRepositories (len repos)]
              ++ loop_events fuel os client owner (len repos) 0 repos).
      by rewrite <- !app_assoc.
    + intros repo d Hin Hname Ho.
      rewrite timestamp_files_other by (by apply snapshotFile_timestampFile).
      rewrite loop_files_own by done. rewrite Ho. cbn [file_effect].
      by rewrite lookup_insert_eq.
    + intros f Hf. by apply timestamp_files_other.
    + intros err Hcreate. unfold timestamp_files, timestamp_event.
      by rewrite Hcreate.
    + intros err Hcreate Hencode. unfold timestamp_event.
      by rewrite Hcreate, Hencode.
    + intros Hcreate Hencode. unfold timestamp_files, timestamp_event.
      rewrite Hcreate, Hencode. by rewrite lookup_insert_eq.
Qed.

(** In the faulty organization three repositories fail and the timestamp
    cannot be written; the crawl completes, the Snapshot of "alpha" is
    there, and the three failures have left no file. *)
Lemma failure_isolation_witness :
  ∃ st' d,
    runCrawl 5 faulty_os faulty_client "org" 0 initial = Done () st' ∧
    files st' !! "data/alpha.json" = Some (Encoded (DataRepository d)) ∧
    Name d = "alpha" ∧
    files st' !! "data/beta.json" = None ∧
    files st' !! "data/gamma.json" = None ∧
    files st' !! "data/delta.json" = None ∧
    timestamp_event faulty_os = WarnTimestamp "permission denied".
Proof.
  destruct (failure_isolation 5 faulty_os faulty_client "org" 0 faulty_repos
              initial)
    as (_ & _ & st' & Hrun & _ & Hkeep & Hother & Hwarn & _).
  - done.
  - reflexivity.
  - reflexivity.
  - repeat constructor; vm_compute; tauto.
  - apply (bool_decide_unpack _). vm_compute. exact I.
  - eexists st', _. split; [exact Hrun|].
    split; [|split; [|split; [|split; [|split]]]].
    + apply (Hkeep {| github.Name := Some "alpha";
                      github.DefaultBranch := Some "main"; HTMLURL := None |}).
      * apply list_elem_of_here.
      * done.
      * reflexivity.
    + reflexivity.
    + rewrite Hother by done. reflexivity.
    + rewrite Hother by done. reflexivity.
    + rewrite Hother by done. reflexivity.
    + apply (Hwarn "permission denied"). reflexivity.
Defined.

(** C7. The claim fails on an organization with a repository named
    "timestamp".  The loop writes its Snapshot to data/timestamp.json, prints
    the saved line and counts it as processed; the write of the crawl
    timestamp, to the same path, then replaces that Snapshot.  On a disk
    that fills up in between, the failed write of the timestamp is only a
    warning and leaves the Snapshot cut short. *)
Lemma timestamp_write_replaces_snapshot :
  ∃ d,
    outcome 5 sample_os colliding_client "org" timestamp_repo = Persisted d ∧
    outcome 5 full_disk_os colliding_client "org" timestamp_repo = Persisted d ∧
    Name d = "timestamp" ∧ len (UnreleasedCommits d) = 1 ∧
    snapshotFile timestamp_repo = "data/timestamp.json" ∧
    (∃ st1 st',
       listPublicRepos 5 colliding_client "org" 0 = Some (Ok colliding_repos) ∧
       runCrawl_loop 5 sample_os colliding_client "org" 2 0 colliding_repos 0
         {| files := ∅;
            output := [FetchingRepositories "org"; FoundRepositories 2] |}
       = Done 2 st1 ∧
       files st1 !! "data/timestamp.json" = Some (Encoded (DataRepository d)) ∧
       runCrawl 5 sample_os colliding_client "org" 0 initial = Done () st' ∧
       output st'
       = [FetchingRepositories "org"; FoundRepositories 2;
          Processing 1 2 "alpha"; LatestRelease "v1" 500;
          Saved 0 "data/alpha.json";
          Processing 2 2 "timestamp"; LatestRelease "v1" 500;
          Saved 1 "data/timestamp.json";
          RecordedTimestamp 9000; CrawlComplete 2] ∧
       files st' !! "data/timestamp.json"
       = Some (Encoded (DataTimestamp {| LastCrawled := 9000 |}))) ∧
    (∃ st1 st',
       runCrawl_loop 5 full_disk_os colliding_client "org" 2 0 colliding_repos 0
         {| files := ∅;
            output := [FetchingRepositories "org"; FoundRepositories 2] |}
       = Done 2 st1 ∧
       files st1 !! "data/timestamp.json" = Some (Encoded (DataRepository d)) ∧
       runCrawl 5 full_disk_os colliding_client "org" 0 initial = Done () st' ∧
       output st'
       = [FetchingRepositories "org"; FoundRepositories 2;
          Processing 1 2 "alpha"; LatestRelease "v1" 500;
          Saved 0 "data/alpha.json";
          Processing 2 2 "timestamp"; LatestRelease "v1" 500;
          Saved 1 "data/timestamp.json";
          WarnTimestamp "no space left on device"; CrawlComplete 2] ∧
       files st' !! "data/timestamp.json" = Some Truncated).
Proof.
  eexists. split; [vm_compute; reflexivity|].
  do 4 (split; [vm_compute; reflexivity|]).
  split.
  - do 2 eexists. do 5 (split; [vm_compute; reflexivity|]).
    vm_compute. reflexivity.
  - do 2 eexists. do 4 (split; [vm_compute; reflexivity|]).
    vm_compute. reflexivity.
Qed.

(** ** The summary line *)

Lemma first_halt fuel os client owner (repos : list Repository) :
  Forall (λ repo, ¬ halts (outcome fuel os client owner repo)) repos ∨
  ∃ before repo after h,
    repos = before ++ repo :: after ∧
    Forall (λ repo, ¬ halts (outcome fuel os client owner repo)) before ∧
    outcome fuel os client owner repo = Halted h.
Proof.
  induction repos as [|repo repos IH]; [by left|].
  destruct (outcome fuel os client owner repo) as [| | | | |h] eqn:Ho.
  6:{ right. exists [], repo, repos, h.
      split; [done | split; [constructor | done]]. }
  all: destruct IH as [IH|(before & r & after & h & -> & Hbefore & Hr)];
    [ left; constructor; [rewrite Ho; by intros [] | done]
    | right; exists (repo :: before), r, after, h;
      split; [done | split; [constructor; [rewrite Ho; by intros [] | done] | done]] ].
Qed.

Lemma timestamp_event_counts (os : OS) :
  skipped_count [timestamp_event os] = 0%nat ∧
  saved_count [timestamp_event os] = 0%nat.
Proof.
  unfold timestamp_event. destruct (Create os timestampFile); [done|].
  by destruct (Encode os timestampFile _).
Qed.

Lemma crawl_output_shape (out events : list Event) (e1 e2 e3 e4 : Event) :
  skipped_count [e1; e2; e3; e4] = 0%nat →
  saved_count [e1; e2; e3; e4] = 0%nat →
  last (out ++ [e1; e2] ++ events ++ [e3; e4]) = Some e4 ∧
  saved_count (out ++ [e1; e2] ++ events ++ [e3; e4])
  = (saved_count out + saved_count events)%nat ∧
  skipped_count (out ++ [e1; e2] ++ events ++ [e3; e4])
  = (skipped_count out + skipped_count events)%nat.
Proof.
  intros Hskip Hsave. split; [| split].
  - replace (out ++ [e1; e2] ++ events ++ [e3; e4])
      with ((out ++ [e1; e2] ++ events ++ [e3]) ++ [e4])
      by (by rewrite <- !app_assoc).
    apply last_snoc.
  - change [e1; e2; e3; e4] with ([e1; e2] ++ [e3; e4]) in Hsave.
    rewrite saved_count_app in Hsave. rewrite !saved_count_app. lia.
  - change [e1; e2; e3; e4] with ([e1; e2] ++ [e3; e4]) in Hskip.
    rewrite skipped_count_app in Hskip. rewrite !skipped_count_app. lia.
Qed.

(** C9. Every crawl that reaches its end prints as its last line the count
    of repositories processed, which is the number of repositories
    persisted and of "saved" lines printed; the skipped repositories have
    one skip line each in the output before it. *)
Theorem summary_reports_processed fuel os client owner limit st st' :
  runCrawl fuel os client owner limit st = Done () st' →
  ∃ repos,
    listPublicRepos fuel client owner limit = Some (Ok repos) ∧
    summary st' = Some (CrawlComplete (loop_count fuel os client owner repos)) ∧
    loop_count fuel os client owner repos
    = Z.of_nat (length (filter
        (λ repo, is_persisted (outcome fuel os client owner repo) = true) repos)) ∧
    saved_count (output st')
    = (saved_count (output st) + length (filter
        (λ repo, is_persisted (outcome fuel os client owner repo) = true) repos))%nat ∧
    skipped_count (output st')
    = (skipped_count (output st) + length (filter
        (λ repo, is_skipped (outcome fuel os client owner repo) = true) repos))%nat.
Proof.
  intros Hrun.
  destruct (decide (GITHUB_TOKEN os = "")) as [Htoken|Htoken].
  { unfold runCrawl in Hrun. by rewrite bool_decide_eq_true_2 in Hrun. }
  destruct (MkdirAll os outputDir) as [err|] eqn:Hmkdir.
  { unfold runCrawl in Hrun. rewrite bool_decide_eq_false_2 in Hrun by done.
    unfold mbind, M_bind, print at 1 in Hrun. by rewrite Hmkdir in Hrun. }
  destruct (listPublicRepos fuel client owner limit) as [[repos|err]|] eqn:Hlist;
    try (unfold runCrawl in Hrun;
         rewrite bool_decide_eq_false_2 in Hrun by done;
         unfold mbind, M_bind, print at 1 in Hrun;
         by rewrite Hmkdir, Hlist in Hrun).
  exists repos. split; [done|].
  destruct (first_halt fuel os client owner repos)
    as [Hok|(before & repo & after & h & -> & Hbefore & Hh)].
  2:{ unfold runCrawl in Hrun. rewrite bool_decide_eq_false_2 in Hrun by done.
      unfold mbind, M_bind, print at 1 in Hrun. rewrite Hmkdir, Hlist in Hrun.
      unfold print at 1 in Hrun.
      edestruct (runCrawl_loop_halts fuel os client owner) as (st1 & Hstop & _);
        [exact Hbefore | exact Hh |].
      by rewrite Hstop in Hrun. }
  rewrite (runCrawl_completes _ _ _ _ _ repos) in Hrun by done.
  injection Hrun as <-. unfold summary. cbn [output].
  destruct (loop_events_counts fuel os client owner (len repos) repos 0)
    as (Hskip & Hsave & Hcount).
  destruct (timestamp_event_counts os) as [Htskip Htsave].
  destruct (crawl_output_shape (output st)
              (loop_events fuel os client owner (len repos) 0 repos)
              (FetchingRepositories owner) (FoundRepositories (len repos))
              (timestamp_event os)
              (CrawlComplete (loop_count fuel os client owner repos)))
    as (Hlast & Hsaved & Hskipped).
  { unfold skipped_count in *. rewrite !filter_cons in *. simpl in *. lia. }
  { unfold saved_count in *. rewrite !filter_cons in *. simpl in *. lia. }
  split; [exact Hlast | split; [| split]].
  - by rewrite Hcount, Hsave.
  - by rewrite <- Hsave.
  - by rewrite <- Hskip.
Qed.

(** The sample crawl ends with "processed 2"; "beta" was skipped and has no
    share in that line. *)
Lemma summary_reports_processed_witness :
  ∃ st', runCrawl 5 sample_os sample_client "org" 0 initial = Done () st' ∧
         summary st' = Some (CrawlComplete 2) ∧
         skipped_count (output st') = 1%nat.
Proof.
  set (st' := match runCrawl 5 sample_os sample_client "org" 0 initial with
              | Done _ s | Stop _ s => s
              end).
  assert (runCrawl 5 sample_os sample_client "org" 0 initial = Done () st')
    as Hrun by (vm_compute; reflexivity).
  exists st'. split; [exact Hrun|].
  destruct (summary_reports_processed 5 sample_os sample_client "org" 0 initial
              st' Hrun) as (repos & Hlist & Hsummary & _ & _ & Hskipped).
  vm_compute in Hlist. injection Hlist as <-.
  split; [exact Hsummary | exact Hskipped].
Defined.

(** The summary line does not tell how many repositories were skipped: an
    organization without repositories and one whose only repository has no
    release end with the same line. *)
Lemma summary_omits_skips : ¬ summary_reports_skips.
Proof.
  intros [f Hf].
  set (run0 := runCrawl 3 sample_os (simulated [] []) "org" 0 initial).
  set (run1 := runCrawl 3 sample_os (simulated [repo_named 1] []) "org" 0 initial).
  set (st0 := match run0 with Done _ s | Stop _ s => s end).
  set (st1 := match run1 with Done _ s | Stop _ s => s end).
  assert (run0 = Done () st0) as H0 by (vm_compute; reflexivity).
  assert (run1 = Done () st1) as H1 by (vm_compute; reflexivity).
  apply Hf in H0. apply Hf in H1.
  vm_compute in H0, H1. congruence.
Qed.

(** * Further properties of the code *)

(** ** listPublicRepos and compareAllCommits against any remote *)

Section AnyRemote.
Context (client : Client) (owner : string).

Lemma listPublicRepos_loop_at_most (limit : Z) :
  0 < limit →
  ∀ fuel acc opt res,
    len acc < limit →
    listPublicRepos_loop fuel client owner limit acc opt = Some (Ok res) →
    len res <= limit.
Proof.
  intros Hlimit. induction fuel as [|fuel IH]; intros acc opt res Hacc; [done|].
  cbn [listPublicRepos_loop].
  destruct (ListByOrg client owner opt) as [[repos resp]|err]; [|done].
  rewrite (bool_decide_eq_true_2 (limit > 0)) by lia. cbn [andb].
  destruct (decide (len (acc ++ repos) >= limit)) as [Hreach|Hreach].
  - rewrite bool_decide_eq_true_2 by done. intros [= <-].
    unfold len in *. rewrite length_take. lia.
  - rewrite bool_decide_eq_false_2 by done.
    destruct (bool_decide (NextPage resp = 0%nat)).
    + intros [= <-]. lia.
    + apply IH. lia.
Qed.

Lemma listPublicRepos_loop_nonpositive (limit : Z) :
  limit <= 0 →
  ∀ fuel acc opt,
    listPublicRepos_loop fuel client owner limit acc opt
    = listPublicRepos_loop fuel client owner 0 acc opt.
Proof.
  intros Hlimit. induction fuel as [|fuel IH]; intros acc opt; [done|].
  cbn [listPublicRepos_loop].
  destruct (ListByOrg client owner opt) as [[repos resp]|err]; [|done].
  rewrite (bool_decide_eq_false_2 (limit > 0)) by lia.
  rewrite (bool_decide_eq_false_2 (0 > 0)) by lia. cbn [andb].
  destruct (bool_decide (NextPage resp = 0%nat)); [done | apply IH].
Qed.

(** Pages that are never empty: every request brings the count closer to
    the limit. *)
Lemma listPublicRepos_loop_limit_ends (limit : Z) :
  0 < limit →
  (∀ opt, ∃ repos resp,
     ListByOrg client owner opt = Ok (repos, resp) ∧ repos ≠ []) →
  ∀ fuel acc opt,
    len acc < limit → limit - len acc <= Z.of_nat fuel →
    ∃ res, listPublicRepos_loop fuel client owner limit acc opt = Some (Ok res).
Proof.
  intros Hlimit Hpages. induction fuel as [|fuel IH]; intros acc opt Hacc Hfuel.
  { lia. }
  cbn [listPublicRepos_loop].
  destruct (Hpages opt) as (repos & resp & -> & Hrepos).
  rewrite (bool_decide_eq_true_2 (limit > 0)) by lia. cbn [andb].
  destruct (decide (len (acc ++ repos) >= limit)) as [Hreach|Hreach].
  - rewrite bool_decide_eq_true_2 by done. by eexists.
  - rewrite bool_decide_eq_false_2 by done.
    destruct (bool_decide (NextPage resp = 0%nat)); [by eexists|].
    assert (len acc < len (acc ++ repos)).
    { unfold len. rewrite length_app. destruct repos; [done | simpl; lia]. }
    apply IH; lia.
Qed.

End AnyRemote.

(** X1. With a positive limit listPublicRepos never returns more than
    [limit] repositories, whatever the remote serves. *)
Theorem listPublicRepos_at_most_limit fuel client owner (limit : Z) res :
  0 < limit →
  listPublicRepos fuel client owner limit = Some (Ok res) →
  len res <= limit.
Proof.
  intros Hlimit. unfold listPublicRepos.
  apply listPublicRepos_loop_at_most; [done | unfold len; simpl; lia].
Qed.

Lemma listPublicRepos_at_most_limit_witness :
  len (take 150 (repo_named <$> seq 0 250)) <= 150.
Proof.
  apply (listPublicRepos_at_most_limit 3
           (simulated (repo_named <$> seq 0 250) []) "org" 150).
  - lia.
  - vm_compute. reflexivity.
Defined.

(** X2. A limit that is zero or negative is no limit: the run is the run
    with limit 0. *)
Theorem listPublicRepos_nonpositive_limit fuel client owner (limit : Z) :
  limit <= 0 →
  listPublicRepos fuel client owner limit = listPublicRepos fuel client owner 0.
Proof. intros Hlimit. by apply listPublicRepos_loop_nonpositive. Qed.

Lemma listPublicRepos_nonpositive_limit_witness :
  listPublicRepos 3 (simulated (repo_named <$> seq 0 250) []) "org" (-5)
  = listPublicRepos 3 (simulated (repo_named <$> seq 0 250) []) "org" 0.
Proof.
  apply (listPublicRepos_nonpositive_limit 3
           (simulated (repo_named <$> seq 0 250) []) "org" (-5)).
  lia.
Defined.

(** X3. A limit at least as large as the number of repositories the
    unlimited run returns changes nothing: the limited run returns them
    all. *)
Theorem listPublicRepos_limit_beyond_total fuel client owner
    (all : list Repository) (k : Z) :
  listPublicRepos fuel client owner 0 = Some (Ok all) →
  0 < k → len all <= k →
  listPublicRepos fuel client owner k = Some (Ok all).
Proof.
  intros Hall Hk Hge. unfold listPublicRepos in *.
  rewrite (listPublicRepos_loop_limit client owner k Hk fuel [] _ all);
    [| unfold len; simpl; lia | done].
  unfold len in Hge. by rewrite take_ge by lia.
Qed.

Lemma listPublicRepos_limit_beyond_total_witness :
  listPublicRepos 3 (simulated (repo_named <$> seq 0 250) []) "org" 250
  = Some (Ok (repo_named <$> seq 0 250)).
Proof.
  apply (listPublicRepos_limit_beyond_total 3
           (simulated (repo_named <$> seq 0 250) []) "org"
           (repo_named <$> seq 0 250) 250).
  - vm_compute. reflexivity.
  - lia.
  - vm_compute. discriminate.
Defined.

(** X4. With a positive limit and a remote whose pages are never empty,
    listPublicRepos returns within [limit] requests, even when the remote
    never reports a last page. *)
Theorem listPublicRepos_limit_bounds_requests fuel client owner (limit : Z) :
  0 < limit →
  (∀ opt, ∃ repos resp,
     ListByOrg client owner opt = Ok (repos, resp) ∧ repos ≠ []) →
  limit <= Z.of_nat fuel →
  ∃ res, listPublicRepos fuel client owner limit = Some (Ok res) ∧
         len res <= limit.
Proof.
  intros Hlimit Hpages Hfuel.
  destruct (listPublicRepos_loop_limit_ends client owner limit Hlimit Hpages
              fuel [] {| Type_ := "public";
                         ListOptions_ := {| Page := 0; PerPage := 100 |} |})
    as [res Hres]; [unfold len; simpl; lia.. |].
  exists res. split; [exact Hres|].
  eapply listPublicRepos_loop_at_most; [exact Hlimit | | exact Hres].
  unfold len; simpl; lia.
Qed.

Lemma listPublicRepos_limit_bounds_requests_witness :
  ∃ res, listPublicRepos 3 endless "org" 3 = Some (Ok res) ∧ len res <= 3.
Proof.
  apply (listPublicRepos_limit_bounds_requests 3 endless "org" 3).
  - lia.
  - intros opt. eexists _, _. split; [reflexivity|].
    destruct (Nat.max 1 (PerPage (ListOptions_ opt))) eqn:Hmax; [lia | done].
  - lia.
Defined.

Lemma compareAllCommits_loop_endless client owner repo base head :
  (∀ opt, ∃ comp resp,
     CompareCommits client owner repo base head opt = Ok (comp, resp) ∧
     NextPage resp ≠ 0%nat ∧ (PerPage opt ≤ length (Commits comp))%nat) →
  ∀ fuel perPage acc page,
    compareAllCommits_loop fuel client owner repo base head perPage acc page
    = None.
Proof.
  intros Hpages. induction fuel as [|fuel IH]; intros perPage acc page; [done|].
  cbn [compareAllCommits_loop].
  destruct (Hpages {| Page := page; PerPage := perPage |})
    as (comp & resp & -> & Hnext & Hfull).
  cbn [PerPage] in Hfull.
  rewrite (bool_decide_eq_false_2 _ Hnext).
  rewrite bool_decide_eq_false_2 by lia. cbn [orb]. apply IH.
Qed.

Lemma listPublicRepos_loop_endless client owner (limit : Z) :
  limit <= 0 →
  (∀ opt, ∃ repos resp,
     ListByOrg client owner opt = Ok (repos, resp) ∧ NextPage resp ≠ 0%nat) →
  ∀ fuel acc opt, listPublicRepos_loop fuel client owner limit acc opt = None.
Proof.
  intros Hlimit Hpages. induction fuel as [|fuel IH]; intros acc opt; [done|].
  cbn [listPublicRepos_loop].
  destruct (Hpages opt) as (repos & resp & -> & Hnext).
  rewrite (bool_decide_eq_false_2 (limit > 0)) by lia. cbn [andb].
  rewrite (bool_decide_eq_false_2 _ Hnext). apply IH.
Qed.

(** X5. Neither loop has a bound of its own: against a remote that always
    reports a next page (and, for the comparison, always fills the page),
    compareAllCommits and listPublicRepos without a limit never return,
    however many requests they are allowed. *)
Theorem pagination_never_returns client owner repo base head (limit : Z) :
  (∀ opt, ∃ comp resp,
     CompareCommits client owner repo base head opt = Ok (comp, resp) ∧
     NextPage resp ≠ 0%nat ∧ (PerPage opt ≤ length (Commits comp))%nat) →
  (∀ opt, ∃ repos resp,
     ListByOrg client owner opt = Ok (repos, resp) ∧ NextPage resp ≠ 0%nat) →
  limit <= 0 →
  ∀ fuel,
    compareAllCommits fuel client owner repo base head = None ∧
    listPublicRepos fuel client owner limit = None.
Proof.
  intros Hcommits Hrepos Hlimit fuel. split.
  - by apply compareAllCommits_loop_endless.
  - by apply listPublicRepos_loop_endless.
Qed.

Lemma pagination_never_returns_witness :
  compareAllCommits 1000 endless "org" "repo" "v1" "main" = None ∧
  listPublicRepos 1000 endless "org" 0 = None.
Proof.
  apply (pagination_never_returns endless "org" "repo" "v1" "main" 0).
  - intros opt. eexists _, _. split; [reflexivity|]. split; [done|].
    cbn [Commits]. rewrite length_fmap, length_seq. lia.
  - intros opt. eexists _, _. split; [reflexivity | done].
  - lia.
Defined.

Lemma compareAllCommits_loop_fails_at client owner repo base head
    (commits : list RepositoryCommit) (j P : nat) (err : error) :
  (0 < P)%nat → ((j - 1) * P < length commits)%nat →
  (∀ opt, (Page opt < j)%nat →
     CompareCommits client owner repo base head opt
     = Ok ({| Commits := (page_of (PerPage opt) commits (Page opt)).1 |},
           (page_of (PerPage opt) commits (Page opt)).2)) →
  (∀ opt, Page opt = j →
     CompareCommits client owner repo base head opt = Err err) →
  ∀ fuel acc p,
    (1 ≤ p ≤ j)%nat → (j - p < fuel)%nat →
    compareAllCommits_loop fuel client owner repo base head P acc p
    = Some (Err err).
Proof.
  intros HP Hlen Hgood Hbad.
  induction fuel as [|fuel IH]; intros acc p Hp Hfuel; [lia|].
  cbn [compareAllCommits_loop].
  destruct (decide (p = j)) as [->|Hne].
  { by rewrite Hbad. }
  rewrite Hgood by (cbn [Page]; lia). cbn [Page PerPage].
  destruct (page_of_more P commits p) as (-> & _ & Hfull); [lia | |].
  { rewrite length_drop. nia. }
  cbn [fst snd Commits NextPage]. rewrite Hfull.
  rewrite (bool_decide_eq_false_2 (S p = 0)%nat) by done.
  rewrite (bool_decide_eq_false_2 (P < P)%nat) by lia. cbn [orb].
  apply IH; lia.
Qed.

(** X6. The collection is all or nothing: when the remote serves the pages
    before page [j] and fails on the request for page [j], compareAllCommits
    returns that error and none of the commits of the earlier pages. *)
Theorem compareAllCommits_error_discards_pages fuel client owner repo base head
    (commits : list RepositoryCommit) (j : nat) (err : error) :
  (1 ≤ j)%nat → ((j - 1) * 100 < length commits)%nat →
  (∀ opt, (Page opt < j)%nat →
     CompareCommits client owner repo base head opt
     = Ok ({| Commits := (page_of (PerPage opt) commits (Page opt)).1 |},
           (page_of (PerPage opt) commits (Page opt)).2)) →
  (∀ opt, Page opt = j →
     CompareCommits client owner repo base head opt = Err err) →
  (j ≤ fuel)%nat →
  compareAllCommits fuel client owner repo base head = Some (Err err).
Proof.
  intros Hj Hlen Hgood Hbad Hfuel. unfold compareAllCommits.
  eapply compareAllCommits_loop_fails_at; [| exact Hlen | exact Hgood | exact Hbad | |];
    lia.
Qed.

(** 250 commits, the third page fails: the 200 commits of the first two
    pages are dropped. *)
Lemma compareAllCommits_error_discards_pages_witness :
  compareAllCommits 3
    (failing_at 3 "502 Bad Gateway" (commit_numbered <$> seq 0 250))
    "org" "repo" "v1" "main"
  = Some (Err "502 Bad Gateway").
Proof.
  apply (compareAllCommits_error_discards_pages 3
           (failing_at 3 "502 Bad Gateway" (commit_numbered <$> seq 0 250))
           "org" "repo" "v1" "main" (commit_numbered <$> seq 0 250) 3).
  - lia.
  - rewrite length_fmap, length_seq. lia.
  - intros opt Hpage. cbn [failing_at CompareCommits].
    rewrite bool_decide_eq_false_2 by lia. reflexivity.
  - intros opt Hpage. cbn [failing_at CompareCommits].
    by rewrite bool_decide_eq_true_2.
  - lia.
Defined.

(** ** The crawl: every way it can end *)

Section CrawlEnds.
Context (fuel : nat) (os : OS) (client : Client) (owner : string) (limit : Z).

Lemma runCrawl_no_token st :
  GITHUB_TOKEN os = "" →
  runCrawl fuel os client owner limit st
  = Stop (Fatal "GITHUB_TOKEN environment variable is required") st.
Proof. intros Htoken. unfold runCrawl. by rewrite bool_decide_eq_true_2. Qed.

Lemma runCrawl_no_directory st err :
  GITHUB_TOKEN os ≠ "" → MkdirAll os outputDir = Some err →
  runCrawl fuel os client owner limit st
  = Stop (Fatal ("Failed to create output directory: " +:+ err))
      {| files := files st; output := output st ++ [FetchingRepositories owner] |}.
Proof.
  intros Htoken Hmkdir. unfold runCrawl.
  rewrite bool_decide_eq_false_2 by done.
  unfold mbind, M_bind, print. by rewrite Hmkdir.
Qed.

Lemma runCrawl_no_listing st :
  GITHUB_TOKEN os ≠ "" → MkdirAll os outputDir = None →
  (∀ err, listPublicRepos fuel client owner limit = Some (Err err) →
     runCrawl fuel os client owner limit st
     = Stop (Fatal ("Failed to list repositories: " +:+ err))
         {| files := files st;
            output := output st ++ [FetchingRepositories owner] |}) ∧
  (listPublicRepos fuel client owner limit = None →
     runCrawl fuel os client owner limit st
     = Stop OutOfFuel
         {| files := files st;
            output := output st ++ [FetchingRepositories owner] |}).
Proof.
  intros Htoken Hmkdir.
  split; [intros err Hlist | intros Hlist]; unfold runCrawl;
    rewrite bool_decide_eq_false_2 by done;
    unfold mbind, M_bind, print; by rewrite Hmkdir, Hlist.
Qed.

Lemma runCrawl_halts st before repo after h :
  GITHUB_TOKEN os ≠ "" → MkdirAll os outputDir = None →
  listPublicRepos fuel client owner limit = Some (Ok (before ++ repo :: after)) →
  Forall (λ repo, ¬ halts (outcome fuel os client owner repo)) before →
  outcome fuel os client owner repo = Halted h →
  ∃ st', runCrawl fuel os client owner limit st = Stop h st' ∧
         files st' = loop_files fuel os client owner before (files st).
Proof.
  intros Htoken Hmkdir Hlist Hbefore Hh. unfold runCrawl.
  rewrite bool_decide_eq_false_2 by done.
  unfold mbind, M_bind, print at 1. rewrite Hmkdir, Hlist. unfold print at 1.
  edestruct (runCrawl_loop_halts fuel os client owner) as (st1 & -> & Hfiles);
    [exact Hbefore | exact Hh |].
  by exists st1.
Qed.

(** The terminal states that halt are the panic and the endless
    comparison, never a fatal exit. *)
Lemma outcome_never_fatal repo msg :
  outcome fuel os client owner repo ≠ Halted (Fatal msg).
Proof.
  unfold outcome.
  destruct (checkLatestRelease client owner (GetName repo)) as [[|] rel]; [|done].
  destruct (Get client owner (GetName repo)) as [detail|err]; [|done].
  destruct (compareAllCommits fuel client owner (GetName repo) _ _)
    as [[commits|err]|]; [|done..].
  destruct (commitInfos_loop commits []) as [infos|]; [|done].
  destruct (Create os (snapshotFile repo)); [done|].
  by destruct (Encode os (snapshotFile repo) _).
Qed.

(** A crawl that completes has started, enumerated, and met no repository
    that halts the process. *)
Lemma runCrawl_Done_inv st st' :
  runCrawl fuel os client owner limit st = Done () st' →
  GITHUB_TOKEN os ≠ "" ∧ MkdirAll os outputDir = None ∧
  ∃ repos,
    listPublicRepos fuel client owner limit = Some (Ok repos) ∧
    Forall (λ repo, ¬ halts (outcome fuel os client owner repo)) repos ∧
    files st'
    = timestamp_files os (loop_files fuel os client owner repos (files st)) ∧
    output st'
    = output st
      ++ [FetchingRepositories owner; FoundRepositories (len repos)]
      ++ loop_events fuel os client owner (len repos) 0 repos
      ++ [timestamp_event os;
          CrawlComplete (loop_count fuel os client owner repos)].
Proof.
  intros Hrun.
  destruct (decide (GITHUB_TOKEN os = "")) as [Htoken|Htoken].
  { by rewrite runCrawl_no_token in Hrun. }
  destruct (MkdirAll os outputDir) as [err|] eqn:Hmkdir.
  { by rewrite (runCrawl_no_directory _ err) in Hrun. }
  destruct (runCrawl_no_listing st Htoken Hmkdir) as [Herr Hnone].
  destruct (listPublicRepos fuel client owner limit) as [[repos|err]|] eqn:Hlist.
  2:{ by rewrite (Herr err) in Hrun. }
  2:{ by rewrite Hnone in Hrun. }
  destruct (first_halt fuel os client owner repos)
    as [Hok|(before & repo & after & h & -> & Hbefore & Hh)].
  2:{ destruct (runCrawl_halts st before repo after h) as (st1 & Hstop & _);
        try done. by rewrite Hstop in Hrun. }
  rewrite (runCrawl_completes _ _ _ _ _ repos) in Hrun by done.
  injection Hrun as <-. repeat split; try done. by exists repos.
Qed.

End CrawlEnds.

Lemma commitInfos_loop_None (commits : list RepositoryCommit) :
  ∀ acc, commitInfos_loop commits acc = None →
         Exists (λ c, Commit_ c = None) commits.
Proof.
  induction commits as [|c commits IH]; intros acc; [done|].
  cbn [commitInfos_loop]. unfold commitInfo at 1.
  destruct (Commit_ c) as [cm|] eqn:Hc.
  - intros Hrest. apply Exists_cons_tl. by eapply IH.
  - intros _. by apply Exists_cons_hd.
Qed.

(** X7. A fatal exit of the crawl (no token, no output directory, a failed
    enumeration) comes before any repository is processed: no file is
    written, not even the timestamp, and at most the first line is
    printed. *)
Theorem fatal_exit_writes_nothing fuel os client owner limit st msg st' :
  runCrawl fuel os client owner limit st = Stop (Fatal msg) st' →
  files st' = files st ∧
  (output st' = output st ∨
   output st' = output st ++ [FetchingRepositories owner]).
Proof.
  intros Hrun.
  destruct (decide (GITHUB_TOKEN os = "")) as [Htoken|Htoken].
  { rewrite runCrawl_no_token in Hrun by done. injection Hrun as _ <-. auto. }
  destruct (MkdirAll os outputDir) as [err|] eqn:Hmkdir.
  { rewrite (runCrawl_no_directory _ _ _ _ _ _ err) in Hrun by done.
    injection Hrun as _ <-. auto. }
  destruct (runCrawl_no_listing fuel os client owner limit st Htoken Hmkdir)
    as [Herr Hnone].
  destruct (listPublicRepos fuel client owner limit) as [[repos|err]|] eqn:Hlist.
  - destruct (first_halt fuel os client owner repos)
      as [Hok|(before & repo & after & h & -> & Hbefore & Hh)].
    + by rewrite (runCrawl_completes _ _ _ _ _ repos) in Hrun.
    + destruct (runCrawl_halts fuel os client owner limit st before repo after h)
        as (st1 & Hstop & _); try done.
      rewrite Hstop in Hrun. injection Hrun as -> _.
      by apply outcome_never_fatal in Hh.
  - rewrite (Herr err) in Hrun by done. injection Hrun as _ <-. auto.
  - by rewrite Hnone in Hrun.
Qed.

(** The listing of the endless remote cannot fail; a remote whose listing
    fails is the faulty one with its first call replaced. *)
Lemma fatal_exit_writes_nothing_witness :
  files (final (runCrawl 5 sample_os
                  {| ListByOrg := λ _ _, Err "401 Unauthorized";
                     GetLatestRelease := GetLatestRelease sample_client;
                     Get := Get sample_client;
                     CompareCommits := CompareCommits sample_client |}
                  "org" 0 initial))
  = ∅.
Proof.
  set (client := {| ListByOrg := λ _ _, Err "401 Unauthorized";
                    GetLatestRelease := GetLatestRelease sample_client;
                    Get := Get sample_client;
                    CompareCommits := CompareCommits sample_client |}).
  set (st' := final (runCrawl 5 sample_os client "org" 0 initial)).
  assert (runCrawl 5 sample_os client "org" 0 initial
          = Stop (Fatal "Failed to list repositories: 401 Unauthorized") st')
    as Hrun by (vm_compute; reflexivity).
  by destruct (fatal_exit_writes_nothing _ _ _ _ _ _ _ _ Hrun) as [-> _].
Defined.

(** X8. A panic while the records of a repository are built stops the crawl
    there: the repositories enumerated before it have been processed and
    their files are as the loop left them, nothing is written for the
    panicking repository or for those after it, and the collected commits of
    the panicking repository include one without embedded metadata. *)
Theorem panic_keeps_earlier_snapshots fuel os client owner limit st st' :
  runCrawl fuel os client owner limit st = Stop Panic st' →
  ∃ before repo after rel detail commits,
    listPublicRepos fuel client owner limit = Some (Ok (before ++ repo :: after)) ∧
    checkLatestRelease client owner (GetName repo) = (true, rel) ∧
    Get client owner (GetName repo) = Ok detail ∧
    compareAllCommits fuel client owner (GetName repo)
      (GetTagName rel) (GetDefaultBranch detail) = Some (Ok commits) ∧
    Exists (λ c, Commit_ c = None) commits ∧
    files st' = loop_files fuel os client owner before (files st) ∧
    (∀ f, Forall (λ r, snapshotFile r ≠ f) before →
          files st' !! f = files st !! f).
Proof.
  intros Hrun.
  destruct (decide (GITHUB_TOKEN os = "")) as [Htoken|Htoken].
  { by rewrite runCrawl_no_token in Hrun. }
  destruct (MkdirAll os outputDir) as [err|] eqn:Hmkdir.
  { by rewrite (runCrawl_no_directory _ _ _ _ _ _ err) in Hrun. }
  destruct (runCrawl_no_listing fuel os client owner limit st Htoken Hmkdir)
    as [Herr Hnone].
  destruct (listPublicRepos fuel client owner limit) as [[repos|err]|] eqn:Hlist.
  2:{ by rewrite (Herr err) in Hrun. }
  2:{ by rewrite Hnone in Hrun. }
  destruct (first_halt fuel os client owner repos)
    as [Hok|(before & repo & after & h & -> & Hbefore & Hh)].
  { by rewrite (runCrawl_completes _ _ _ _ _ repos) in Hrun. }
  destruct (runCrawl_halts fuel os client owner limit st before repo after h)
    as (st1 & Hstop & Hfiles); try done.
  rewrite Hstop in Hrun. injection Hrun as -> ->.
  assert (halts (outcome fuel os client owner repo)) as Hhalts by (by rewrite Hh).
  apply outcome_halts in Hhalts
    as (rel & detail & Hrel & Hget & [Hnone'|(commits & Hcmp & Hpanic)]).
  { unfold outcome in Hh. by rewrite Hrel, Hget, Hnone' in Hh. }
  exists before, repo, after, rel, detail, commits.
  split; [done|]. split; [done|]. split; [done|]. split; [done|].
  split; [by apply (commitInfos_loop_None commits []) | split; [done|]].
  intros f Hf. rewrite Hfiles. by apply loop_files_other.
Qed.

Lemma panic_keeps_earlier_snapshots_witness :
  ∃ st', runCrawl 5 sample_os panicking_client "org" 0 initial = Stop Panic st' ∧
         is_Some (files st' !! "data/alpha.json") ∧
         files st' !! "data/broken.json" = None ∧
         files st' !! "data/gamma.json" = None ∧
         files st' !! "data/timestamp.json" = None.
Proof.
  set (st' := final (runCrawl 5 sample_os panicking_client "org" 0 initial)).
  assert (runCrawl 5 sample_os panicking_client "org" 0 initial = Stop Panic st')
    as Hrun by (vm_compute; reflexivity).
  exists st'. split; [exact Hrun|].
  destruct (panic_keeps_earlier_snapshots _ _ _ _ _ _ _ Hrun)
    as (before & repo & after & _ & _ & _ & _ & _ & _ & _ & _ & _).
  vm_compute. repeat split; [by eexists | done..].
Defined.

(** ** What a persisted Snapshot holds *)

(** X9. The author of a record is never the empty string. *)
Theorem author_never_empty (c : RepositoryCommit) : author c ≠ "".
Proof.
  unfold author.
  destruct (decide (github.Author c ≠ None)) as [Hauthor|Hauthor];
    destruct (decide (GetLogin (github.Author c) ≠ "")) as [Hlogin|Hlogin];
    rewrite ?(bool_decide_eq_true_2 _ Hauthor), ?(bool_decide_eq_false_2 _ Hauthor),
      ?(bool_decide_eq_true_2 _ Hlogin), ?(bool_decide_eq_false_2 _ Hlogin);
    cbn [andb]; try done.
  all: destruct (Commit_ c) as [cm|]; [|done].
  all: destruct (decide (CommitAuthor_ cm ≠ None)) as [Hca|Hca];
    destruct (decide (GetAuthorName (CommitAuthor_ cm) ≠ "")) as [Hname|Hname];
    rewrite ?(bool_decide_eq_true_2 _ Hca), ?(bool_decide_eq_false_2 _ Hca),
      ?(bool_decide_eq_true_2 _ Hname), ?(bool_decide_eq_false_2 _ Hname);
    cbn [andb]; done.
Qed.

Lemma checkLatestRelease_true client owner repo rel :
  checkLatestRelease client owner repo = (true, rel) → GetTagName rel ≠ "".
Proof.
  unfold checkLatestRelease.
  destruct (GetLatestRelease client owner repo) as [rel' err].
  destruct (bool_decide (err ≠ None)); [done|].
  destruct (bool_decide (rel' = None)); [done|]. cbn [orb].
  case_bool_decide; [done|]. by intros [= <-].
Qed.

Lemma outcome_Persisted_inv fuel os client owner repo d :
  outcome fuel os client owner repo = Persisted d →
  ∃ rel detail commits infos,
    checkLatestRelease client owner (GetName repo) = (true, rel) ∧
    Get client owner (GetName repo) = Ok detail ∧
    compareAllCommits fuel client owner (GetName repo)
      (GetTagName rel) (GetDefaultBranch detail) = Some (Ok commits) ∧
    commitInfos_loop commits [] = Some infos ∧
    Create os (snapshotFile repo) = None ∧
    Encode os (snapshotFile repo) (DataRepository d) = None ∧
    d = {| Owner := owner;
           Name := GetName repo;
           DefaultBranch := GetDefaultBranch detail;
           LatestReleaseTag := GetTagName rel;
           LatestReleaseTime := GetPublishedAt rel;
           UnreleasedCommits := reverse infos;
           RepositoryURL := GetHTMLURL detail |}.
Proof.
  unfold outcome.
  destruct (checkLatestRelease client owner (GetName repo)) as [[|] rel]; [|done].
  destruct (Get client owner (GetName repo)) as [detail|err]; [|done].
  destruct (compareAllCommits fuel client owner (GetName repo) _ _)
    as [[commits|err]|] eqn:Hcmp; [|done..].
  destruct (commitInfos_loop commits []) as [infos|] eqn:Hinfos; [|done].
  destruct (Create os (snapshotFile repo)) eqn:Hcreate; [done|].
  destruct (Encode os (snapshotFile repo) _) eqn:Hencode; [done|].
  intros [= <-]. by exists rel, detail, commits, infos.
Qed.

(** X10. Whenever the loop body counts a repository as processed, the file
    of that repository holds a Snapshot with the owner crawled, the name of
    the repository, a non-empty release tag, and one record per commit the
    comparison returned: the same identifiers and resolved authors, in
    reverse order. *)
Theorem processed_snapshot_shape fuel os client owner n i repo processedCount
    st st' :
  runCrawl_body fuel os client owner n i repo processedCount st
  = Done (processedCount + 1) st' →
  ∃ d rel detail commits,
    files st' !! snapshotFile repo = Some (Encoded (DataRepository d)) ∧
    checkLatestRelease client owner (GetName repo) = (true, rel) ∧
    Get client owner (GetName repo) = Ok detail ∧
    compareAllCommits fuel client owner (GetName repo)
      (GetTagName rel) (GetDefaultBranch detail) = Some (Ok commits) ∧
    Owner d = owner ∧ Name d = GetName repo ∧
    DefaultBranch d = GetDefaultBranch detail ∧
    LatestReleaseTag d = GetTagName rel ∧ LatestReleaseTag d ≠ "" ∧
    LatestReleaseTime d = GetPublishedAt rel ∧
    RepositoryURL d = GetHTMLURL detail ∧
    SHA <$> UnreleasedCommits d = reverse (GetSHA <$> commits) ∧
    Author <$> UnreleasedCommits d = reverse (author <$> commits) ∧
    URL <$> UnreleasedCommits d = reverse (GetCommitHTMLURL <$> commits) ∧
    length (UnreleasedCommits d) = length commits.
Proof.
  rewrite runCrawl_body_outcome. unfold run_outcome.
  destruct (outcome fuel os client owner repo) as [| | | |d|h] eqn:Ho;
    cbn [counted file_effect]; try (intros [= ? _]; lia).
  intros [= <-].
  apply outcome_Persisted_inv in Ho
    as (rel & detail & commits & infos & Hrel & Hget & Hcmp & Hinfos & _ & _ & ->).
  eexists _, rel, detail, commits.
  split; [cbn [files]; by rewrite lookup_insert_eq|].
  cbn [Owner Name DefaultBranch LatestReleaseTag LatestReleaseTime
         UnreleasedCommits RepositoryURL].
  apply commitInfos_loop_Some in Hinfos.
  assert (SHA <$> infos = GetSHA <$> commits ∧
          Author <$> infos = author <$> commits ∧
          URL <$> infos = GetCommitHTMLURL <$> commits ∧
          length infos = length commits) as (Hsha & Hauthor & Hurl & Hlen).
  { clear Hcmp. induction Hinfos as [|c ci commits infos Hci _ IH]; [done|].
    destruct IH as (IH1 & IH2 & IH3 & IH4).
    unfold commitInfo in Hci. destruct (Commit_ c) as [cm|]; [|done].
    injection Hci as <-. rewrite !fmap_cons, IH1, IH2, IH3. cbn. by rewrite IH4. }
  rewrite !fmap_reverse, Hsha, Hauthor, Hurl, length_reverse.
  repeat split; try done. by eapply checkLatestRelease_true.
Qed.

Lemma processed_snapshot_shape_witness :
  ∃ d, files (final (runCrawl_body 5 sample_os sample_client "org" 3 0 alpha 0
                       initial))
         !! "data/alpha.json" = Some (Encoded (DataRepository d)) ∧
       SHA <$> UnreleasedCommits d = ["c3"; "b2"; "a1"] ∧
       Author <$> UnreleasedCommits d = ["unknown"; "Bob"; "alice"].
Proof.
  set (st' := final (runCrawl_body 5 sample_os sample_client "org" 3 0 alpha 0
                       initial)).
  assert (runCrawl_body 5 sample_os sample_client "org" 3 0 alpha 0 initial
          = Done (0 + 1) st') as Hrun by (vm_compute; reflexivity).
  destruct (processed_snapshot_shape _ _ _ _ _ _ _ _ _ _ Hrun)
    as (d & rel & detail & commits & Hfile & _ & _ & Hcmp & _ & _ & _ & _ & _
        & _ & _ & Hsha & Hauthor & _).
  vm_compute in Hcmp. injection Hcmp as <-.
  exists d. split; [exact Hfile | split; [exact Hsha | exact Hauthor]].
Defined.

(** ** The files a crawl touches *)

(** The files after a run, however it ends: untouched, or those left by
    the loop over the repositories processed, with or without the write of
    the timestamp. *)
Lemma runCrawl_files fuel os client owner limit st :
  files (final (runCrawl fuel os client owner limit st)) = files st ∨
  ∃ repos processed,
    listPublicRepos fuel client owner limit = Some (Ok repos) ∧
    processed `prefix_of` repos ∧
    (files (final (runCrawl fuel os client owner limit st))
     = timestamp_files os (loop_files fuel os client owner processed (files st)) ∨
     files (final (runCrawl fuel os client owner limit st))
     = loop_files fuel os client owner processed (files st)).
Proof.
  destruct (decide (GITHUB_TOKEN os = "")) as [Htoken|Htoken].
  { left. by rewrite runCrawl_no_token. }
  destruct (MkdirAll os outputDir) as [err|] eqn:Hmkdir.
  { left. by rewrite (runCrawl_no_directory _ _ _ _ _ _ err). }
  destruct (runCrawl_no_listing fuel os client owner limit st Htoken Hmkdir)
    as [Herr Hnone].
  destruct (listPublicRepos fuel client owner limit) as [[repos|err]|] eqn:Hlist.
  2:{ left. by rewrite (Herr err). }
  2:{ left. by rewrite Hnone. }
  right. exists repos.
  destruct (first_halt fuel os client owner repos)
    as [Hok|(before & repo & after & h & -> & Hbefore & Hh)].
  - exists repos. split; [done|]. split; [done|]. left.
    by rewrite (runCrawl_completes _ _ _ _ _ repos).
  - exists before. split; [done|]. split; [by apply prefix_app_r|]. right.
    destruct (runCrawl_halts fuel os client owner limit st before repo after h)
      as (st1 & -> & Hfiles); done.
Qed.

(** X11. A crawl, however it ends, changes no file other than the
    timestamp file and the files of the repositories it enumerated: a
    Snapshot left by an earlier crawl for a repository that is no longer
    listed stays as it is. *)
Theorem crawl_writes_only_its_files fuel os client owner limit st (f : string) :
  f ≠ timestampFile →
  (∀ repos, listPublicRepos fuel client owner limit = Some (Ok repos) →
            Forall (λ repo, snapshotFile repo ≠ f) repos) →
  files (final (runCrawl fuel os client owner limit st)) !! f = files st !! f.
Proof.
  intros Hts Hnames.
  destruct (runCrawl_files fuel os client owner limit st)
    as [->|(repos & processed & Hlist & [rest ->] & [-> | ->])]; [done | |].
  - rewrite timestamp_files_other by done. apply loop_files_other.
    specialize (Hnames _ Hlist). by apply Forall_app in Hnames as [? _].
  - apply loop_files_other.
    specialize (Hnames _ Hlist). by apply Forall_app in Hnames as [? _].
Qed.

(** The Snapshot of a repository that has left the organization survives
    the next crawl. *)
Lemma crawl_writes_only_its_files_witness :
  files (final (runCrawl 5 sample_os sample_client "org" 0
                  {| files := {[ "data/retired.json" := Truncated ]};
                     output := [] |}))
    !! "data/retired.json" = Some Truncated.
Proof.
  rewrite (crawl_writes_only_its_files 5 sample_os sample_client "org" 0
             {| files := {[ "data/retired.json" := Truncated ]}; output := [] |}
             "data/retired.json").
  - reflexivity.
  - done.
  - intros repos Hlist. vm_compute in Hlist. injection Hlist as <-.
    repeat constructor; done.
Defined.

(** ** Crawling again *)

Lemma loop_files_lookup fuel os client owner (f : string) :
  ∀ repos fs,
    loop_files fuel os client owner repos fs !! f
    = match last_write fuel os client owner repos f with
      | Some file => Some file
      | None => fs !! f
      end.
Proof.
  induction repos as [|repo repos IH]; intros fs; [done|].
  cbn [loop_files last_write]. rewrite IH.
  destruct (last_write fuel os client owner repos f); [done|].
  case_bool_decide as Hf.
  - subst f. by destruct (outcome fuel os client owner repo) as [| | |? [|]| |];
      cbn [file_effect written]; rewrite ?lookup_insert_eq.
  - by apply file_effect_other.
Qed.

Lemma outcome_same_disk fuel os1 os2 client owner repo :
  (∀ f, Create os2 f = Create os1 f) →
  (∀ f d, Encode os2 f d = Encode os1 f d) →
  outcome fuel os2 client owner repo = outcome fuel os1 client owner repo.
Proof.
  intros Hcreate Hencode. unfold outcome.
  destruct (checkLatestRelease client owner (GetName repo)) as [[|] rel]; [|done].
  destruct (Get client owner (GetName repo)) as [detail|err]; [|done].
  destruct (compareAllCommits fuel client owner (GetName repo) _ _)
    as [[commits|err]|]; [|done..].
  destruct (commitInfos_loop commits []) as [infos|]; [|done].
  by rewrite Hcreate, Hencode.
Qed.

Lemma last_write_same_disk fuel os1 os2 client owner (f : string) :
  (∀ f, Create os2 f = Create os1 f) →
  (∀ f d, Encode os2 f d = Encode os1 f d) →
  ∀ repos, last_write fuel os2 client owner repos f
           = last_write fuel os1 client owner repos f.
Proof.
  intros Hcreate Hencode. induction repos as [|repo repos IH]; [done|].
  cbn [last_write]. by rewrite IH, (outcome_same_disk _ os1 os2).
Qed.

(** X12. Crawling again with the remote unchanged and the disk behaving the
    same completes again and leaves every file other than the timestamp file
    exactly as the first crawl left it; when the clock reads the same as
    well, all files are the same. *)
Theorem recrawl_same_files fuel os1 os2 client owner limit st st1 :
  runCrawl fuel os1 client owner limit st = Done () st1 →
  GITHUB_TOKEN os2 ≠ "" → MkdirAll os2 outputDir = None →
  (∀ f, Create os2 f = Create os1 f) →
  (∀ f d, Encode os2 f d = Encode os1 f d) →
  ∃ st2,
    runCrawl fuel os2 client owner limit st1 = Done () st2 ∧
    (∀ f, f ≠ timestampFile → files st2 !! f = files st1 !! f) ∧
    (Now os2 = Now os1 → files st2 = files st1).
Proof.
  intros Hrun Htoken Hmkdir Hcreate Hencode.
  apply runCrawl_Done_inv in Hrun
    as (_ & _ & repos & Hlist & Hok & Hfiles1 & _).
  assert (Forall (λ repo, ¬ halts (outcome fuel os2 client owner repo)) repos)
    as Hok2.
  { eapply Forall_impl; [exact Hok|]. intros repo Hrepo.
    by rewrite (outcome_same_disk _ os1 os2). }
  eexists. rewrite (runCrawl_completes _ _ _ _ _ repos) by done.
  split; [reflexivity|]. cbn [files].
  assert (∀ f, loop_files fuel os2 client owner repos (files st1) !! f
               = match last_write fuel os1 client owner repos f with
                 | Some file => Some file
                 | None => files st1 !! f
                 end) as Hloop2.
  { intros f. by rewrite loop_files_lookup, (last_write_same_disk _ os1 os2). }
  assert (∀ f, f ≠ timestampFile →
               loop_files fuel os2 client owner repos (files st1) !! f
               = files st1 !! f) as Hsame.
  { intros f Hf. rewrite Hloop2, Hfiles1.
    rewrite timestamp_files_other by done. rewrite loop_files_lookup.
    by destruct (last_write fuel os1 client owner repos f). }
  split.
  - intros f Hf. rewrite timestamp_files_other by done. by apply Hsame.
  - intros Hnow. apply map_eq. intros f.
    destruct (decide (f = timestampFile)) as [->|Hf].
    2:{ rewrite timestamp_files_other by done. by apply Hsame. }
    assert (files st1 !! timestampFile
            = timestamp_files os1
                (loop_files fuel os1 client owner repos (files st))
              !! timestampFile) as Hts by (by rewrite Hfiles1).
    unfold timestamp_files in Hts |- *.
    rewrite Hcreate, Hencode, Hnow.
    destruct (Create os1 timestampFile) eqn:Hc.
    + rewrite Hloop2. rewrite loop_files_lookup in Hts.
      by destruct (last_write fuel os1 client owner repos timestampFile).
    + destruct (Encode os1 timestampFile _);
        rewrite lookup_insert_eq in Hts; by rewrite lookup_insert_eq.
Qed.

Lemma recrawl_same_files_witness :
  ∃ st2,
    runCrawl 5 sample_os sample_client "org" 0
      (final (runCrawl 5 sample_os sample_client "org" 0 initial))
    = Done () st2 ∧
    files st2 = files (final (runCrawl 5 sample_os sample_client "org" 0 initial)).
Proof.
  set (st1 := final (runCrawl 5 sample_os sample_client "org" 0 initial)).
  assert (runCrawl 5 sample_os sample_client "org" 0 initial = Done () st1)
    as Hrun by (vm_compute; reflexivity).
  destruct (recrawl_same_files 5 sample_os sample_os sample_client "org" 0
              initial st1 Hrun) as (st2 & Hrun2 & _ & Hsame); try done.
  exists st2. split; [exact Hrun2 | by apply Hsame].
Defined.
(** ** Every repository is reported *)

Lemma failure_count_app (out1 out2 : list Event) :
  failure_count (out1 ++ out2) = (failure_count out1 + failure_count out2)%nat.
Proof. unfold failure_count. by rewrite filter_app, length_app. Qed.

Lemma processing_lines_app (out1 out2 : list Event) :
  processing_lines (out1 ++ out2) = processing_lines out1 ++ processing_lines out2.
Proof. apply omap_app. Qed.

Lemma body_events_report fuel os client owner n i repo :
  ¬ halts (outcome fuel os client owner repo) →
  (saved_count (body_events fuel os client owner n i repo)
   + skipped_count (body_events fuel os client owner n i repo)
   + failure_count (body_events fuel os client owner n i repo) = 1)%nat ∧
  processing_lines (body_events fuel os client owner n i repo)
  = [(i + 1, n, GetName repo)].
Proof.
  unfold body_events.
  by destruct (outcome fuel os client owner repo); [..|intros []].
Qed.

Lemma loop_events_report fuel os client owner n :
  ∀ repos i,
    Forall (λ repo, ¬ halts (outcome fuel os client owner repo)) repos →
    (saved_count (loop_events fuel os client owner n i repos)
     + skipped_count (loop_events fuel os client owner n i repos)
     + failure_count (loop_events fuel os client owner n i repos)
     = length repos)%nat ∧
    processing_lines (loop_events fuel os client owner n i repos)
    = imap (λ k repo, (i + Z.of_nat k + 1, n, GetName repo)) repos.
Proof.
  induction repos as [|repo repos IH]; intros i Hok; [done|].
  apply Forall_cons in Hok as [Hrepo Hok].
  destruct (IH (i + 1) Hok) as [IHcount IHlines].
  destruct (body_events_report fuel os client owner n i repo Hrepo)
    as [Hcount Hlines].
  cbn [loop_events].
  rewrite saved_count_app, skipped_count_app, failure_count_app,
    processing_lines_app, Hlines, IHlines.
  split; [simpl; lia|].
  cbn [imap app]. rewrite Z.add_0_r. f_equal.
  apply imap_ext. intros k r _. cbn. do 2 f_equal. lia.
Qed.

Lemma loop_events_blocks fuel os client owner n :
  ∀ repos i,
    loop_events fuel os client owner n i repos
    = concat (imap (λ k repo,
                      body_events fuel os client owner n (i + Z.of_nat k) repo)
                repos).
Proof.
  induction repos as [|repo repos IH]; intros i; [done|].
  cbn [loop_events imap concat]. rewrite Z.add_0_r, IH. do 2 f_equal.
  apply imap_ext. intros k r _. cbn. f_equal. lia.
Qed.

Lemma body_events_block fuel os client owner n i repo :
  ¬ halts (outcome fuel os client owner repo) →
  head (body_events fuel os client owner n i repo)
  = Some (Processing (i + 1) n (GetName repo)) ∧
  ∃ line,
    reports (body_events fuel os client owner n i repo) = [line] ∧
    match outcome fuel os client owner repo with
    | Skipped => line = Skipping (GetName repo)
    | Persisted d => line = Saved (len (UnreleasedCommits d)) (snapshotFile repo)
    | _ => is_failure line = true
    end.
Proof.
  unfold body_events.
  destruct (outcome fuel os client owner repo) as [|err|err|err created|d|h];
    intros Hok; (split; [done|]).
  - by exists (Skipping (GetName repo)).
  - by exists (ErrorRepoDetails err).
  - by exists (ErrorComparing err).
  - by exists (ErrorWritingJSON err).
  - by exists (Saved (len (UnreleasedCommits d)) (snapshotFile repo)).
  - by destruct Hok.
Qed.

(** X13. In a crawl that completes, the output between the two opening
    lines and the two closing lines is one block of lines per enumerated
    repository, in the order of enumeration.  The block of a repository
    starts with its announcement, numbered from 1, holds no other
    announcement, and holds exactly one report: the skip line with its name
    when it has no release, the saved line with its file when its Snapshot
    was written, an error line when it failed.  So the reports of the whole
    output add up to the number of repositories, and the processed count
    lies between 0 and that number. *)
Theorem every_repository_reported_once fuel os client owner limit st st' :
  runCrawl fuel os client owner limit st = Done () st' →
  ∃ repos blocks,
    listPublicRepos fuel client owner limit = Some (Ok repos) ∧
    output st'
    = output st
      ++ [FetchingRepositories owner; FoundRepositories (len repos)]
      ++ concat blocks
      ++ [timestamp_event os;
          CrawlComplete (loop_count fuel os client owner repos)] ∧
    reports [timestamp_event os;
             CrawlComplete (loop_count fuel os client owner repos)] = [] ∧
    length blocks = length repos ∧
    (∀ k repo,
       repos !! k = Some repo →
       ∃ block line,
         blocks !! k = Some block ∧
         head block
         = Some (Processing (Z.of_nat k + 1) (len repos) (GetName repo)) ∧
         processing_lines block = [(Z.of_nat k + 1, len repos, GetName repo)] ∧
         reports block = [line] ∧
         match outcome fuel os client owner repo with
         | Skipped => line = Skipping (GetName repo)
         | Persisted d =>
           line = Saved (len (UnreleasedCommits d)) (snapshotFile repo)
         | _ => is_failure line = true
         end) ∧
    (saved_count (output st') + skipped_count (output st')
     + failure_count (output st')
     = saved_count (output st) + skipped_count (output st)
       + failure_count (output st) + length repos)%nat ∧
    processing_lines (output st')
    = processing_lines (output st)
      ++ imap (λ k repo, (Z.of_nat k + 1, len repos, GetName repo)) repos ∧
    0 <= loop_count fuel os client owner repos <= len repos.
Proof.
  intros Hrun.
  apply runCrawl_Done_inv in Hrun as (_ & _ & repos & Hlist & Hok & _ & Hout).
  exists repos,
    (imap (λ k repo,
             body_events fuel os client owner (len repos) (0 + Z.of_nat k) repo)
       repos).
  split; [done|].
  split; [by rewrite <- loop_events_blocks|].
  split.
  { unfold timestamp_event. destruct (Create os timestampFile); [done|].
    by destruct (Encode os timestampFile _). }
  split; [apply length_imap|].
  split.
  { intros k repo Hrepo. rewrite Forall_forall in Hok.
    assert (¬ halts (outcome fuel os client owner repo)) as Hrepo_ok.
    { apply Hok. by eapply list_elem_of_lookup_2. }
    destruct (body_events_block fuel os client owner (len repos)
                (0 + Z.of_nat k) repo Hrepo_ok) as (Hhead & line & Hline & Hkind).
    destruct (body_events_report fuel os client owner (len repos)
                (0 + Z.of_nat k) repo Hrepo_ok) as [_ Hlines].
    exists (body_events fuel os client owner (len repos) (0 + Z.of_nat k) repo),
           line.
    split; [by rewrite list_lookup_imap, Hrepo|].
    rewrite Z.add_0_l in Hhead, Hlines. done. }
  destruct (loop_events_report fuel os client owner (len repos) repos 0 Hok)
    as [Hcount Hlines].
  destruct (loop_events_counts fuel os client owner (len repos) repos 0)
    as (_ & Hsave & Hloop).
  assert (saved_count [timestamp_event os] = 0 ∧
          skipped_count [timestamp_event os] = 0 ∧
          failure_count [timestamp_event os] = 0 ∧
          processing_lines [timestamp_event os] = [])%nat
    as (Hts1 & Hts2 & Hts3 & Hts4).
  { unfold timestamp_event. destruct (Create os timestampFile); [done|].
    by destruct (Encode os timestampFile _). }
  rewrite Hout.
  change [timestamp_event os; CrawlComplete (loop_count fuel os client owner repos)]
    with ([timestamp_event os]
          ++ [CrawlComplete (loop_count fuel os client owner repos)]).
  rewrite !saved_count_app, !skipped_count_app, !failure_count_app,
    !processing_lines_app, Hts1, Hts2, Hts3, Hts4, Hlines.
  split; [| split].
  - pose proof (eq_refl : saved_count [FetchingRepositories owner;
                                        FoundRepositories (len repos)] = 0%nat).
    pose proof (eq_refl : skipped_count [FetchingRepositories owner;
                                          FoundRepositories (len repos)] = 0%nat).
    pose proof (eq_refl : failure_count [FetchingRepositories owner;
                                          FoundRepositories (len repos)] = 0%nat).
    pose proof (eq_refl : saved_count
      [CrawlComplete (loop_count fuel os client owner repos)] = 0%nat).
    pose proof (eq_refl : skipped_count
      [CrawlComplete (loop_count fuel os client owner repos)] = 0%nat).
    pose proof (eq_refl : failure_count
      [CrawlComplete (loop_count fuel os client owner repos)] = 0%nat).
    lia.
  - cbn [processing_lines omap app]. rewrite app_nil_r. done.
  - rewrite Hloop, Hsave. unfold len.
    pose proof (length_filter
      (λ repo, is_persisted (outcome fuel os client owner repo) = true) repos).
    lia.
Qed.

(** The faulty organization: the block of "beta", the second repository,
    starts with its announcement and holds one report, an error line. *)
Lemma every_repository_reported_once_witness :
  ∃ blocks block line,
    output (final (runCrawl 5 faulty_os faulty_client "org" 0 initial))
    = [FetchingRepositories "org"; FoundRepositories 4]
      ++ concat blocks
      ++ [WarnTimestamp "permission denied"; CrawlComplete 1] ∧
    blocks !! 1%nat = Some block ∧
    head block = Some (Processing 2 4 "beta") ∧
    reports block = [line] ∧
    is_failure line = true ∧
    processing_lines
      (output (final (runCrawl 5 faulty_os faulty_client "org" 0 initial)))
    = [(1, 4, "alpha"); (2, 4, "beta"); (3, 4, "gamma"); (4, 4, "delta")].
Proof.
  set (st' := final (runCrawl 5 faulty_os faulty_client "org" 0 initial)).
  assert (runCrawl 5 faulty_os faulty_client "org" 0 initial = Done () st')
    as Hrun by (vm_compute; reflexivity).
  destruct (every_repository_reported_once _ _ _ _ _ _ _ Hrun)
    as (repos & blocks & Hlist & Hout & _ & _ & Hblocks & _ & Hlines & _).
  vm_compute in Hlist. injection Hlist as <-.
  destruct (Hblocks 1%nat _ eq_refl)
    as (block & line & Hblock & Hhead & _ & Hline & Hkind).
  exists blocks, block, line.
  split; [exact Hout|]. split; [exact Hblock|]. split; [exact Hhead|].
  split; [exact Hline|]. split; [exact Hkind | exact Hlines].
Defined.

(** ** The generator: loading *)

Lemma runGenerate_load_spec tpl fs :
  ∀ paths allRepos events,
    (runGenerate_load tpl fs paths allRepos events).1
    = allRepos ++ omap (load_one tpl fs) paths ∧
    index_pages (runGenerate_load tpl fs paths allRepos events).2
    = index_pages events ∧
    repo_pages (runGenerate_load tpl fs paths allRepos events).2
    = repo_pages events.
Proof.
  induction paths as [|file paths IH]; intros allRepos events.
  { cbn. by rewrite app_nil_r. }
  cbn [runGenerate_load].
  assert (omap (load_one tpl fs) (file :: paths)
          = match load_one tpl fs file with
            | Some repo => repo :: omap (load_one tpl fs) paths
            | None => omap (load_one tpl fs) paths
            end) as -> by done.
  unfold load_one at 1.
  destruct (bool_decide (Base file = "timestamp.json")); [exact (IH _ _)|].
  destruct (ReadFile tpl fs file) as [data|err]; cbv beta iota.
  - destruct (UnmarshalRepositoryData data) as [repo|err]; cbv beta iota.
    + destruct (IH (allRepos ++ [repo]) events) as (-> & -> & ->).
      by rewrite <- app_assoc.
    + destruct (IH allRepos (events ++ [ErrorParsing file err])) as (-> & -> & ->).
      unfold index_pages, repo_pages. rewrite !omap_app. cbn.
      by rewrite !app_nil_r.
  - destruct (IH allRepos (events ++ [ErrorReading file err])) as (-> & -> & ->).
    unfold index_pages, repo_pages. rewrite !omap_app. cbn.
    by rewrite !app_nil_r.
Qed.

Lemma elem_of_Glob_json (fs : gmap string File) (dir path : string) :
  path ∈ Glob_json fs dir ↔ is_Some (fs !! path) ∧ is_json_entry dir path = true.
Proof.
  unfold Glob_json. rewrite merge_sort_Permutation.
  rewrite list_elem_of_filter, elem_of_elements, elem_of_dom. tauto.
Qed.

Lemma repo_pages_app (events1 events2 : list GenEvent) :
  repo_pages (events1 ++ events2) = repo_pages events1 ++ repo_pages events2.
Proof. apply omap_app. Qed.

Lemma index_pages_app (events1 events2 : list GenEvent) :
  index_pages (events1 ++ events2) = index_pages events1 ++ index_pages events2.
Proof. apply omap_app. Qed.

Lemma repo_pages_pages tpl outputDir lastUpdated :
  ∀ allRepos,
    repo_pages (runGenerate_pages tpl outputDir lastUpdated allRepos) = allRepos ∧
    index_pages (runGenerate_pages tpl outputDir lastUpdated allRepos) = [].
Proof.
  induction allRepos as [|repo allRepos IH]; [done|].
  destruct IH as [IH1 IH2]. cbn [runGenerate_pages].
  change (RepoPage outputDir repo lastUpdated :: ?events)
    with ([RepoPage outputDir repo lastUpdated] ++ events).
  rewrite !repo_pages_app, !index_pages_app, IH1, IH2.
  by destruct (generateRepoPage tpl outputDir repo lastUpdated).
Qed.

Lemma runGenerate_nothing_loaded os tpl fs :
  MkdirAll os "output" = None → loaded tpl fs = [] →
  (runGenerate os tpl fs).1
  = GenFatal "No repository JSON files found in data directory. Run with -crawl first." ∧
  index_pages (runGenerate os tpl fs).2 = [] ∧
  repo_pages (runGenerate os tpl fs).2 = [].
Proof.
  intros Hmkdir Hloaded. unfold runGenerate. rewrite Hmkdir.
  destruct (match loadLastCrawlTimestamp tpl fs (Join "data" "timestamp.json") with
            | Ok ts => (formatTimestampForFooter tpl ts, [])
            | Err err =>
              ("", if negb (IsNotExist err) then [WarnLoadTimestamp err] else [])
            end) as [lastUpdated warning] eqn:Hts.
  destruct (runGenerate_load_spec tpl fs (Glob_json fs "data") []
              ([Generating] ++ warning)) as (Hfst & Hindex & Hrepo).
  destruct (runGenerate_load tpl fs (Glob_json fs "data") []
              ([Generating] ++ warning)) as [allRepos events].
  cbn [fst snd] in *. fold (loaded tpl fs) in Hfst. rewrite Hloaded in Hfst.
  subst allRepos. rewrite bool_decide_eq_true_2 by done. cbn [fst snd].
  rewrite Hindex, Hrepo, index_pages_app, repo_pages_app.
  assert (index_pages warning = [] ∧ repo_pages warning = []) as [-> ->]; [|done].
  destruct (loadLastCrawlTimestamp tpl fs _) as [ts|err]; [by injection Hts as _ <-|].
  injection Hts as _ <-. by destruct (negb (IsNotExist err)).
Qed.

Lemma runGenerate_something_loaded os tpl fs :
  MkdirAll os "output" = None → loaded tpl fs ≠ [] →
  index_pages (runGenerate os tpl fs).2
  = [(merge_sort by_name (loaded tpl fs), footer tpl fs)] ∧
  (∀ err,
     generateIndexPage tpl "output" (merge_sort by_name (loaded tpl fs))
       (footer tpl fs) = Some err →
     (runGenerate os tpl fs).1
     = GenFatal ("Failed to generate index page: " +:+ err) ∧
     repo_pages (runGenerate os tpl fs).2 = []) ∧
  (generateIndexPage tpl "output" (merge_sort by_name (loaded tpl fs))
     (footer tpl fs) = None →
   repo_pages (runGenerate os tpl fs).2 = merge_sort by_name (loaded tpl fs) ∧
   ((runGenerate os tpl fs).1 = GenDone ↔ generateCSS tpl "output" = None)).
Proof.
  intros Hmkdir Hloaded. unfold runGenerate. rewrite Hmkdir.
  assert (∃ warning,
            match loadLastCrawlTimestamp tpl fs (Join "data" "timestamp.json") with
            | Ok ts => (formatTimestampForFooter tpl ts, [])
            | Err err =>
              ("", if negb (IsNotExist err) then [WarnLoadTimestamp err] else [])
            end = (footer tpl fs, warning) ∧
            index_pages warning = [] ∧ repo_pages warning = [])
    as (warning & -> & Hw1 & Hw2).
  { unfold footer.
    destruct (loadLastCrawlTimestamp tpl fs _) as [ts|err]; [by eexists|].
    eexists. split; [done|]. by destruct (negb (IsNotExist err)). }
  destruct (runGenerate_load_spec tpl fs (Glob_json fs "data") []
              ([Generating] ++ warning)) as (Hfst & Hindex & Hrepo).
  destruct (runGenerate_load tpl fs (Glob_json fs "data") []
              ([Generating] ++ warning)) as [allRepos events].
  cbn [fst snd] in *. fold (loaded tpl fs) in Hfst. cbn [app] in Hfst.
  subst allRepos.
  rewrite index_pages_app, Hw1 in Hindex. rewrite repo_pages_app, Hw2 in Hrepo.
  cbn in Hindex, Hrepo.
  rewrite bool_decide_eq_false_2
    by (unfold len; destruct (loaded tpl fs); [done | simpl; lia]).
  destruct (repo_pages_pages tpl "output" (footer tpl fs)
              (merge_sort by_name (loaded tpl fs))) as [Hpages1 Hpages2].
  destruct (generateIndexPage tpl "output" _ _) as [err|] eqn:Hgen.
  - cbn [fst snd]. rewrite index_pages_app, repo_pages_app, Hindex, Hrepo.
    split; [done|]. split; [|done]. by intros ? [= <-].
  - assert (index_pages
              ((events ++ [IndexPage "output" (merge_sort by_name (loaded tpl fs))
                             (footer tpl fs)])
               ++ runGenerate_pages tpl "output" (footer tpl fs)
                    (merge_sort by_name (loaded tpl fs))
               ++ [CSS "output"])
            = [(merge_sort by_name (loaded tpl fs), footer tpl fs)] ∧
            repo_pages
              ((events ++ [IndexPage "output" (merge_sort by_name (loaded tpl fs))
                             (footer tpl fs)])
               ++ runGenerate_pages tpl "output" (footer tpl fs)
                    (merge_sort by_name (loaded tpl fs))
               ++ [CSS "output"])
            = merge_sort by_name (loaded tpl fs)) as [Hi Hr].
    { rewrite !index_pages_app, !repo_pages_app, Hindex, Hrepo, Hpages1, Hpages2.
      cbn. by rewrite app_nil_r. }
    destruct (generateCSS tpl "output") as [err|]; cbn [fst snd].
    + rewrite Hi, Hr. split; [done|]. split; [done|]. intros _. split; [done|].
      split; done.
    + rewrite index_pages_app, repo_pages_app, Hi, Hr. cbn.
      rewrite !app_nil_r. split; [done|]. split; [done|]. intros _. done.
Qed.

Lemma calls_app (events1 events2 : list GenEvent) :
  calls (events1 ++ events2) = calls events1 ++ calls events2.
Proof. apply filter_app. Qed.

Lemma runGenerate_load_calls tpl fs :
  ∀ paths allRepos events,
    calls (runGenerate_load tpl fs paths allRepos events).2 = calls events.
Proof.
  induction paths as [|file paths IH]; intros allRepos events; [done|].
  cbn [runGenerate_load].
  destruct (bool_decide (Base file = "timestamp.json")); [apply IH|].
  destruct (ReadFile tpl fs file) as [data|err].
  - destruct (UnmarshalRepositoryData data) as [repo|err]; [apply IH|].
    rewrite IH, calls_app. apply app_nil_r.
  - rewrite IH, calls_app. apply app_nil_r.
Qed.

Lemma runGenerate_pages_calls tpl outputDir lastUpdated :
  ∀ allRepos,
    calls (runGenerate_pages tpl outputDir lastUpdated allRepos)
    = (λ repo, RepoPage outputDir repo lastUpdated) <$> allRepos.
Proof.
  induction allRepos as [|repo allRepos IH]; [done|].
  cbn [runGenerate_pages].
  change (RepoPage outputDir repo lastUpdated :: ?events)
    with ([RepoPage outputDir repo lastUpdated] ++ events).
  rewrite !calls_app, IH.
  by destruct (generateRepoPage tpl outputDir repo lastUpdated).
Qed.

Lemma runGenerate_calls os tpl fs :
  MkdirAll os "output" = None → loaded tpl fs ≠ [] →
  generateIndexPage tpl "output" (merge_sort by_name (loaded tpl fs))
    (footer tpl fs) = None →
  calls (runGenerate os tpl fs).2
  = [IndexPage "output" (merge_sort by_name (loaded tpl fs)) (footer tpl fs)]
    ++ ((λ repo, RepoPage "output" repo (footer tpl fs))
          <$> merge_sort by_name (loaded tpl fs))
    ++ [CSS "output"].
Proof.
  intros Hmkdir Hloaded Hindex. unfold runGenerate. rewrite Hmkdir.
  assert (∃ warning,
            match loadLastCrawlTimestamp tpl fs (Join "data" "timestamp.json") with
            | Ok ts => (formatTimestampForFooter tpl ts, [])
            | Err err =>
              ("", if negb (IsNotExist err) then [WarnLoadTimestamp err] else [])
            end = (footer tpl fs, warning) ∧ calls warning = [])
    as (warning & -> & Hwarning).
  { unfold footer.
    destruct (loadLastCrawlTimestamp tpl fs _) as [ts|err]; [by eexists|].
    eexists. split; [done|]. by destruct (negb (IsNotExist err)). }
  pose proof (runGenerate_load_calls tpl fs (Glob_json fs "data") []
                ([Generating] ++ warning)) as Hcalls.
  destruct (runGenerate_load_spec tpl fs (Glob_json fs "data") []
              ([Generating] ++ warning)) as (Hfst & _ & _).
  rewrite calls_app, Hwarning in Hcalls.
  change (calls [Generating] ++ []) with (@nil GenEvent) in Hcalls.
  destruct (runGenerate_load tpl fs (Glob_json fs "data") []
              ([Generating] ++ warning)) as [allRepos events].
  cbn [fst snd] in Hfst, Hcalls. fold (loaded tpl fs) in Hfst.
  rewrite app_nil_l in Hfst. subst allRepos.
  rewrite bool_decide_eq_false_2
    by (unfold len; destruct (loaded tpl fs); [done | simpl; lia]).
  rewrite Hindex.
  destruct (generateCSS tpl "output"); cbn [snd];
    rewrite !calls_app, runGenerate_pages_calls, Hcalls;
    cbn; by rewrite ?app_nil_r.
Qed.

(** X14. When at least one data file loads and the index page renders,
    the calls runGenerate makes to the page generators are, in this order:
    the index page, once, for the loaded repositories sorted by name; then
    one repository page for each of them in that order, whether or not an
    individual page fails; then the style sheet.  All of them are given the
    output directory and the same footer text.  The run ends well exactly
    when the style sheet can be written. *)
Theorem runGenerate_pages_in_name_order os tpl fs :
  MkdirAll os "output" = None →
  loaded tpl fs ≠ [] →
  generateIndexPage tpl "output" (merge_sort by_name (loaded tpl fs))
    (footer tpl fs) = None →
  ∃ sorted,
    calls (runGenerate os tpl fs).2
    = [IndexPage "output" sorted (footer tpl fs)]
      ++ ((λ repo, RepoPage "output" repo (footer tpl fs)) <$> sorted)
      ++ [CSS "output"] ∧
    index_pages (runGenerate os tpl fs).2 = [(sorted, footer tpl fs)] ∧
    repo_pages (runGenerate os tpl fs).2 = sorted ∧
    Sorted by_name sorted ∧
    sorted ≡ₚ loaded tpl fs ∧
    ((runGenerate os tpl fs).1 = GenDone ↔ generateCSS tpl "output" = None).
Proof.
  intros Hmkdir Hloaded Hindex.
  destruct (runGenerate_something_loaded os tpl fs Hmkdir Hloaded)
    as (Hi & _ & Hpages).
  destruct (Hpages Hindex) as [Hr Hexit].
  exists (merge_sort by_name (loaded tpl fs)).
  split; [by apply runGenerate_calls|].
  split; [done|]. split; [done|].
  split; [apply (Sorted_merge_sort by_name) | split; [|done]].
  apply merge_sort_Permutation.
Qed.

(** After the crawl of the sample organization: the index page, the pages
    of "alpha" and "gamma", the style sheet. *)
Lemma runGenerate_pages_in_name_order_witness :
  (λ e, match e with
        | IndexPage _ repos _ => inl (Name <$> repos)
        | RepoPage _ repo _ => inr (Some (Name repo))
        | _ => inr None
        end)
  <$> calls
        (runGenerate sample_os plain_templates
           (files (final (runCrawl 5 sample_os sample_client "org" 0 initial)))).2
  = [inl ["alpha"; "gamma"]; inr (Some "alpha"); inr (Some "gamma"); inr None].
Proof.
  destruct (runGenerate_pages_in_name_order sample_os plain_templates
              (files (final (runCrawl 5 sample_os sample_client "org" 0 initial))))
    as (sorted & Hcalls & _ & Hpages & _).
  - reflexivity.
  - vm_compute. discriminate.
  - reflexivity.
  - rewrite Hcalls. rewrite <- Hpages. vm_compute. reflexivity.
Defined.

Lemma loop_count_zero fuel os client owner (repos : list Repository) :
  loop_count fuel os client owner repos = 0 →
  Forall (λ repo, ∀ d, outcome fuel os client owner repo ≠ Persisted d) repos.
Proof.
  induction repos as [|repo repos IH]; [constructor|].
  unfold loop_count. cbn [foldr]. fold (loop_count fuel os client owner repos).
  assert (0 <= loop_count fuel os client owner repos) as Hnonneg.
  { clear. induction repos as [|r repos IH]; [done|].
    unfold loop_count in *. cbn [foldr].
    destruct (outcome fuel os client owner r); simpl; lia. }
  intros Hzero. constructor.
  - intros d Hd. rewrite Hd in Hzero. simpl in Hzero. lia.
  - apply IH. destruct (outcome fuel os client owner repo); simpl in Hzero; lia.
Qed.

Lemma last_write_Some fuel os client owner (f : string) (file : File) :
  ∀ repos,
    last_write fuel os client owner repos f = Some file →
    ∃ repo, repo ∈ repos ∧ snapshotFile repo = f ∧
            written (outcome fuel os client owner repo) = Some file.
Proof.
  induction repos as [|repo repos IH]; [done|]. cbn [last_write].
  destruct (last_write fuel os client owner repos f) as [file'|].
  - intros [= ->]. destruct IH as (r & Hr & Hf & Hw); [done|].
    exists r. split; [by apply list_elem_of_further | done].
  - case_bool_decide; [|done]. intros Hw.
    exists repo. split; [apply list_elem_of_here | done].
Qed.

Lemma omap_none {A B} (f : A → option B) (l : list A) :
  (∀ x, x ∈ l → f x = None) → omap f l = [].
Proof.
  induction l as [|x l IH]; intros Hnone; [done|].
  assert (omap f (x :: l)
          = match f x with Some y => y :: omap f l | None => omap f l end)
    as -> by done.
  rewrite (Hnone x) by apply list_elem_of_here.
  apply IH. intros y Hy. apply Hnone. by apply list_elem_of_further.
Qed.

Lemma Base_timestampFile : Base timestampFile = "timestamp.json".
Proof. reflexivity. Qed.

(** X15. After a crawl over an empty data directory that processed no
    repository (each one skipped or failed), the generator finds nothing to
    load: it stops with the "No repository JSON files found" error and
    requests no page, although the timestamp file is there. *)
Theorem generate_after_fruitless_crawl fuel os client owner limit st st' os' tpl :
  files st = ∅ →
  runCrawl fuel os client owner limit st = Done () st' →
  summary st' = Some (CrawlComplete 0) →
  MkdirAll os' "output" = None →
  (runGenerate os' tpl (files st')).1
  = GenFatal "No repository JSON files found in data directory. Run with -crawl first." ∧
  index_pages (runGenerate os' tpl (files st')).2 = [] ∧
  repo_pages (runGenerate os' tpl (files st')).2 = [].
Proof.
  intros Hempty Hrun Hsummary Hmkdir.
  apply runCrawl_Done_inv in Hrun as (_ & _ & repos & _ & _ & Hfiles & Hout).
  assert (loop_count fuel os client owner repos = 0) as Hzero.
  { unfold summary in Hsummary. rewrite Hout in Hsummary.
    rewrite !app_assoc in Hsummary.
    change [timestamp_event os; CrawlComplete (loop_count fuel os client owner repos)]
      with ([timestamp_event os]
            ++ [CrawlComplete (loop_count fuel os client owner repos)])
      in Hsummary.
    rewrite app_assoc, last_snoc in Hsummary. by injection Hsummary. }
  apply loop_count_zero in Hzero.
  apply runGenerate_nothing_loaded; [done|].
  unfold loaded. apply omap_none.
  intros f Hf. apply elem_of_Glob_json in Hf as [[file Hfile] _].
  unfold load_one. case_bool_decide as Hbase; [done|].
  assert (f ≠ timestampFile) as Hts.
  { intros ->. by rewrite Base_timestampFile in Hbase. }
  unfold ReadFile. rewrite Hfile.
  destruct (ReadError tpl f); [done|].
  rewrite Hfiles, timestamp_files_other, loop_files_lookup, Hempty in Hfile by done.
  rewrite lookup_empty in Hfile.
  destruct (last_write fuel os client owner repos f) as [file'|] eqn:Hlast; [|done].
  injection Hfile as ->.
  apply last_write_Some in Hlast as (repo & Hrepo & _ & Hwritten).
  rewrite Forall_forall in Hzero. specialize (Hzero repo Hrepo).
  destruct (outcome fuel os client owner repo) as [| | |? [|]|d|];
    cbn [written] in Hwritten; try done.
  - by injection Hwritten as <-.
  - by destruct (Hzero d).
Qed.

(** An organization whose only repository has no release: the crawl
    completes, and the generator has nothing to show. *)
Lemma generate_after_fruitless_crawl_witness :
  (runGenerate sample_os plain_templates
     (files (final (runCrawl 3 sample_os (simulated [repo_named 1] []) "org" 0
                      initial)))).1
  = GenFatal "No repository JSON files found in data directory. Run with -crawl first.".
Proof.
  set (st' := final (runCrawl 3 sample_os (simulated [repo_named 1] []) "org" 0
                       initial)).
  assert (runCrawl 3 sample_os (simulated [repo_named 1] []) "org" 0 initial
          = Done () st') as Hrun by (vm_compute; reflexivity).
  apply (generate_after_fruitless_crawl 3 sample_os (simulated [repo_named 1] [])
           "org" 0 initial st' sample_os plain_templates).
  - reflexivity.
  - exact Hrun.
  - vm_compute. reflexivity.
  - reflexivity.
Defined.

(** X16. A crawl that completes and writes its timestamp can be read back:
    loadLastCrawlTimestamp on the data directory returns the time of that
    crawl, and the generator passes its formatted form to the pages.  When
    the write fails at os.Create, the timestamp file is as the crawl's loop
    left it. *)
Theorem crawl_timestamp_read_back fuel os client owner limit st st' tpl :
  runCrawl fuel os client owner limit st = Done () st' →
  ReadError tpl timestampFile = None →
  (Create os timestampFile = None →
   Encode os timestampFile (DataTimestamp {| LastCrawled := Now os |}) = None →
   loadLastCrawlTimestamp tpl (files st') timestampFile = Ok (Now os) ∧
   footer tpl (files st') = formatTimestampForFooter tpl (Now os)) ∧
  (∀ err, Create os timestampFile = Some err →
     ∃ repos,
       listPublicRepos fuel client owner limit = Some (Ok repos) ∧
       loadLastCrawlTimestamp tpl (files st') timestampFile
       = loadLastCrawlTimestamp tpl
           (loop_files fuel os client owner repos (files st)) timestampFile ∧
       (Forall (λ repo, GetName repo ≠ "timestamp") repos →
        loadLastCrawlTimestamp tpl (files st') timestampFile
        = loadLastCrawlTimestamp tpl (files st) timestampFile)).
Proof.
  intros Hrun Hread.
  apply runCrawl_Done_inv in Hrun as (_ & _ & repos & Hlist & _ & Hfiles & _).
  split.
  - intros Hcreate Hencode.
    assert (loadLastCrawlTimestamp tpl (files st') timestampFile = Ok (Now os))
      as Hload.
    { unfold loadLastCrawlTimestamp, ReadFile.
      rewrite Hfiles. unfold timestamp_files. rewrite Hcreate, Hencode.
      by rewrite lookup_insert_eq, Hread. }
    split; [done|]. unfold footer.
    change (Join "data" "timestamp.json") with timestampFile. by rewrite Hload.
  - intros err Hcreate. exists repos. split; [done|].
    assert (files st' = loop_files fuel os client owner repos (files st)) as ->.
    { rewrite Hfiles. unfold timestamp_files. by rewrite Hcreate. }
    split; [done|]. intros Hnames.
    unfold loadLastCrawlTimestamp, ReadFile.
    rewrite loop_files_other; [done|].
    eapply Forall_impl; [exact Hnames|]. intros repo Hrepo.
    by apply snapshotFile_timestampFile.
Qed.

Lemma crawl_timestamp_read_back_witness :
  loadLastCrawlTimestamp plain_templates
    (files (final (runCrawl 5 sample_os sample_client "org" 0 initial)))
    timestampFile
  = Ok 9000.
Proof.
  set (st' := final (runCrawl 5 sample_os sample_client "org" 0 initial)).
  assert (runCrawl 5 sample_os sample_client "org" 0 initial = Done () st')
    as Hrun by (vm_compute; reflexivity).
  destruct (crawl_timestamp_read_back 5 sample_os sample_client "org" 0 initial
              st' plain_templates Hrun eq_refl) as [Hback _].
  by destruct (Hback eq_refl eq_refl) as [Hload _].
Defined.

(** ** From the crawl to the generator *)

Lemma until_slash_app (l l' : list ascii) :
  "/"%char ∉ l → until_slash (l ++ "/"%char :: l') = l.
Proof.
  induction l as [|c l IH]; intros Hl; cbn [app until_slash].
  - by rewrite bool_decide_eq_true_2.
  - rewrite bool_decide_eq_false_2 by (intros ->; apply Hl, list_elem_of_here).
    rewrite IH; [done|]. intros Hin. by apply Hl, list_elem_of_further.
Qed.

Lemma chars_app (s1 s2 : string) : chars (s1 +:+ s2) = chars s1 ++ chars s2.
Proof. apply list_ascii_of_string_app. Qed.

Lemma chars_snapshotFile (repo : Repository) :
  chars (snapshotFile repo)
  = chars "data/" ++ chars (GetName repo) ++ chars ".json".
Proof. unfold snapshotFile, Join, outputDir. by rewrite !chars_app. Qed.

Lemma is_json_entry_snapshotFile (repo : Repository) :
  no_slash (GetName repo) → is_json_entry "data" (snapshotFile repo) = true.
Proof.
  intros Hname. unfold is_json_entry. rewrite chars_snapshotFile.
  change (chars ("data" +:+ "/")) with (chars "data/").
  rewrite drop_app_length.
  rewrite bool_decide_eq_true_2 by (by apply prefix_app_r).
  rewrite (bool_decide_eq_false_2 (_ ∈ _)).
  - rewrite bool_decide_eq_true_2; [done|]. by apply suffix_app_r.
  - rewrite elem_of_app. intros [Hin|Hin]; [done|].
    revert Hin. apply (bool_decide_unpack _). vm_compute. exact I.
Qed.

Lemma drop_slashes_app (l l' : list ascii) :
  "/"%char ∉ l → l ≠ [] → drop_slashes (l ++ l') = l ++ l'.
Proof.
  destruct l as [|c l]; [done|]. intros Hl _. cbn [app drop_slashes].
  by rewrite bool_decide_eq_false_2 by (intros ->; apply Hl, list_elem_of_here).
Qed.

(** The last element of a path whose last element is not empty. *)
Lemma Base_last_element (dir name : list ascii) :
  "/"%char ∉ name → name ≠ [] →
  reverse (until_slash (drop_slashes (reverse (dir ++ "/"%char :: name)))) = name.
Proof.
  intros Hname Hnil.
  rewrite reverse_app, reverse_cons, <- app_assoc. cbn [app].
  rewrite drop_slashes_app.
  - rewrite until_slash_app by (by rewrite elem_of_reverse).
    apply reverse_involutive.
  - by rewrite elem_of_reverse.
  - intros Hrev. apply Hnil. apply (f_equal reverse) in Hrev.
    by rewrite reverse_involutive in Hrev.
Qed.

Lemma Base_snapshotFile (repo : Repository) :
  no_slash (GetName repo) → Base (snapshotFile repo) = GetName repo +:+ ".json".
Proof.
  intros Hname. unfold Base.
  rewrite bool_decide_eq_false_2
    by (intros H; apply (f_equal chars) in H; rewrite chars_snapshotFile in H;
        discriminate H).
  cbn zeta. rewrite chars_snapshotFile.
  change (chars "data/" ++ chars (GetName repo) ++ chars ".json")
    with (chars "data" ++ "/"%char :: (chars (GetName repo) ++ chars ".json")).
  assert (chars (GetName repo) ++ chars ".json" ≠ []) as Hnil.
  { intros Hnil. by apply app_eq_nil in Hnil as [_ ?]. }
  rewrite Base_last_element; [|..|done].
  - rewrite bool_decide_eq_false_2 by done.
    rewrite <- chars_app. apply String.string_of_list_ascii_of_string.
  - rewrite elem_of_app. intros [Hin|Hin]; [done|].
    revert Hin. apply (bool_decide_unpack _). vm_compute. exact I.
Qed.

(** X17. Run on the data directory a completed crawl has filled, with
    every file readable, the generator loads only what the crawl persisted:
    each loaded repository is the Snapshot of an enumerated repository that
    the crawl counted as processed.  And when the enumerated names are
    pairwise different, every processed repository whose name has no path
    separator and is not "timestamp" is loaded; a repository named
    "timestamp" is never shown, its file being taken for the timestamp
    file. *)
Theorem generate_after_crawl fuel os client owner limit st st' tpl repos :
  files st = ∅ →
  runCrawl fuel os client owner limit st = Done () st' →
  listPublicRepos fuel client owner limit = Some (Ok repos) →
  (∀ f, ReadError tpl f = None) →
  (∀ d, d ∈ loaded tpl (files st') →
     ∃ repo, repo ∈ repos ∧ outcome fuel os client owner repo = Persisted d) ∧
  (NoDup (GetName <$> repos) →
   ∀ repo d,
     repo ∈ repos → outcome fuel os client owner repo = Persisted d →
     no_slash (GetName repo) →
     (GetName repo ≠ "timestamp" ↔ d ∈ loaded tpl (files st'))).
Proof.
  intros Hempty Hrun Hlist Hread.
  apply runCrawl_Done_inv in Hrun as (_ & _ & repos' & Hlist' & _ & Hfiles & _).
  rewrite Hlist in Hlist'. injection Hlist' as <-.
  assert (∀ f d, f ∈ Glob_json (files st') "data" → load_one tpl (files st') f = Some d →
            f ≠ timestampFile ∧
            ∃ repo, repo ∈ repos ∧ snapshotFile repo = f ∧
                    outcome fuel os client owner repo = Persisted d) as Hfrom.
  { intros f d Hf Hload. unfold load_one in Hload.
    case_bool_decide as Hbase; [done|].
    assert (f ≠ timestampFile) as Hts.
    { intros ->. by rewrite Base_timestampFile in Hbase. }
    split; [done|].
    unfold ReadFile in Hload. rewrite Hread in Hload.
    rewrite Hfiles, timestamp_files_other, loop_files_lookup, Hempty in Hload by done.
    rewrite lookup_empty in Hload.
    destruct (last_write fuel os client owner repos f) as [file|] eqn:Hlast; [|done].
    apply last_write_Some in Hlast as (repo & Hrepo & Hfile & Hwritten).
    exists repo. split; [done|]. split; [done|].
    destruct (outcome fuel os client owner repo) as [| | |? [|]|d'|];
      cbn [written] in Hwritten; try done.
    - by injection Hwritten as <-.
    - injection Hwritten as <-. cbn in Hload. by injection Hload as ->. }
  split.
  - intros d Hd. apply list_elem_of_omap in Hd as (f & Hf & Hload).
    destruct (Hfrom f d Hf Hload) as (_ & repo & Hrepo & _ & Hout). by exists repo.
  - intros Hnodup repo d Hrepo Hout Hname. split.
    + intros Hts.
      assert (files st' !! snapshotFile repo = Some (Encoded (DataRepository d)))
        as Hfile.
      { rewrite Hfiles, timestamp_files_other
          by (by apply snapshotFile_timestampFile).
        rewrite loop_files_own, Hout by done. cbn [file_effect].
        apply lookup_insert_eq. }
      apply list_elem_of_omap. exists (snapshotFile repo). split.
      * apply elem_of_Glob_json. split; [by eexists|].
        by apply is_json_entry_snapshotFile.
      * unfold load_one. rewrite Base_snapshotFile by done.
        rewrite bool_decide_eq_false_2.
        -- unfold ReadFile. by rewrite Hfile, Hread.
        -- intros Heq. apply Hts.
           by apply (string_app_inv_tail _ "timestamp" ".json").
    + intros Hd Hts. apply list_elem_of_omap in Hd as (f & Hf & Hload).
      destruct (Hfrom f d Hf Hload) as (Hne & repo' & Hrepo' & Hfile' & Hout').
      unfold load_one in Hload. case_bool_decide as Hbase; [done|].
      clear Hload.
      apply outcome_Persisted_inv in Hout as (? & ? & ? & ? & _ & _ & _ & _ & _ & _ & Hd).
      apply outcome_Persisted_inv in Hout'
        as (? & ? & ? & ? & _ & _ & _ & _ & _ & _ & Hd').
      apply (f_equal Name) in Hd, Hd'. cbn [Name] in Hd, Hd'.
      apply Hne. rewrite <- Hfile'. unfold snapshotFile.
      by rewrite <- Hd', Hd, Hts.
Qed.

(** The pages of the sample organization: "alpha" was processed and is
    loaded. *)
Lemma generate_after_crawl_witness :
  ∃ d, outcome 5 sample_os sample_client "org" alpha = Persisted d ∧
       d ∈ loaded plain_templates
             (files (final (runCrawl 5 sample_os sample_client "org" 0 initial))).
Proof.
  set (st' := final (runCrawl 5 sample_os sample_client "org" 0 initial)).
  assert (runCrawl 5 sample_os sample_client "org" 0 initial = Done () st')
    as Hrun by (vm_compute; reflexivity).
  assert (∃ d, outcome 5 sample_os sample_client "org" alpha = Persisted d)
    as [d Hd] by (eexists; vm_compute; reflexivity).
  exists d. split; [done|].
  destruct (generate_after_crawl 5 sample_os sample_client "org" 0 initial st'
              plain_templates sample_repos eq_refl Hrun) as [_ Hloaded].
  - vm_compute. reflexivity.
  - done.
  - assert (NoDup (GetName <$> sample_repos)) as Hnodup
      by (apply (bool_decide_unpack _); vm_compute; exact I).
    assert (no_slash (GetName alpha)) as Hname
      by (apply (bool_decide_unpack _); vm_compute; exact I).
    apply (Hloaded Hnodup alpha d (list_elem_of_here _ _) Hd Hname). done.
Defined.

(** ** The figures of the index page *)

Lemma commitCount_nonneg (repo : RepositoryData) : 0 <= commitCount repo.
Proof. unfold commitCount, len. lia. Qed.

Lemma generateIndexPage_loop_fields (clock : Clock) :
  ∀ repos vars,
    let vars' := foldl (generateIndexPage_body clock) vars repos in
    index.summaries vars' = index.summaries vars ++ (summaryData clock <$> repos) ∧
    index.totalCommits vars'
    = index.totalCommits vars + total (commitCount <$> repos) ∧
    index.reposWithCommits vars'
    = index.reposWithCommits vars
      + len (filter (λ repo, commitCount repo > 0) repos) ∧
    index.minCommits vars'
    = foldl min_update (index.minCommits vars) (commitCount <$> repos) ∧
    index.maxCommits vars'
    = foldl max_update (index.maxCommits vars) (commitCount <$> repos) ∧
    index.minDaysBehind vars'
    = foldl min_update (index.minDaysBehind vars) (daysBehind clock <$> repos) ∧
    index.maxDaysBehind vars'
    = foldl max_update (index.maxDaysBehind vars) (daysBehind clock <$> repos) ∧
    index.minDaysSinceRelease vars'
    = foldl min_update (index.minDaysSinceRelease vars)
        (daysSinceRelease clock <$> repos) ∧
    index.maxDaysSinceRelease vars'
    = foldl max_update (index.maxDaysSinceRelease vars)
        (daysSinceRelease clock <$> repos).
Proof.
  induction repos as [|repo repos IH]; intros vars.
  { cbn. rewrite app_nil_r. unfold len. cbn. repeat split; lia. }
  cbn [foldl fmap list_fmap].
  destruct (IH (generateIndexPage_body clock vars repo))
    as (-> & -> & -> & -> & -> & -> & -> & -> & ->).
  cbn [generateIndexPage_body index.summaries index.totalCommits
       index.reposWithCommits index.minCommits index.maxCommits
       index.minDaysBehind index.maxDaysBehind index.minDaysSinceRelease
       index.maxDaysSinceRelease].
  split; [by rewrite <- app_assoc|]. split; [unfold total; cbn [foldr]; lia|].
  split; [|done].
  rewrite filter_cons. unfold len.
  case_bool_decide; destruct (decide (commitCount repo > 0)); try lia.
  cbn [length]. lia.
Qed.

(** The tracked maximum starts from 0: it is the larger of 0 and the
    values. *)
Lemma foldl_max_update (values : list Z) :
  ∀ max,
    max <= foldl max_update max values ∧
    Forall (λ v, v <= foldl max_update max values) values ∧
    (foldl max_update max values = max ∨ foldl max_update max values ∈ values).
Proof.
  induction values as [|v values IH]; intros max.
  { cbn. split; [lia|]. split; [constructor | by left]. }
  cbn [foldl]. destruct (IH (max_update max v)) as (Hle & Hall & Hin).
  assert (max <= max_update max v ∧ v <= max_update max v ∧
          (max_update max v = max ∨ max_update max v = v)) as (Hm & Hv & Hor).
  { unfold max_update. case_bool_decide; lia. }
  split; [lia|]. split.
  - constructor; [lia | done].
  - destruct Hin as [Hin|Hin].
    + destruct Hor as [Hor|Hor]; [left; lia|].
      right. rewrite Hin, Hor. apply list_elem_of_here.
    + right. by apply list_elem_of_further.
Qed.

(** The tracked minimum, with -1 standing for "no value yet": as long as
    no value is -1 itself, it is the least value. *)
Lemma foldl_min_update (values : list Z) :
  Forall (λ v, v ≠ -1) values →
  ∀ min,
    (min = -1 → values ≠ [] →
     foldl min_update min values ∈ values ∧
     Forall (λ v, foldl min_update min values <= v) values) ∧
    (min ≠ -1 →
     foldl min_update min values <= min ∧
     Forall (λ v, foldl min_update min values <= v) values ∧
     (foldl min_update min values = min ∨ foldl min_update min values ∈ values)).
Proof.
  induction 1 as [|v values Hv Hvalues IH]; intros min.
  { cbn. split; [done|]. intros _. split; [lia|]. split; [constructor | by left]. }
  cbn [foldl]. destruct (IH (min_update min v)) as [_ IHset]. split.
  - intros -> _.
    assert (min_update (-1) v = v) as Hupd by done. rewrite Hupd in *.
    destruct (IHset Hv) as (Hle & Hall & Hin). split.
    + destruct Hin as [->|Hin]; [apply list_elem_of_here|].
      by apply list_elem_of_further.
    + by constructor.
  - intros Hmin.
    assert (min_update min v ≠ -1 ∧ min_update min v <= min ∧
            min_update min v <= v ∧
            (min_update min v = min ∨ min_update min v = v))
      as (Hne & Hm & Hv' & Hor).
    { unfold min_update. rewrite (bool_decide_eq_false_2 (min = -1)) by done.
      cbn [orb]. case_bool_decide; lia. }
    destruct (IHset Hne) as (Hle & Hall & Hin).
    split; [lia|]. split; [constructor; [lia | done]|].
    destruct Hin as [Hin|Hin].
    + destruct Hor as [Hor|Hor]; [left; lia|].
      right. rewrite Hin, Hor. apply list_elem_of_here.
    + right. by apply list_elem_of_further.
Qed.

(** With no value below -1, the tracked minimum never goes below -1. *)
Lemma foldl_min_update_sentinel (values : list Z) :
  Forall (λ v, -1 <= v) values →
  ∀ min, -1 <= min → -1 <= foldl min_update min values.
Proof.
  induction 1 as [|v values Hv Hvalues IH]; intros min Hmin; [done|].
  cbn [foldl]. apply IH. unfold min_update.
  destruct (bool_decide (min = -1) || bool_decide (v < min)); lia.
Qed.

(** The range of a column without negative values. *)
Lemma tracked_range (values : list Z) :
  values ≠ [] → Forall (λ v, 0 <= v) values →
  min_default (foldl min_update (-1) values) ∈ values ∧
  foldl max_update 0 values ∈ values ∧
  Forall (λ v, min_default (foldl min_update (-1) values) <= v
               ∧ v <= foldl max_update 0 values) values.
Proof.
  intros Hnil Hpos.
  assert (Forall (λ v, v ≠ -1) values) as Hne.
  { eapply Forall_impl; [exact Hpos|]. intros v Hv. cbv beta in Hv. lia. }
  destruct (foldl_min_update values Hne (-1)) as [Hmin _].
  destruct (Hmin eq_refl Hnil) as [Hin Hlow].
  destruct (foldl_max_update values 0) as (Hzero & Hup & Hmax).
  assert (min_default (foldl min_update (-1) values) = foldl min_update (-1) values)
    as ->.
  { unfold min_default. rewrite bool_decide_eq_false_2; [done|].
    rewrite Forall_forall in Hne. by apply Hne. }
  split; [done|]. split.
  - destruct Hmax as [Hmax|Hmax]; [|done].
    rewrite Forall_forall in Hpos, Hup.
    assert (foldl min_update (-1) values = 0) as Heq.
    { specialize (Hpos _ Hin). specialize (Hup _ Hin). cbv beta in *. lia. }
    rewrite Hmax, <- Heq. exact Hin.
  - rewrite Forall_forall in Hlow, Hup. apply Forall_forall. intros v Hv.
    split; [by apply Hlow | by apply Hup].
Qed.

Lemma rows_CommitCount (clock : Clock) (repos : list RepositoryData) :
  index.CommitCount <$> (summaryData clock <$> repos) = commitCount <$> repos.
Proof. by rewrite <- list_fmap_compose. Qed.

Lemma rows_DaysBehind (clock : Clock) (repos : list RepositoryData) :
  index.DaysBehind <$> (summaryData clock <$> repos) = daysBehind clock <$> repos.
Proof. by rewrite <- list_fmap_compose. Qed.

Lemma rows_DaysSinceRelease (clock : Clock) (repos : list RepositoryData) :
  index.DaysSinceRelease <$> (summaryData clock <$> repos)
  = daysSinceRelease clock <$> repos.
Proof. by rewrite <- list_fmap_compose. Qed.

Lemma rows_with_commits (values : list Z) :
  Forall (λ v, 0 <= v) values →
  0 <= len (filter (λ v, v > 0) values) <= len values ∧
  len (filter (λ v, v > 0) values) <= total values ∧
  (total values = 0 ↔ len (filter (λ v, v > 0) values) = 0).
Proof.
  unfold len. induction 1 as [|v values Hv Hvalues IH].
  { cbn. lia. }
  rewrite filter_cons. unfold total in *. cbn [foldr].
  destruct (decide (v > 0)); cbn [length]; lia.
Qed.

Lemma filter_rows (repos : list RepositoryData) :
  filter (λ v, v > 0) (commitCount <$> repos)
  = commitCount <$> filter (λ repo, commitCount repo > 0) repos.
Proof.
  induction repos as [|repo repos IH]; [done|].
  rewrite fmap_cons, !filter_cons.
  destruct (decide (commitCount repo > 0)); by rewrite IH.
Qed.

Lemma generateIndexPage_data_fields clock repos lastUpdated :
  index.Repos (generateIndexPage_data clock repos lastUpdated)
  = summaryData clock <$> repos ∧
  index.TotalCommits (generateIndexPage_data clock repos lastUpdated)
  = total (commitCount <$> repos) ∧
  index.ReposWithCommits (generateIndexPage_data clock repos lastUpdated)
  = len (filter (λ v, v > 0) (commitCount <$> repos)) ∧
  index.MinCommits (generateIndexPage_data clock repos lastUpdated)
  = min_default (foldl min_update (-1) (commitCount <$> repos)) ∧
  index.MaxCommits (generateIndexPage_data clock repos lastUpdated)
  = foldl max_update 0 (commitCount <$> repos) ∧
  index.MinDaysBehind (generateIndexPage_data clock repos lastUpdated)
  = min_default (foldl min_update (-1) (daysBehind clock <$> repos)) ∧
  index.MaxDaysBehind (generateIndexPage_data clock repos lastUpdated)
  = foldl max_update 0 (daysBehind clock <$> repos) ∧
  index.MinDaysSinceRelease (generateIndexPage_data clock repos lastUpdated)
  = min_default (foldl min_update (-1) (daysSinceRelease clock <$> repos)) ∧
  index.MaxDaysSinceRelease (generateIndexPage_data clock repos lastUpdated)
  = foldl max_update 0 (daysSinceRelease clock <$> repos).
Proof.
  unfold generateIndexPage_data, generateIndexPage_loop.
  destruct (generateIndexPage_loop_fields clock repos generateIndexPage_init)
    as (H1 & H2 & H3 & H4 & H5 & H6 & H7 & H8 & H9).
  cbn [index.Repos index.TotalCommits index.ReposWithCommits index.MinCommits
       index.MaxCommits index.MinDaysBehind index.MaxDaysBehind
       index.MinDaysSinceRelease index.MaxDaysSinceRelease].
  rewrite H1, H2, H3, H4, H5, H6, H7, H8, H9.
  cbn [generateIndexPage_init index.summaries index.totalCommits
       index.reposWithCommits index.minCommits index.maxCommits
       index.minDaysBehind index.maxDaysBehind index.minDaysSinceRelease
       index.maxDaysSinceRelease app].
  rewrite filter_rows. unfold len. rewrite length_fmap.
  repeat split; lia.
Qed.

(** X18. The head figures of the index page agree with its rows: there is
    one row per loaded repository, in the order given; the total is the sum
    of the rows' commit counts; the number of repositories with unreleased
    commits is the number of rows with a positive count, at most the number
    of rows and at most the total; and the total is 0 exactly when no row
    has unreleased commits. *)
Theorem index_page_totals clock repos lastUpdated :
  let data := generateIndexPage_data clock repos lastUpdated in
  index.Name <$> index.Repos data = Name <$> repos ∧
  index.TotalRepos data = len (index.Repos data) ∧
  index.TotalCommits data = total (index.CommitCount <$> index.Repos data) ∧
  index.ReposWithCommits data
  = len (filter (λ v, v > 0) (index.CommitCount <$> index.Repos data)) ∧
  0 <= index.ReposWithCommits data <= index.TotalRepos data ∧
  index.ReposWithCommits data <= index.TotalCommits data ∧
  (index.TotalCommits data = 0 ↔ index.ReposWithCommits data = 0).
Proof.
  intros data. subst data.
  destruct (generateIndexPage_data_fields clock repos lastUpdated)
    as (-> & -> & -> & _).
  rewrite rows_CommitCount.
  assert (Forall (λ v, 0 <= v) (commitCount <$> repos)) as Hpos.
  { apply Forall_fmap, Forall_forall. intros repo _. apply commitCount_nonneg. }
  destruct (rows_with_commits _ Hpos) as (Hle & Htotal & Hzero).
  cbn [generateIndexPage_data index.TotalRepos].
  unfold len in *. rewrite !length_fmap in *.
  split; [by rewrite <- list_fmap_compose|]. repeat split; try lia; apply Hzero.
Qed.

(** X19. On a page with at least one row, MinCommits and MaxCommits are the
    least and the greatest commit count among the rows. *)
Theorem index_page_commit_range clock repos lastUpdated :
  repos ≠ [] →
  let data := generateIndexPage_data clock repos lastUpdated in
  index.MinCommits data ∈ index.CommitCount <$> index.Repos data ∧
  index.MaxCommits data ∈ index.CommitCount <$> index.Repos data ∧
  ∀ row, row ∈ index.Repos data →
         index.MinCommits data <= index.CommitCount row <= index.MaxCommits data.
Proof.
  intros Hnil data. subst data.
  destruct (generateIndexPage_data_fields clock repos lastUpdated)
    as (-> & _ & _ & -> & -> & _).
  rewrite rows_CommitCount.
  destruct (tracked_range (commitCount <$> repos)) as (Hmin & Hmax & Hall).
  - by destruct repos.
  - apply Forall_fmap, Forall_forall. intros repo _. apply commitCount_nonneg.
  - split; [done|]. split; [done|]. intros row Hrow.
    rewrite Forall_forall in Hall. apply Hall.
    rewrite <- (rows_CommitCount clock). by apply list_elem_of_fmap_2.
Qed.

Lemma index_page_commit_range_witness :
  let data :=
    generateIndexPage_data whole_days
      [snapshot_of "a" 100000 [500000; 400000]; snapshot_of "b" 100000 []] "" in
  index.MinCommits data ∈ [2; 0] ∧ index.MaxCommits data ∈ [2; 0].
Proof.
  intros data.
  destruct (index_page_commit_range whole_days
              [snapshot_of "a" 100000 [500000; 400000]; snapshot_of "b" 100000 []]
              "") as (Hmin & Hmax & _); [done|].
  split; [exact Hmin | exact Hmax].
Defined.

(** X20. The two day columns of the index page.  The maxima start from 0:
    each is at least every row's value, and is 0 or the value of a row.
    The minima are tracked with -1 for "nothing seen": on a page with at
    least one row, as long as no row's value is -1, each is the least value
    among the rows. *)
Theorem index_page_day_ranges clock repos lastUpdated :
  let data := generateIndexPage_data clock repos lastUpdated in
  (∀ row, row ∈ index.Repos data →
     index.DaysBehind row <= index.MaxDaysBehind data ∧
     index.DaysSinceRelease row <= index.MaxDaysSinceRelease data) ∧
  (index.MaxDaysBehind data = 0 ∨
   index.MaxDaysBehind data ∈ index.DaysBehind <$> index.Repos data) ∧
  (index.MaxDaysSinceRelease data = 0 ∨
   index.MaxDaysSinceRelease data ∈ index.DaysSinceRelease <$> index.Repos data) ∧
  (repos ≠ [] →
   (Forall (λ repo, daysBehind clock repo ≠ -1) repos →
    index.MinDaysBehind data ∈ index.DaysBehind <$> index.Repos data ∧
    ∀ row, row ∈ index.Repos data →
           index.MinDaysBehind data <= index.DaysBehind row) ∧
   (Forall (λ repo, daysSinceRelease clock repo ≠ -1) repos →
    index.MinDaysSinceRelease data
      ∈ index.DaysSinceRelease <$> index.Repos data ∧
    ∀ row, row ∈ index.Repos data →
           index.MinDaysSinceRelease data <= index.DaysSinceRelease row)).
Proof.
  intros data. subst data.
  destruct (generateIndexPage_data_fields clock repos lastUpdated)
    as (-> & _ & _ & _ & _ & -> & -> & -> & ->).
  rewrite rows_DaysBehind, rows_DaysSinceRelease.
  destruct (foldl_max_update (daysBehind clock <$> repos) 0) as (_ & Hup1 & Hmax1).
  destruct (foldl_max_update (daysSinceRelease clock <$> repos) 0)
    as (_ & Hup2 & Hmax2).
  assert (∀ (column : index.SummaryData → Z) (value : RepositoryData → Z),
            column <$> (summaryData clock <$> repos) = value <$> repos →
            Forall (λ repo, value repo ≠ -1) repos → repos ≠ [] →
            min_default (foldl min_update (-1) (value <$> repos)) ∈ value <$> repos ∧
            ∀ row, row ∈ summaryData clock <$> repos →
                   min_default (foldl min_update (-1) (value <$> repos))
                   <= column row) as Hmin.
  { intros column value Hrows Hne Hnil.
    assert (Forall (λ v, v ≠ -1) (value <$> repos)) as Hne' by by apply Forall_fmap.
    destruct (foldl_min_update (value <$> repos) Hne' (-1)) as [Hset _].
    destruct Hset as [Hin Hlow]; [done | by destruct repos |].
    assert (min_default (foldl min_update (-1) (value <$> repos))
            = foldl min_update (-1) (value <$> repos)) as ->.
    { unfold min_default. rewrite bool_decide_eq_false_2; [done|].
      rewrite Forall_forall in Hne'. by apply Hne'. }
    split; [done|]. intros row Hrow. rewrite Forall_forall in Hlow.
    apply Hlow. rewrite <- Hrows. by apply list_elem_of_fmap_2. }
  split; [|split; [done|split; [done|]]].
  - intros row Hrow. rewrite Forall_forall in Hup1, Hup2. split.
    + apply Hup1. rewrite <- (rows_DaysBehind clock). by apply list_elem_of_fmap_2.
    + apply Hup2. rewrite <- (rows_DaysSinceRelease clock).
      by apply list_elem_of_fmap_2.
  - intros Hnil. split; intros Hne.
    + by apply (Hmin index.DaysBehind (daysBehind clock) (rows_DaysBehind _ _)).
    + by apply (Hmin index.DaysSinceRelease (daysSinceRelease clock)
                  (rows_DaysSinceRelease _ _)).
Qed.

Lemma index_page_day_ranges_witness :
  let data :=
    generateIndexPage_data whole_days
      [snapshot_of "a" 100000 [500000]; snapshot_of "b" 100000 [300000]] "" in
  index.MinDaysBehind data ∈ [4; 2].
Proof.
  intros data.
  destruct (index_page_day_ranges whole_days
              [snapshot_of "a" 100000 [500000]; snapshot_of "b" 100000 [300000]]
              "") as (_ & _ & _ & Hmin).
  destruct Hmin as [Hbehind _]; [done|].
  apply Hbehind. repeat constructor; vm_compute; discriminate.
Defined.

(** X21. The -1 that stands for "nothing seen" collides with a real value.
    When the newest unreleased commit of the last repository is dated one
    day before its release, and no repository is more than one day behind
    in that direction, the page reports 0 as MinDaysBehind although the row
    of that repository shows -1. *)
Theorem index_page_min_days_sentinel clock before repo lastUpdated :
  daysBehind clock repo = -1 →
  Forall (λ r, -1 <= daysBehind clock r) before →
  let data := generateIndexPage_data clock (before ++ [repo]) lastUpdated in
  index.MinDaysBehind data = 0 ∧
  ∃ row, row ∈ index.Repos data ∧ index.DaysBehind row = -1.
Proof.
  intros Hrepo Hbefore data. subst data.
  destruct (generateIndexPage_data_fields clock (before ++ [repo]) lastUpdated)
    as (-> & _ & _ & _ & _ & -> & _).
  split.
  - rewrite fmap_app, foldl_app. cbn [fmap list_fmap foldl]. rewrite Hrepo.
    assert (-1 <= foldl min_update (-1) (daysBehind clock <$> before)) as Hlow.
    { apply foldl_min_update_sentinel; [|done]. by apply Forall_fmap. }
    generalize dependent (foldl min_update (-1) (daysBehind clock <$> before)).
    intros min Hlow.
    assert (min_update min (-1) = -1) as ->; [|done].
    unfold min_update.
    destruct (bool_decide (min = -1) || bool_decide (-1 < min)) eqn:Htest; [done|].
    apply orb_false_elim in Htest as [Hne Hlt].
    apply bool_decide_eq_false_1 in Hne, Hlt. lia.
  - exists (summaryData clock repo). split; [|done].
    rewrite fmap_app. apply elem_of_app. right. apply list_elem_of_here.
Qed.

Lemma index_page_min_days_sentinel_witness :
  let data :=
    generateIndexPage_data whole_days
      [snapshot_of "a" 100000 [500000]; snapshot_of "b" 300000 [200000]] "" in
  index.DaysBehind <$> index.Repos data = [4; -1] ∧ index.MinDaysBehind data = 0.
Proof.
  intros data. split; [reflexivity|].
  apply (index_page_min_days_sentinel whole_days
           [snapshot_of "a" 100000 [500000]] (snapshot_of "b" 300000 [200000]) "").
  - reflexivity.
  - repeat constructor. vm_compute. discriminate.
Defined.

(** ** Data files the generator cannot use *)

Lemma load_errors_app (events1 events2 : list GenEvent) :
  load_errors (events1 ++ events2) = load_errors events1 ++ load_errors events2.
Proof. apply filter_app. Qed.

Lemma runGenerate_load_errors tpl fs :
  ∀ paths allRepos events,
    load_errors (runGenerate_load tpl fs paths allRepos events).2
    = load_errors events ++ omap (load_error tpl fs) paths.
Proof.
  induction paths as [|file paths IH]; intros allRepos events.
  { cbn. by rewrite app_nil_r. }
  cbn [runGenerate_load].
  assert (omap (load_error tpl fs) (file :: paths)
          = match load_error tpl fs file with
            | Some e => e :: omap (load_error tpl fs) paths
            | None => omap (load_error tpl fs) paths
            end) as -> by done.
  unfold load_error at 1.
  destruct (bool_decide (Base file = "timestamp.json")); [apply IH|].
  destruct (ReadFile tpl fs file) as [data|err].
  - destruct (UnmarshalRepositoryData data) as [repo|err]; [apply IH|].
    rewrite IH, load_errors_app, <- app_assoc. done.
  - rewrite IH, load_errors_app, <- app_assoc. done.
Qed.

Lemma runGenerate_pages_load_errors tpl outputDir lastUpdated :
  ∀ allRepos,
    load_errors (runGenerate_pages tpl outputDir lastUpdated allRepos) = [].
Proof.
  induction allRepos as [|repo allRepos IH]; [done|].
  cbn [runGenerate_pages].
  change (RepoPage outputDir repo lastUpdated :: ?events)
    with ([RepoPage outputDir repo lastUpdated] ++ events).
  rewrite !load_errors_app, IH.
  by destruct (generateRepoPage tpl outputDir repo lastUpdated).
Qed.

Lemma loaded_or_reported tpl fs (paths : list string) :
  (length (omap (load_one tpl fs) paths)
   + length (omap (load_error tpl fs) paths)
   = length (filter (λ file, Base file ≠ "timestamp.json") paths))%nat.
Proof.
  induction paths as [|file paths IH]; [done|].
  assert (omap (load_error tpl fs) (file :: paths)
          = match load_error tpl fs file with
            | Some e => e :: omap (load_error tpl fs) paths
            | None => omap (load_error tpl fs) paths
            end) as -> by done.
  assert (omap (load_one tpl fs) (file :: paths)
          = match load_one tpl fs file with
            | Some repo => repo :: omap (load_one tpl fs) paths
            | None => omap (load_one tpl fs) paths
            end) as -> by done.
  rewrite filter_cons. unfold load_one at 1, load_error at 1.
  destruct (decide (Base file ≠ "timestamp.json")) as [Hbase|Hbase].
  - rewrite !(bool_decide_eq_false_2 (Base file = _)) by done.
    destruct (ReadFile tpl fs file) as [data|err]; [|cbn [length]; lia].
    destruct (UnmarshalRepositoryData data); cbn [length]; lia.
  - rewrite !(bool_decide_eq_true_2 (Base file = _)); [done|..];
      by destruct (decide (Base file = "timestamp.json")).
Qed.

(** X22. The generator drops no data file silently.  Whatever the run comes
    to, its "Error reading" and "Error parsing" lines are, in the order of
    the directory listing, those of the files other than timestamp.json
    that cannot be read or decoded, and every such file is either loaded or
    reported by one line. *)
Theorem runGenerate_reports_unusable_files os tpl fs :
  MkdirAll os "output" = None →
  load_errors (runGenerate os tpl fs).2
  = omap (load_error tpl fs) (Glob_json fs "data") ∧
  (length (loaded tpl fs) + length (load_errors (runGenerate os tpl fs).2)
   = length (filter (λ file, Base file ≠ "timestamp.json")
               (Glob_json fs "data")))%nat.
Proof.
  intros Hmkdir.
  assert (load_errors (runGenerate os tpl fs).2
          = omap (load_error tpl fs) (Glob_json fs "data")) as Herrors.
  { unfold runGenerate. rewrite Hmkdir.
    assert (∃ lastUpdated warning,
              match loadLastCrawlTimestamp tpl fs (Join "data" "timestamp.json") with
              | Ok ts => (formatTimestampForFooter tpl ts, [])
              | Err err =>
                ("", if negb (IsNotExist err) then [WarnLoadTimestamp err] else [])
              end = (lastUpdated, warning) ∧ load_errors warning = [])
      as (lastUpdated & warning & -> & Hwarning).
    { destruct (loadLastCrawlTimestamp tpl fs _) as [ts|err]; [by do 2 eexists|].
      do 2 eexists. split; [done|]. by destruct (negb (IsNotExist err)). }
    pose proof (runGenerate_load_errors tpl fs (Glob_json fs "data") []
                  ([Generating] ++ warning)) as Hload.
    rewrite load_errors_app, Hwarning in Hload.
    change (load_errors [Generating] ++ []) with (@nil GenEvent) in Hload.
    rewrite app_nil_l in Hload.
    destruct (runGenerate_load tpl fs (Glob_json fs "data") []
                ([Generating] ++ warning)) as [allRepos events].
    cbn [snd] in Hload.
    destruct (bool_decide (len allRepos = 0)); [done|].
    destruct (generateIndexPage tpl "output" _ _);
      [cbn [snd]; rewrite load_errors_app, Hload; apply app_nil_r|].
    destruct (generateCSS tpl "output"); cbn [snd];
      rewrite !load_errors_app, runGenerate_pages_load_errors, Hload;
      cbn; by rewrite ?app_nil_r. }
  split; [done|]. rewrite Herrors. apply loaded_or_reported.
Qed.

(** A Snapshot cut short by a failed write is reported, the other one is
    loaded. *)
Lemma runGenerate_reports_unusable_files_witness :
  load_errors
    (runGenerate sample_os plain_templates
       {[ "data/a.json" := Truncated;
          "data/b.json" := Encoded (DataRepository zeroRepositoryData) ]}).2
  = [ErrorParsing "data/a.json" "unexpected end of JSON input"].
Proof.
  destruct (runGenerate_reports_unusable_files sample_os plain_templates
              {[ "data/a.json" := Truncated;
                 "data/b.json" := Encoded (DataRepository zeroRepositoryData) ]}
              eq_refl) as [-> _].
  vm_compute. reflexivity.
Defined.
